(** * Trajectory normalisation, truncation and aggregation

    A shallow embedding of the analysis core of the HPOBench experiment
    utilities:

    - [df_per_optimizer]            (tabular_evals.py, lines 83-124),
    - the per-seed truncation loop of [save_median_table_tabular]
                                    (tabular_evals.py, lines 153-231),
    - the averaging and best-optimizer selection
                                    (tabular_evals.py, lines 233-268),
    - the directory guards of [plot_fidels] / [plot_overhead]
                                    (stats_generation.py, lines 24-27, 66-69),
    - the configuration fingerprint of [plot_correlation]
                                    (stats_generation.py, lines 182-187).

    Numbers read from the JSON run histories are modelled as exact
    rationals [Q]; DataFrame columns that can receive [np.inf] or the result
    of a reduction are modelled by [fval], which adds [+inf] and [NaN].
    Python dictionaries keep their insertion order and are modelled as
    association lists. Exceptions are values of [exn]. *)

From Stdlib Require Import String Ascii Bool Arith ZArith NArith QArith.
From Stdlib Require Import Lia List.
From Stdlib Require Import Permutation Sorted DecimalString Qround.
Import ListNotations.

Local Open Scope Q_scope.
Local Open Scope string_scope.
Local Open Scope list_scope.

Set Implicit Arguments.

(* ================================================================== *)
(** ** Exceptions and the result monad *)
(* ================================================================== *)

Inductive exn : Set :=
| ZeroDivisionError
| IndexError
| KeyError
| ValueError
| AssertionError
| AttributeError.

Inductive result (A : Type) : Type :=
| Ok (a : A)
| Raise (e : exn).

Arguments Ok {A} a.
Arguments Raise {A} e.

Definition bind {A B : Type} (m : result A) (k : A -> result B) : result B :=
  match m with
  | Ok a => k a
  | Raise e => Raise e
  end.

Declare Scope result_scope.
Delimit Scope result_scope with result.
Notation "x <- m ;; k" := (bind m (fun x => k))
  (at level 61, m at next level, right associativity) : result_scope.
Local Open Scope result_scope.

(** A list comprehension whose element expression may raise: elements are
    evaluated left to right and the first exception aborts. *)
Fixpoint comprehension {A B : Type} (f : A -> result B) (l : list A)
  : result (list B) :=
  match l with
  | [] => Ok []
  | x :: xs => y <- f x ;; ys <- comprehension f xs ;; Ok (y :: ys)
  end.

(* ================================================================== *)
(** ** Numeric values *)
(* ================================================================== *)

(** A float64 cell of a DataFrame: a finite number, [np.inf] or [NaN]. *)
Inductive fval : Type :=
| Fin (q : Q)
| PInf
| NaN.

(** Python's true division: dividing by zero raises. *)
Definition py_div (a b : Q) : result Q :=
  if Qeq_bool b 0 then Raise ZeroDivisionError else Ok (a / b).

(* ================================================================== *)
(** ** Python dictionaries as insertion-ordered association lists *)
(* ================================================================== *)

Section Dict.
Variables (K V : Type) (eqb : K -> K -> bool).

Definition dict := list (K * V).

(** [list(d)]: the keys, in insertion order. *)
Definition keys (d : dict) : list K := map fst d.

(** [d[k]]; [None] stands for [KeyError]. *)
Fixpoint dict_get (k : K) (d : dict) : option V :=
  match d with
  | [] => None
  | (k', v) :: d' => if eqb k k' then Some v else dict_get k d'
  end.

(** [d[k] = v]: overwrite in place, or insert at the end. *)
Fixpoint dict_set (k : K) (v : V) (d : dict) : dict :=
  match d with
  | [] => [(k, v)]
  | (k', v') :: d' =>
      if eqb k k' then (k', v) :: d' else (k', v') :: dict_set k v d'
  end.
End Dict.

(** [l[0]] *)
Definition index0 {A : Type} (l : list A) : result A :=
  match l with
  | [] => Raise IndexError
  | x :: _ => Ok x
  end.

(* ================================================================== *)
(** ** Trajectory records *)
(* ================================================================== *)

(** Values of hyperparameters in a configuration. *)
Inductive scalar : Type :=
| SInt (z : Z)
| SNum (q : Q)
| SStr (s : string)
| SBool (b : bool)
| SNull.

Module Traj.
(** One entry of a run history, with the keys the analysis reads. *)
Record record : Type := {
  configuration : dict string scalar;
  fidelity : dict string Q;
  function_value : Q;
  cost : Q;
  total_objective_costs : Q;
  total_time_used : Q;
  start_time : Q;
  finish_time : Q
}.
End Traj.

Definition trajectory := list Traj.record.

(** [traj[1:]] *)
Definition slice_from_1 {A : Type} (l : list A) : list A := skipn 1 l.

(** [record['fidelity'][list(record['fidelity'])[0]]] *)
Definition fidelity_value (r : Traj.record) : result Q :=
  k <- index0 (keys (Traj.fidelity r)) ;;
  match dict_get String.eqb k (Traj.fidelity r) with
  | Some v => Ok v
  | None => Raise KeyError
  end.

(* ================================================================== *)
(** ** DataFrames *)
(* ================================================================== *)

Module DF.
(** One row of the normalised table. *)
Record row : Type := {
  optimizer : string;
  id : nat;
  total_time_used : Q;
  total_objective_costs : Q;
  function_values : fval;
  fidel_values : fval;
  costs : Q;
  start_time : Q;
  finish_time : Q
}.
End DF.

(** A DataFrame: rows carrying their index label. *)
Definition frame := list (nat * DF.row).

Definition rows (df : frame) : list DF.row := map snd df.

(** [RangeIndex]: labels 0, 1, ..., n-1. *)
Definition range_index (l : list DF.row) : frame :=
  combine (seq 0 (length l)) l.

Module Cols.
(** The dictionary of column lists that [df_per_optimizer] fills. *)
Record columns : Type := {
  optimizer : list string;
  id : list nat;
  total_time_used : list Q;
  total_objective_costs : list Q;
  function_values : list Q;
  fidel_values : list Q;
  costs : list Q;
  start_time : list Q;
  finish_time : list Q
}.

Definition empty : columns :=
  {| optimizer := []; id := []; total_time_used := [];
     total_objective_costs := []; function_values := [];
     fidel_values := []; costs := []; start_time := [];
     finish_time := [] |}.
End Cols.

(** All column lists have the length [n]. *)
Definition same_length (n : nat) (d : Cols.columns) : bool :=
  (length (Cols.id d) =? n)%nat
  && (length (Cols.total_time_used d) =? n)%nat
  && (length (Cols.total_objective_costs d) =? n)%nat
  && (length (Cols.function_values d) =? n)%nat
  && (length (Cols.fidel_values d) =? n)%nat
  && (length (Cols.costs d) =? n)%nat
  && (length (Cols.start_time d) =? n)%nat
  && (length (Cols.finish_time d) =? n)%nat.

Definition zip_row
  (c : string * (nat * (Q * (Q * (Q * (Q * (Q * (Q * Q)))))))) : DF.row :=
  let '(o, (i, (t, (oc, (fv, (fd, (co, (st, fi)))))))) := c in
  {| DF.optimizer := o; DF.id := i; DF.total_time_used := t;
     DF.total_objective_costs := oc; DF.function_values := Fin fv;
     DF.fidel_values := Fin fd; DF.costs := co; DF.start_time := st;
     DF.finish_time := fi |}.

(** The rows obtained by reading the columns side by side. *)
Definition zip_columns (d : Cols.columns) : list DF.row :=
  map zip_row
    (combine (Cols.optimizer d)
    (combine (Cols.id d)
    (combine (Cols.total_time_used d)
    (combine (Cols.total_objective_costs d)
    (combine (Cols.function_values d)
    (combine (Cols.fidel_values d)
    (combine (Cols.costs d)
    (combine (Cols.start_time d) (Cols.finish_time d))))))))).

(** [pd.DataFrame(dataframe)]: the columns are zipped into rows under a
    fresh [RangeIndex]; columns of different lengths raise [ValueError]. *)
Definition DataFrame (d : Cols.columns) : result frame :=
  if same_length (length (Cols.optimizer d)) d
  then Ok (range_index (zip_columns d))
  else Raise ValueError.

(* ================================================================== *)
(** ** The normaliser [df_per_optimizer] *)
(* ================================================================== *)

(** [normalizer = 1 if y_max is None else y_max - y_best] *)
Definition normalizer (y_best : Q) (y_max : option Q) : Q :=
  match y_max with
  | None => 1
  | Some m => m - y_best
  end.

(** The body of the loop over [enumerate(unvalidated_trajectories)]. *)
Definition extend_with (key : string) (y_best : Q) (y_max : option Q)
  (id : nat) (traj : trajectory) (dataframe : Cols.columns)
  : result Cols.columns :=
  function_values <-
    comprehension
      (fun record => py_div (Traj.function_value record - y_best)
                            (normalizer y_best y_max))
      (slice_from_1 traj) ;;
  let total_time_used := map Traj.total_time_used (slice_from_1 traj) in
  let total_obj_costs := map Traj.total_objective_costs (slice_from_1 traj) in
  let costs := map Traj.cost (slice_from_1 traj) in
  let start := map Traj.start_time (slice_from_1 traj) in
  let finish := map Traj.finish_time (slice_from_1 traj) in
  fidel_values <- comprehension fidelity_value (slice_from_1 traj) ;;
  Ok {| Cols.optimizer :=
          Cols.optimizer dataframe
            ++ map (fun _ => key) (seq 0 (length (slice_from_1 traj)));
        Cols.id :=
          Cols.id dataframe
            ++ map (fun _ => id) (seq 0 (length (slice_from_1 traj)));
        Cols.total_time_used :=
          Cols.total_time_used dataframe ++ total_time_used;
        Cols.total_objective_costs :=
          Cols.total_objective_costs dataframe ++ total_obj_costs;
        Cols.function_values :=
          Cols.function_values dataframe ++ function_values;
        Cols.fidel_values := Cols.fidel_values dataframe ++ fidel_values;
        Cols.costs := Cols.costs dataframe ++ costs;
        Cols.start_time := Cols.start_time dataframe ++ start;
        Cols.finish_time := Cols.finish_time dataframe ++ finish |}.

Fixpoint enumerate_loop (key : string) (y_best : Q) (y_max : option Q)
  (id : nat) (trajs : list trajectory) (dataframe : Cols.columns)
  : result Cols.columns :=
  match trajs with
  | [] => Ok dataframe
  | traj :: rest =>
      dataframe' <- extend_with key y_best y_max id traj dataframe ;;
      enumerate_loop key y_best y_max (S id) rest dataframe'
  end.

Definition df_per_optimizer (key : string)
  (unvalidated_trajectories : list trajectory)
  (y_best : Q) (y_max : option Q) : result frame :=
  dataframe <-
    enumerate_loop key y_best y_max 0 unvalidated_trajectories Cols.empty ;;
  DataFrame dataframe.

(* ================================================================== *)
(** ** Reductions and orderings on DataFrame cells *)
(* ================================================================== *)

Definition Qgt_bool (a b : Q) : bool := negb (Qle_bool a b).

(** [a < b] on cells; every comparison with [NaN] is false. *)
Definition flt (a b : fval) : bool :=
  match a, b with
  | Fin p, Fin q => Qgt_bool q p
  | Fin _, PInf => true
  | _, _ => false
  end.

(** [a <= b] on cells without [NaN]. *)
Definition fle (a b : fval) : bool :=
  match a, b with
  | Fin p, Fin q => Qle_bool p q
  | _, PInf => true
  | _, _ => false
  end.

(** The larger of two cells, skipping [NaN]. *)
Definition fmax (a b : fval) : fval :=
  match a, b with
  | NaN, x => x
  | x, NaN => x
  | PInf, _ => PInf
  | _, PInf => PInf
  | Fin p, Fin q => if Qle_bool p q then Fin q else Fin p
  end.

(** [Series.max()]: [NaN] cells are skipped; an empty column gives [NaN]. *)
Definition series_max (l : list fval) : fval := fold_left fmax l NaN.

Definition fadd (a b : fval) : fval :=
  match a, b with
  | NaN, _ => NaN
  | _, NaN => NaN
  | PInf, _ => PInf
  | _, PInf => PInf
  | Fin p, Fin q => Fin (p + q)
  end.

(** Division of a cell by a positive count. *)
Definition fdiv_count (a : fval) (n : nat) : fval :=
  match a with
  | Fin p => Fin (p / inject_Z (Z.of_nat n))
  | x => x
  end.

Definition is_nan (a : fval) : bool :=
  match a with
  | NaN => true
  | _ => false
  end.

(* ================================================================== *)
(** ** Sorting *)
(* ================================================================== *)

Section Sorting.
Variables (A : Type) (leb : A -> A -> bool).

Fixpoint insert_sorted (x : A) (l : list A) : list A :=
  match l with
  | [] => [x]
  | y :: l' => if leb x y then x :: l else y :: insert_sorted x l'
  end.

(** A stable sort: equal elements keep their relative order. *)
Definition sort (l : list A) : list A := fold_right insert_sorted [] l.
End Sorting.

Section Unique.
Variables (A : Type) (ltb eqb : A -> A -> bool).

Fixpoint insert_unique (x : A) (l : list A) : list A :=
  match l with
  | [] => [x]
  | y :: l' =>
      if ltb x y then x :: l
      else if eqb x y then l
      else y :: insert_unique x l'
  end.

(** The distinct elements of [l] in ascending order. *)
Definition unique (l : list A) : list A := fold_right insert_unique [] l.
End Unique.

(** [np.unique] on the [id] column. *)
Definition np_unique (l : list nat) : list nat := unique Nat.ltb Nat.eqb l.

(* ================================================================== *)
(** ** DataFrame operations used by the truncation loop *)
(* ================================================================== *)

(** [df.index] *)
Definition index (df : frame) : list nat := map fst df.

(** [optimizer_df[optimizer_df['id'] == unique_id]] *)
Definition select_id (unique_id : nat) (df : frame) : frame :=
  filter (fun lr => (DF.id (snd lr) =? unique_id)%nat) df.

(** [df[df["total_time_used"] > cut_time_step]] *)
Definition select_after (cut_time_step : Q) (df : frame) : frame :=
  filter (fun lr => Qgt_bool (DF.total_time_used (snd lr)) cut_time_step) df.

(** [df.append(df2, ignore_index=True)] *)
Definition append_ignore_index (df df2 : frame) : frame :=
  range_index (rows df ++ rows df2).

(** The comparison of two labelled rows by [total_time_used]. *)
Definition by_time (a b : nat * DF.row) : bool :=
  Qle_bool (DF.total_time_used (snd a)) (DF.total_time_used (snd b)).

(** [df.sort_values(by='total_time_used')]. pandas does not fix the order
    of rows with equal keys; the model keeps their original order. *)
Definition sort_values (df : frame) : frame := sort by_time df.

(** [df.drop(labels)]: every row whose label is listed is removed. *)
Definition drop (labels : list nat) (df : frame) : frame :=
  filter (fun lr => negb (existsb (Nat.eqb (fst lr)) labels)) df.

(** [df.tail(1)] *)
Definition tail1 (df : frame) : frame := skipn (length df - 1) df.

(** The one-row frame [df2] of line 191: the columns are, in order,
    optimizer, id, total_time_used, total_objective_costs, function_values,
    fidel_values, costs, start_time, finish_time. *)
Definition sentinel (key : string) (unique_id : nat) (df : frame) : DF.row :=
  {| DF.optimizer := key;
     DF.id := unique_id;
     DF.total_time_used := 0;
     DF.total_objective_costs := 0;
     DF.function_values := PInf;
     DF.fidel_values := series_max (map DF.fidel_values (rows df));
     DF.costs := 0;
     DF.start_time := 0;
     DF.finish_time := 1 |}.

(** Lines 190-198: the series of one seed, extended, sorted and cut. *)
Definition truncate (key : string) (unique_id : nat) (cut_time_step : Q)
  (optimizer_df : frame) : frame :=
  let df := select_id unique_id optimizer_df in
  let df2 := range_index [sentinel key unique_id df] in
  let df := append_ignore_index df df2 in
  let df := sort_values df in
  drop (index (select_after cut_time_step df)) df.

(* ================================================================== *)
(** ** Output events and the table monad *)
(* ================================================================== *)

Definition path := list string.

(** [Path(input_dir) / benchmark] *)
Definition path_join (input_dir : string) (benchmark : string) : path :=
  [input_dir; benchmark].

Inductive event : Type :=
| Log_info_plotting (what benchmark : string)
| Log_critical_unvalidated
| Log_info_start (benchmark : string)
| Log_info_cut (thresh time_limit_in_s : Q)
| Log_info_skip (key : string)
| Print_missing_folder (input_dir : path)
| Print_unique_id (unique_id : nat)
| Print_not_enough (key : string) (cut_time_step : Q)
| Read_dir (input_dir : path) (which : string)
| Savefig (file : string).

(** Computations that write events and may raise. *)
Definition M (A : Type) : Type := list event * result A.

Definition ret {A : Type} (a : A) : M A := ([], Ok a).

Definition raise {A : Type} (e : exn) : M A := ([], Raise e).

Definition emit (e : event) : M unit := ([e], Ok tt).

Definition lift {A : Type} (r : result A) : M A := ([], r).

Definition bindM {A B : Type} (m : M A) (k : A -> M B) : M B :=
  match m with
  | (out, Ok a) => let (out', r) := k a in (out ++ out', r)
  | (out, Raise e) => (out, Raise e)
  end.

Declare Scope table_scope.
Delimit Scope table_scope with table.
Notation "x <~ m ;; k" := (bindM m (fun x => k))
  (at level 61, m at next level, right associativity) : table_scope.
Notation "m ;;; k" := (bindM m (fun _ => k))
  (at level 61, right associativity) : table_scope.
Local Open Scope table_scope.

(** [assert b] *)
Definition py_assert (b : bool) : M unit :=
  if b then ret tt else raise AssertionError.

(** A [for] loop threading an accumulator. *)
Fixpoint for_each {A S : Type} (body : S -> A -> M S) (l : list A) (s : S)
  : M S :=
  match l with
  | [] => ret s
  | x :: l' => s' <~ body s x ;; for_each body l' s'
  end.

Definition events {A : Type} (m : M A) : list event := fst m.
Definition outcome {A : Type} (m : M A) : result A := snd m.

(* ================================================================== *)
(** ** Aggregation per optimizer *)
(* ================================================================== *)

(** [np.median]: [NaN] if any cell is [NaN] or the list is empty, the
    middle cell of the sorted list, or the mean of the two middle cells. *)
Definition median (x : list fval) : fval :=
  if existsb is_nan x then NaN
  else
    let s := sort fle x in
    let n := length s in
    if (n =? 0)%nat then NaN
    else if Nat.odd n then nth (n / 2) s NaN
    else fdiv_count (fadd (nth (n / 2 - 1) s NaN) (nth (n / 2) s NaN)) 2.

(** The columns of the aggregated table that the ranking reads. The
    quartile columns and the median of [total_time_used] are computed by
    the source as well and are not needed below. *)
Record aggregate : Type := {
  function_values_median : fval;
  function_values_lst : list fval;
  value_lst_len : nat
}.

Definition table := dict string aggregate.

(** [result_df.append(last_inc)], where [None] is the fresh
    [pd.DataFrame()] that has no columns yet. *)
Definition frame_append (result_df : option frame) (last_inc : frame)
  : option frame :=
  match result_df with
  | None => Some last_inc
  | Some df => Some (df ++ last_inc)
  end.

(** [result_df.groupby('optimizer').agg(...)]: one entry per optimizer,
    the index sorted by optimizer name; a frame without the column
    [optimizer] raises [KeyError]. *)
Definition groupby_agg (result_df : option frame) : result table :=
  match result_df with
  | None => Raise KeyError
  | Some df =>
      Ok (map
            (fun opt =>
               let x :=
                 map DF.function_values
                   (filter (fun r => String.eqb (DF.optimizer r) opt)
                      (rows df)) in
               (opt, {| function_values_median := median x;
                        function_values_lst := x;
                        value_lst_len := length x |}))
            (unique String.ltb String.eqb (map DF.optimizer (rows df))))
  end.

(* ================================================================== *)
(** ** The table loop of [save_median_table_tabular] *)
(* ================================================================== *)

(** Lines 190-205: one seed of one optimizer. *)
Definition seed_step (key : string) (cut_time_step : Q)
  (optimizer_df : frame) (result_df : option frame) (unique_id : nat)
  : M (option frame) :=
  let df := truncate key unique_id cut_time_step optimizer_df in
  let last_inc := tail1 df in
  (if (length last_inc <? 1)%nat
   then emit (Print_unique_id unique_id) ;;;
        emit (Print_not_enough key cut_time_step)
   else ret tt) ;;;
  ret (frame_append result_df last_inc).

Section Table.
(** The collaborators that live outside the analysed files: the file
    system, the loaders of [validation_utils], the plotting dictionary
    [plot_dc] and the benchmark settings. *)
Variable files : Type.
Variable is_dir : path -> bool.
Variable load_trajectories_as_df : path -> string -> dict string files.
Variable load_json_files : files -> list trajectory.
Variable load_trajectories : files -> list trajectory.
Variable plot_dc : dict string (dict string Q).
Variable time_limit_in_s : string -> Q.

(** [plot_dc.get(benchmark, {}).get(name, 0)] *)
Definition benchmark_spec_get (benchmark name : string) : Q :=
  match dict_get String.eqb benchmark plot_dc with
  | None => 0
  | Some benchmark_spec =>
      match dict_get String.eqb name benchmark_spec with
      | None => 0
      | Some v => v
      end
  end.

(** Lines 176-205: one optimizer of [opt_list]. *)
Definition optimizer_step (unique_optimizer : dict string files)
  (unvalidated : bool) (y_best_val y_best_test y_max cut_time_step : Q)
  (result_df : option frame) (key : string) : M (option frame) :=
  match dict_get String.eqb key unique_optimizer with
  | None => emit (Log_info_skip key) ;;; ret result_df
  | Some fs =>
      let trajectories := load_json_files fs in
      optimizer_df <~
        lift (df_per_optimizer key trajectories
                (if unvalidated then y_best_val else y_best_test)
                (Some y_max)) ;;
      for_each (seed_step key cut_time_step optimizer_df)
        (np_unique (map DF.id (rows optimizer_df))) result_df
  end.

(** Lines 153-231: one benchmark. The [continue] after the message about
    the missing folder is commented out in the source. *)
Definition benchmark_step (orig_input_dir : string) (unvalidated : bool)
  (which : string) (thresh : Q)
  (st : option (list string) * dict string table) (benchmark : string)
  : M (option (list string) * dict string table) :=
  let '(opt_list, per_dataset_df) := st in
  emit (Log_info_start benchmark) ;;;
  let input_dir := path_join orig_input_dir benchmark in
  (if negb (is_dir input_dir)
   then emit (Print_missing_folder input_dir)
   else ret tt) ;;;
  let which' :=
    if unvalidated then String.append "train_" which
    else String.append "test_" which in
  emit (Read_dir input_dir which') ;;;
  let unique_optimizer := load_trajectories_as_df input_dir which' in
  let y_best_val := benchmark_spec_get benchmark "ystar_valid" in
  let y_best_test := benchmark_spec_get benchmark "ystar_test" in
  let y_max := benchmark_spec_get benchmark "y_max" in
  let cut_time_step := thresh * time_limit_in_s benchmark in
  emit (Log_info_cut thresh (time_limit_in_s benchmark)) ;;;
  let opt_list :=
    match opt_list with
    | None => keys unique_optimizer
    | Some l => l
    end in
  result_df <~
    for_each
      (optimizer_step unique_optimizer unvalidated y_best_val y_best_test
         y_max cut_time_step)
      opt_list None ;;
  result_df <~ lift (groupby_agg result_df) ;;
  ret (Some opt_list, dict_set String.eqb benchmark result_df per_dataset_df).

(** Lines 132 and 151-231; [benchmarks] is the list built by lines
    134-149. *)
Definition per_dataset_tables (orig_input_dir : string)
  (unvalidated : bool) (which : string) (opt_list : option (list string))
  (thresh : Q) (benchmarks : list string) : M (dict string table) :=
  py_assert (Qgt_bool thresh 0 && Qle_bool thresh 1) ;;;
  st <~
    for_each (benchmark_step orig_input_dir unvalidated which thresh)
      benchmarks (opt_list, []) ;;
  ret (snd st).

(* ---------------------------------------------------------------- *)
(** *** The guarded plots of stats_generation.py *)

(** The loops over [opt_rh_dc]: the runs of every optimizer are loaded and
    normalised. The source of [plot_overhead] skips an optimizer that has
    no file; the loader is taken to return no run for it. *)
Definition load_stats (opt_rh_dc : dict string files) (y_best : Q)
  : M (dict string frame) :=
  for_each
    (fun stat_dc (entry : string * files) =>
       df <~ lift (df_per_optimizer (fst entry)
                     (load_trajectories (snd entry)) y_best None) ;;
       ret (dict_set String.eqb (fst entry) df stat_dc))
    opt_rh_dc [].

(** Lines 24-63. The calls to matplotlib are summarised by the event
    [Savefig] of the last line. *)
Definition plot_fidels (benchmark input_dir : string) : M unit :=
  emit (Log_info_plotting "fidels" benchmark) ;;;
  let input_dir := path_join input_dir benchmark in
  py_assert (is_dir input_dir) ;;;
  emit (Read_dir input_dir "runhistory") ;;;
  let opt_rh_dc := load_trajectories_as_df input_dir "runhistory" in
  _ <~ load_stats opt_rh_dc 0 ;;
  emit (Savefig (String.append benchmark "_fidel.png")).

(** Lines 66-110, summarised in the same way. *)
Definition plot_overhead (benchmark input_dir : string) : M unit :=
  emit (Log_info_plotting "overhead" benchmark) ;;;
  let input_dir := path_join input_dir benchmark in
  py_assert (is_dir input_dir) ;;;
  emit (Read_dir input_dir "runhistory") ;;;
  let opt_rh_dc := load_trajectories_as_df input_dir "runhistory" in
  let y_best := benchmark_spec_get benchmark "ystar_valid" in
  _ <~ load_stats opt_rh_dc y_best ;;
  emit (Savefig (String.append benchmark "_overhead.png")).

(** evaluate_benchmark.py, the branch [args.what in ("all", "other")]. *)
Definition evaluate_other (benchmark input_dir : string)
  (unvalidated : bool) : M unit :=
  (if negb unvalidated then emit Log_critical_unvalidated else ret tt) ;;;
  plot_fidels benchmark input_dir ;;;
  plot_overhead benchmark input_dir.
End Table.

(* ================================================================== *)
(** ** Averaging the medians and selecting the best optimizer *)
(* ================================================================== *)

(** A pandas Series indexed by optimizer name. *)
Definition series := dict string fval.

(** [a + b] on Series: the indexes are aligned; a label missing on one
    side gives [NaN]; the resulting index is sorted. *)
Definition series_add (a b : series) : series :=
  map (fun k =>
         (k, match dict_get String.eqb k a, dict_get String.eqb k b with
             | Some x, Some y => fadd x y
             | _, _ => NaN
             end))
      (unique String.ltb String.eqb (keys a ++ keys b)).

(** Lines 233-239.  Line 242 follows as [transpose_copy]. *)
Definition averaged_medians (per_dataset_df : dict string table)
  : result series :=
  let result_df :=
    map (fun bt =>
           map (fun oa => (fst oa, function_values_median (snd oa))) (snd bt))
        per_dataset_df in
  let total := fold_left series_add (tl result_df) in
  first <- index0 result_df ;;
  Ok (map (fun kv => (fst kv, fdiv_count (snd kv) (length result_df)))
          (total first)).

(** [nanops._get_values(values, fill_value_typ="+inf")]: a [NaN] cell is
    read as [+inf]. *)
Definition fill_inf (v : fval) : fval :=
  match v with
  | NaN => PInf
  | _ => v
  end.

(** numpy's [argmin] on cells without [NaN], from the candidate [best]: a
    later cell replaces the candidate only if it is strictly smaller, so
    the first of the smallest cells is kept. *)
Fixpoint argmin_from (i : nat) (best : nat * fval) (l : list fval)
  : nat * fval :=
  match l with
  | [] => best
  | x :: l' =>
      argmin_from (S i) (if flt x (snd best) then (i, x) else best) l'
  end.

(** [Series.argmin()] as pandas 1.x computes it ([nanops.nanargmin]): the
    [NaN] cells are filled with [+inf], numpy's [argmin] gives the position
    of the first smallest cell, and the result is replaced by [-1] when
    every cell is [NaN]; an empty Series raises [ValueError]. *)
Definition argmin (values : list fval) : result Z :=
  match map fill_inf values with
  | [] => Raise ValueError
  | x :: l =>
      let result := fst (argmin_from 1 (0%nat, x) l) in
      if forallb is_nan values then Ok (-1)%Z else Ok (Z.of_nat result)
  end.

(** [l[i]] for a Python list, negative positions counting from the end. *)
Definition py_getitem {A : Type} (l : list A) (i : Z) : result A :=
  let j := if (i <? 0)%Z then (Z.of_nat (length l) + i)%Z else i in
  if (j <? 0)%Z then Raise IndexError
  else match nth_error l (Z.to_nat j) with
       | Some x => Ok x
       | None => Raise IndexError
       end.

(** Lines 248-249. *)
Definition opt_keys (result_df : series) : list string :=
  sort String.leb (keys result_df).

(** Line 252, which comes after line 242 (see [transpose_copy]). *)
Definition best_opt (result_df : series) : result string :=
  i <- argmin (map snd result_df) ;;
  py_getitem (opt_keys result_df) i.

Section Formatting.
(** The rendering of a number selected by [args.formatter]. *)
Variable format_value : fval -> string.

(** [r"textbf{{{}}}".format(val)] *)
Definition textbf (val : string) : string :=
  String.append "textbf{" (String.append val "}").

(** Lines 254-268: the column [value] of the final table. *)
Definition value_column (result_df : series) : result (dict string string) :=
  best <- best_opt result_df ;;
  comprehension
    (fun opt =>
       match dict_get String.eqb opt result_df with
       | None => Raise KeyError
       | Some v =>
           let val := format_value v in
           Ok (opt, if String.eqb opt best then textbf val else val)
       end)
    (opt_keys result_df).
End Formatting.

(* ================================================================== *)
(** ** The configuration fingerprint of [plot_correlation] *)
(* ================================================================== *)

Section Fingerprint.
(** The JSON encoders of strings and of scalar values. *)
Variable dumps_string : string -> string.
Variable dumps_scalar : scalar -> string.

(** The items of a dictionary sorted by key, as [sort_keys=True] does. *)
Definition sorted_items (d : dict string scalar) : dict string scalar :=
  sort (fun a b => String.leb (fst a) (fst b)) d.

(** [json.dumps(d, sort_keys=True)] for a flat dictionary. *)
Definition json_dumps_sort_keys (d : dict string scalar) : string :=
  String.append "{"
    (String.append
       (String.concat ", "
          (map (fun kv =>
                  String.append (dumps_string (fst kv))
                    (String.append ": " (dumps_scalar (snd kv))))
               (sorted_items d)))
       "}").

(** [conf_dc]: fingerprint -> fidelity -> function value. *)
Definition conf_table := dict string (dict Q Q).

(** Lines 184-187: one record. *)
Definition observe (st : conf_table * list Q) (record : Traj.record)
  : result (conf_table * list Q) :=
  let '(conf_dc, f_set) := st in
  let c := json_dumps_sort_keys (Traj.configuration record) in
  f <- fidelity_value record ;;
  let inner :=
    match dict_get String.eqb c conf_dc with
    | Some d => d
    | None => []
    end in
  Ok (dict_set String.eqb c
        (dict_set Qeq_bool f (Traj.function_value record) inner) conf_dc,
      f_set ++ [f]).

Fixpoint fold_result {A S : Type} (f : S -> A -> result S) (l : list A)
  (s : S) : result S :=
  match l with
  | [] => Ok s
  | x :: l' => s' <- f s x ;; fold_result f l' s'
  end.

(** Lines 182-187: [for rh in rhs: for record in rh[1:]]. *)
Definition collect (rhs : list trajectory) (st : conf_table * list Q)
  : result (conf_table * list Q) :=
  fold_result (fun st rh => fold_result observe (slice_from_1 rh) st) rhs st.
End Fingerprint.

(* ================================================================== *)
(** ** Vocabulary of the statements *)
(* ================================================================== *)

(** The first value stored in a fidelity mapping. *)
Definition first_fidelity (r : Traj.record) : Q :=
  match Traj.fidelity r with
  | [] => 0
  | (_, v) :: _ => v
  end.

(** The row that a record of seed [id] becomes. *)
Definition row_of (key : string) (y_best : Q) (y_max : option Q) (id : nat)
  (r : Traj.record) : DF.row :=
  {| DF.optimizer := key;
     DF.id := id;
     DF.total_time_used := Traj.total_time_used r;
     DF.total_objective_costs := Traj.total_objective_costs r;
     DF.function_values :=
       Fin ((Traj.function_value r - y_best) / normalizer y_best y_max);
     DF.fidel_values := Fin (first_fidelity r);
     DF.costs := Traj.cost r;
     DF.start_time := Traj.start_time r;
     DF.finish_time := Traj.finish_time r |}.

Fixpoint normalised_rows (key : string) (y_best : Q) (y_max : option Q)
  (id : nat) (trajs : list trajectory) : list DF.row :=
  match trajs with
  | [] => []
  | traj :: rest =>
      map (row_of key y_best y_max id) (slice_from_1 traj)
        ++ normalised_rows key y_best y_max (S id) rest
  end.

(** [row] carries the raw counters of [record] for seed [id] of [key]. *)
Definition copies_record (key : string) (id : nat) (record : Traj.record)
  (row : DF.row) : Prop :=
  DF.optimizer row = key
  /\ DF.id row = id
  /\ DF.total_time_used row = Traj.total_time_used record
  /\ DF.total_objective_costs row = Traj.total_objective_costs record
  /\ DF.costs row = Traj.cost record
  /\ DF.start_time row = Traj.start_time record
  /\ DF.finish_time row = Traj.finish_time record.

(** Every record after the header has a non-empty fidelity mapping. *)
Definition fidelities_present (trajs : list trajectory) : Prop :=
  forall traj r, In traj trajs -> In r (slice_from_1 traj) ->
                 Traj.fidelity r <> [].

(** The column lists have one common length. *)
Definition aligned (d : Cols.columns) : Prop :=
  same_length (length (Cols.optimizer d)) d = true.






(** Items in ascending order of their keys. *)
Definition key_le (a b : string * scalar) : Prop :=
  String.leb (fst a) (fst b) = true.

(** [a] is an initial segment of [b]. *)
Definition prefix {A : Type} (a b : list A) : Prop := exists c, b = a ++ c.

(** Rows ordered by [total_time_used]. *)
Definition time_le (a b : nat * DF.row) : Prop :=
  DF.total_time_used (snd a) <= DF.total_time_used (snd b).

(* ================================================================== *)
(** ** Sample run histories *)
(* ================================================================== *)

Definition mk_record (fidelity : dict string Q) (function_value t : Q)
  : Traj.record :=
  {| Traj.configuration := [];
     Traj.fidelity := fidelity;
     Traj.function_value := function_value;
     Traj.cost := 1;
     Traj.total_objective_costs := t;
     Traj.total_time_used := t;
     Traj.start_time := t - 1;
     Traj.finish_time := t |}.

(** The entry at position 0 of a run history; none of its keys is read. *)
Definition header : Traj.record := mk_record [] 0 0.

(** A run with two evaluations, at 2 s and at 5 s. *)
Definition run_a : trajectory :=
  [header; mk_record [("budget", 3)] (1 # 2) 2;
   mk_record [("budget", 9)] (1 # 4) 5].

(** A run that holds only its header. *)
Definition run_b : trajectory := [header].

(** A run with one evaluation at 7 s. *)
Definition run_c : trajectory := [header; mk_record [("budget", 9)] (3 # 4) 7].

(** A record whose fidelity mapping has two entries. *)
Definition two_fidelities : Traj.record :=
  mk_record [("budget", 3); ("subsample", 1 # 2)] (1 # 2) 2.

(** The normalised table of the optimizer [rs] with the three runs above,
    [y_best = 0] and no [y_max]. *)
Definition sample_df : frame :=
  range_index (normalised_rows "rs" 0 None 0 [run_a; run_b; run_c]).





(** Two optimizers that are given the same run, listed with
    [randomsearch] first; the benchmark has [y_max = 1] and a time limit of
    10 seconds. *)
Definition tie_unique_optimizer : dict string (list trajectory) :=
  [("randomsearch", [run_a]); ("de", [run_a])].

Definition tie_opt_list : list string := ["randomsearch"; "de"].



(** A file system without any result folder, and loaders that find
    nothing there. *)
Definition no_folder : path -> bool := fun _ => false.

Definition nothing_found : path -> string -> dict string (list trajectory) :=
  fun _ _ => [].

(** A rendering of strings and scalars for the examples. *)
Definition sample_dumps_string (s : string) : string :=
  String (ascii_of_nat 34) (String.append s (String (ascii_of_nat 34) "")).

Definition sample_dumps_scalar (v : scalar) : string :=
  match v with
  | SInt z => NilZero.string_of_int (Z.to_int z)
  | SNum q =>
      String.append (NilZero.string_of_int (Z.to_int (Qnum q)))
        (String.append "/" (NilZero.string_of_uint (Pos.to_uint (Qden q))))
  | SStr s => sample_dumps_string s
  | SBool true => "true"
  | SBool false => "false"
  | SNull => "null"
  end.

(** The same configuration written in two orders, evaluated at the
    fidelities 3 and 9. *)
Definition config_xy : dict string scalar := [("x", SInt 1); ("y", SInt 2)].
Definition config_yx : dict string scalar := [("y", SInt 2); ("x", SInt 1)].

Definition record_xy : Traj.record :=
  {| Traj.configuration := config_xy; Traj.fidelity := [("budget", 3)];
     Traj.function_value := 1 # 2; Traj.cost := 1;
     Traj.total_objective_costs := 1; Traj.total_time_used := 1;
     Traj.start_time := 0; Traj.finish_time := 1 |}.

Definition record_yx : Traj.record :=
  {| Traj.configuration := config_yx; Traj.fidelity := [("budget", 9)];
     Traj.function_value := 1 # 4; Traj.cost := 1;
     Traj.total_objective_costs := 2; Traj.total_time_used := 2;
     Traj.start_time := 1; Traj.finish_time := 2 |}.

(* ================================================================== *)
(** ** Vocabulary of the further statements *)
(* ================================================================== *)

(** The cell of a Series at a label; a missing label reads as [NaN]. *)
Definition cell (k : string) (s : series) : fval :=
  match dict_get String.eqb k s with
  | Some v => v
  | None => NaN
  end.





(* ================================================================== *)
(** ** The selection of [save_median_table_tabular_expanded] *)
(* ================================================================== *)

(** [a == b] on cells; [NaN] is equal to nothing. *)
Definition feq (a b : fval) : bool :=
  match a, b with
  | Fin p, Fin q => Qeq_bool p q
  | PInf, PInf => true
  | _, _ => false
  end.

(** The smaller of two cells, skipping [NaN]. *)
Definition fmin (a b : fval) : fval :=
  match a, b with
  | NaN, x => x
  | x, NaN => x
  | PInf, x => x
  | x, PInf => x
  | Fin p, Fin q => if Qle_bool p q then Fin p else Fin q
  end.

(** [Series.min()]: [NaN] cells are skipped; an empty row gives [NaN]. *)
Definition series_min (l : list fval) : fval := fold_left fmin l NaN.

(** A cell of a row while it is being rendered: still a number, or
    already its text. *)
Inductive entry : Type :=
| Number (v : fval)
| Text (s : string).

Section Expanded.
(** ["%.2e" % val] and ["%.3g" % np.round(val, 3)]. *)
Variable format_e : fval -> string.
Variable format_g : fval -> string.

(** Lines 433-436. *)
Definition render (val : fval) : string :=
  if flt val (Fin (1 # 1000)) then format_e val else format_g val.

(** Lines 404-405. *)
Definition best_opts (result_df : series) : list string :=
  map fst
      (filter (fun kv => feq (snd kv) (series_min (map snd result_df)))
              result_df).

(** Lines 430-444, one optimizer. A label that occurs twice makes
    [result_df[opt]] a Series, whose truth value raises [ValueError]; a
    label is read before its text is stored, so the number is taken from
    the row as it was. *)
Definition render_step (result_df : series) (out : dict string entry)
  (opt : string) : result (dict string entry) :=
  if (1 <? count_occ string_dec (keys result_df) opt)%nat
  then Raise ValueError
  else match dict_get String.eqb opt result_df with
       | None => Raise KeyError
       | Some val =>
           let s := render val in
           let s :=
             if existsb (String.eqb opt) (best_opts result_df)
             then textbf s else s in
           Ok (dict_set String.eqb opt (Text s) out)
       end.

(** Lines 398-446 for one row of the collated table. *)
Definition render_row (result_df : series) : result (dict string entry) :=
  fold_result (render_step result_df) (opt_keys result_df)
    (map (fun kv => (fst kv, Number (snd kv))) result_df).
End Expanded.

(** A row in which the first two optimizers tie at the minimum. *)
Definition tied_row : series :=
  [("randomsearch", Fin (1 # 4)); ("de", Fin (1 # 4));
   ("smac_bo", Fin (1 # 2))].

(** The expected text of a cell of [result_df]. *)
Definition rendered (format_e format_g : fval -> string) (result_df : series)
  (kv : string * fval) : string :=
  if feq (snd kv) (series_min (map snd result_df))
  then textbf (render format_e format_g (snd kv))
  else render format_e format_g (snd kv).

(** The row in which the labels [done] have been rendered by [G]. *)
Definition partly_rendered (G : string * fval -> string) (l : series)
  (done : list string) : dict string entry :=
  map (fun kv =>
         (fst kv,
          if existsb (String.eqb (fst kv)) done
          then Text (G kv) else Number (snd kv)))
      l.

(* ================================================================== *)
(** ** The series computed by [plot_ecdf] and [plot_overhead] *)
(* ================================================================== *)

(** [ecdf] of [plot_ecdf], lines 122-125: the sorted sample and the
    heights 1/n, 2/n, ..., n/n. *)
Definition ecdf (x : list Q) : list Q * list Q :=
  let xs := sort Qle_bool x in
  let ys :=
    map (fun i => inject_Z (Z.of_nat i) / inject_Z (Z.of_nat (length xs)))
        (seq 1 (length xs)) in
  (xs, ys).

(** [Series.shift(1)]: every value moves one row down, the first cell
    becomes [NaN] (here [None]) and the last value is dropped. *)
Fixpoint shift_from (prev : option Q) (l : list Q) : list (option Q) :=
  match l with
  | [] => []
  | x :: l' => prev :: shift_from (Some x) l'
  end.

Definition shift1 (l : list Q) : list (option Q) := shift_from None l.

(** [a - b] on two columns of one frame, cell by cell. *)
Fixpoint sub_cells (a : list Q) (b : list (option Q)) : list (option Q) :=
  match a, b with
  | x :: a', Some y :: b' => Some (x - y) :: sub_cells a' b'
  | _ :: a', None :: b' => None :: sub_cells a' b'
  | _, _ => []
  end.

(** [np.cumsum] of a Series: the running sum; a [NaN] cell stays [NaN] and
    does not enter the sum. *)
Fixpoint cumsum_from (acc : Q) (l : list (option Q)) : list (option Q) :=
  match l with
  | [] => []
  | None :: l' => None :: cumsum_from acc l'
  | Some x :: l' => Some (acc + x) :: cumsum_from (acc + x) l'
  end.

Definition np_cumsum (l : list (option Q)) : list (option Q) :=
  cumsum_from 0 l.

(** [start.iloc[0]] *)
Definition iloc0 (l : list Q) : result Q := index0 l.

(** Lines 86-96 of [plot_overhead] for the rows of one seed: the three
    plotted series [benchmark_cost], [overhead] and [overall_cost]. *)
Definition overhead_series (df : list DF.row)
  : result (list (option Q) * list (option Q) * list (option Q)) :=
  let start := map DF.start_time df in
  let finish := map DF.finish_time df in
  let benchmark_cost := np_cumsum (sub_cells finish (map Some start)) in
  let overhead := np_cumsum (sub_cells start (shift1 finish)) in
  start0 <- iloc0 start ;;
  let overall_cost :=
    np_cumsum (sub_cells finish (map (fun _ => Some start0) finish)) in
  Ok (benchmark_cost, overhead, overall_cost).

(* ================================================================== *)
(** ** The trajectory written by [generate_trajectory] *)
(* ================================================================== *)

Module Dragonfly.
(** A Python float: a finite number, one of the two infinities, or NaN. *)
Inductive float : Type :=
| Num (q : Q)
| PosInf
| NegInf
| Nan.

(** [-x] *)
Definition neg (x : float) : float :=
  match x with
  | Num q => Num (- q)
  | PosInf => NegInf
  | NegInf => PosInf
  | Nan => Nan
  end.

(** [x < y]; every comparison with NaN is false. *)
Definition lt (x y : float) : bool :=
  match x, y with
  | Nan, _ => false
  | _, Nan => false
  | _, NegInf => false
  | NegInf, _ => true
  | PosInf, _ => false
  | Num _, PosInf => true
  | Num a, Num b => Qgt_bool b a
  end.

(** [x <= y]; every comparison with NaN is false. *)
Definition le (x y : float) : bool :=
  match x, y with
  | Nan, _ => false
  | _, Nan => false
  | NegInf, _ => true
  | _, PosInf => true
  | _, NegInf => false
  | PosInf, _ => false
  | Num a, Num b => Qle_bool a b
  end.

Section Trajectory.
(** The type of [qinfo.point], the type of its JSON form, and the
    conversion [[list(pt) for pt in point] if is_cp else list(point)]. *)
Variables point json_point : Type.
Variable to_lists : bool -> point -> json_point.

(** One query of the history; [curr_acq] is [None] when the attribute is
    absent. *)
Record qinfo : Type := {
  val : float;
  receive_time : float;
  step_idx : nat;
  qpoint : point;
  curr_acq : option string
}.

(** One entry of the trajectory. *)
Record entry : Type := {
  cpu_time : float;
  wallclock_time : float;
  evaluations : nat;
  cost : float;
  incumbent : option json_point;
  origin : string
}.

(** The incumbent before any query, lines 352-359. *)
Definition initial : entry :=
  {| cpu_time := Num 0; wallclock_time := Num 0; evaluations := 0;
     cost := PosInf; incumbent := None; origin := "xxx" |}.

(** The dictionary built from a query, lines 370-377 and 385-392. *)
Definition entry_of (is_cp : bool) (q : qinfo) : entry :=
  {| cpu_time := receive_time q;
     wallclock_time := receive_time q;
     evaluations := step_idx q;
     cost := neg (val q);
     incumbent := Some (to_lists is_cp (qpoint q));
     origin := match curr_acq q with
               | None => "xxx"
               | Some a => a
               end |}.

(** The variables of the loop: [trajectories], [incumbent], [update] and
    [recorded_history]. *)
Record state : Type := {
  trajectories : list entry;
  current : entry;
  update : bool;
  recorded_history : list entry
}.

(** The body of the loop over [history.query_qinfos], lines 362-392. *)
Definition step (is_cp save_history : bool) (st : state) (q : qinfo)
  : state :=
  let improved := lt (neg (val q)) (cost (current st)) in
  let incumbent := if improved then entry_of is_cp q else current st in
  let update := if improved then true else update st in
  let append :=
    match trajectories st with
    | [] => true
    | _ => update
    end in
  {| trajectories :=
       if append then trajectories st ++ [incumbent] else trajectories st;
     current := incumbent;
     update := if append then false else update;
     recorded_history :=
       if save_history
       then recorded_history st ++ [entry_of is_cp q]
       else recorded_history st |}.

(** What is written: the entries of [save_file] and, when a history file
    was named, the entries of that file. *)
Definition generate_trajectory (qinfos : list qinfo) (is_cp : bool)
  (history_file : option path) : list entry * option (list entry) :=
  let save_history :=
    match history_file with
    | Some _ => true
    | None => false
    end in
  let st :=
    fold_left (step is_cp save_history) qinfos
      {| trajectories := []; current := initial; update := false;
         recorded_history := [] |} in
  (trajectories st,
   if save_history then Some (recorded_history st) else None).

(** The queries whose cost is strictly below [best] and below the cost of
    every query before them. *)
Fixpoint records (best : float) (qinfos : list qinfo) : list qinfo :=
  match qinfos with
  | [] => []
  | q :: rest =>
      if lt (neg (val q)) best
      then q :: records (neg (val q)) rest
      else records best rest
  end.

(** The entry that opens the trajectory when the first query does not
    improve on the initial incumbent. *)
Definition placeholder (qinfos : list qinfo) : list entry :=
  match qinfos with
  | [] => []
  | q :: _ => if lt (neg (val q)) PosInf then [] else [initial]
  end.

(** Entries of a trajectory in strictly descending order of cost. *)
Definition cheaper (a b : entry) : Prop := lt (cost b) (cost a) = true.
End Trajectory.
End Dragonfly.

(** A history of four queries over points that are lists of numbers: the
    second query does not improve on the first, the third has no value. *)
Definition sample_query (v : Dragonfly.float) (i : nat)
  : Dragonfly.qinfo (list Q) :=
  {| Dragonfly.val := v;
     Dragonfly.receive_time := Dragonfly.Num (inject_Z (Z.of_nat i));
     Dragonfly.step_idx := i; Dragonfly.qpoint := [inject_Z (Z.of_nat i)];
     Dragonfly.curr_acq := None |}.

Definition sample_history : list (Dragonfly.qinfo (list Q)) :=
  [sample_query (Dragonfly.Num (-3)) 1; sample_query (Dragonfly.Num (-5)) 2;
   sample_query Dragonfly.Nan 3; sample_query (Dragonfly.Num (-1)) 4].

(* ================================================================== *)
(** ** The command files written by [write_cmd] *)
(* ================================================================== *)

Set Warnings "-abstract-large-number".
(** The largest number of commands of one file, lines 194-199. *)
Definition chunk_limit : nat := 10000.
Set Warnings "abstract-large-number".

(** ["%d" % ct] *)
Definition percent_d (ct : nat) : string :=
  NilZero.string_of_uint (Nat.to_uint ct).

Definition newline : string := String "010" EmptyString.

(** A file opened for writing and the text written to it. *)
Definition written_file : Type := (string * string)%type.

(** [write_cmd], lines 193-202, and its [while] loop, lines 196-199, with
    the files written in order.  [fuel] bounds the number of calls and of
    iterations; [None] says that it ran out. *)
Fixpoint write_cmd_fuel (fuel : nat) (cmd_list : list string)
  (out_fl : string) : option (list written_file) :=
  match fuel with
  | O => None
  | S fuel' =>
      if Nat.ltb chunk_limit (length cmd_list)
      then write_cmd_while fuel' 0 cmd_list out_fl
      else Some [(out_fl, String.concat newline cmd_list)]
  end
with write_cmd_while (fuel : nat) (ct : nat) (cmd_list : list string)
  (out_fl : string) : option (list written_file) :=
  match fuel with
  | O => None
  | S fuel' =>
      if Nat.ltb chunk_limit (length cmd_list)
      then
        match write_cmd_fuel fuel' (firstn chunk_limit cmd_list)
                (String.append out_fl (String.append "_" (percent_d ct)))
        with
        | None => None
        | Some first =>
            match write_cmd_while fuel' (S ct)
                    (skipn chunk_limit cmd_list) out_fl
            with
            | None => None
            | Some others => Some (first ++ others)
            end
        end
      else Some []
  end.

(** [write_cmd(cmd_list, out_fl)] with fuel for every call and iteration
    that a list of this length can cause. *)
Definition write_cmd (cmd_list : list string) (out_fl : string)
  : option (list written_file) :=
  write_cmd_fuel (S (S (length cmd_list))) cmd_list out_fl.

(** The commands of chunk [i]. *)
Definition chunk (cmd_list : list string) (i : nat) : list string :=
  firstn chunk_limit (skipn (i * chunk_limit) cmd_list).

(** The number of full chunks that are followed by at least one more
    command. *)
Definition chunks_before_tail (cmd_list : list string) : nat :=
  (length cmd_list - 1) / chunk_limit.

(** One command more than fits into one file. *)
Definition sample_cmds : list string := repeat "cmd" (S chunk_limit).

(* ================================================================== *)
(** ** The correlations of [plot_correlation] *)
(* ================================================================== *)

(** [enumerate(l)] *)
Definition enumerate {A : Type} (l : list A) : list (nat * A) :=
  combine (seq 0 (length l)) l.

(** [set(l)]: the members of [l], each value once, before the order of
    iteration is fixed. *)
Definition set_add (x : Q) (s : list Q) : list Q :=
  if existsb (Qeq_bool x) s then s else s ++ [x].

Definition py_set (l : list Q) : list Q :=
  fold_left (fun s x => set_add x s) l [].

Section Correlation.
(** The result of [scst.spearmanr], the text
    ["%.3g (%d)" % (np.round(c, 3), n)], and the order in which a set of
    fidelities is iterated. *)
Variable coefficient : Type.
Variable spearmanr : list Q -> list Q -> coefficient.
Variable format_cell : coefficient -> nat -> string.
Variable iteration_order : list Q -> list Q.

(** Equality of two keys [(f1, f2)]. *)
Definition pair_eqb (k k' : Q * Q) : bool :=
  Qeq_bool (fst k) (fst k') && Qeq_bool (snd k) (snd k').

(** Lines 195-200: the values of the configurations seen on both
    fidelities. *)
Definition common (conf_dc : conf_table) (f1 f2 : Q) : list Q * list Q :=
  fold_left
    (fun ab c =>
       match dict_get Qeq_bool f1 (snd c), dict_get Qeq_bool f2 (snd c) with
       | Some x, Some y => (fst ab ++ [x], snd ab ++ [y])
       | _, _ => ab
       end)
    conf_dc ([], []).

Definition cors_table := dict (Q * Q) (coefficient * nat).

(** Lines 192-204: [cors]. *)
Definition correlations (conf_dc : conf_table) (f_set : list Q)
  : cors_table :=
  fold_left
    (fun cors e =>
       fold_left
         (fun cors f2 =>
            let ab := common conf_dc (snd e) f2 in
            dict_set pair_eqb (snd e, f2)
              (spearmanr (fst ab) (snd ab), length (fst ab)) cors)
         (skipn (fst e + 1) f_set) cors)
    (enumerate f_set) [].

(** [cors[(f1, f2)]] *)
Definition cors_getitem (cors : cors_table) (f1 f2 : Q)
  : result (coefficient * nat) :=
  match dict_get pair_eqb (f1, f2) cors with
  | Some c => Ok c
  | None => Raise KeyError
  end.

(** Lines 209-210: the arguments of the calls of [plt.scatter]. *)
Definition scattered (f_set : list Q) (cors : cors_table)
  : result (list (list Q * list coefficient * Q)) :=
  comprehension
    (fun e =>
       ys <- comprehension
               (fun f1 => c <- cors_getitem cors (snd e) f1 ;; Ok (fst c))
               (skipn (fst e + 1) f_set) ;;
       Ok (skipn (fst e + 1) f_set, ys, snd e))
    (enumerate f_set).

(** [df[f1].append(cell)] on a [defaultdict(list)]. *)
Definition append_cell (f1 : Q) (cell : string) (df : dict Q (list string))
  : dict Q (list string) :=
  match dict_get Qeq_bool f1 df with
  | Some column => dict_set Qeq_bool f1 (column ++ [cell]) df
  | None => dict_set Qeq_bool f1 [cell] df
  end.

(** Lines 218-224: the columns of the table. *)
Definition correlation_columns (f_set : list Q) (cors : cors_table)
  : result (dict Q (list string)) :=
  fold_result
    (fun df e1 =>
       fold_result
         (fun df e2 =>
            if Nat.leb (fst e2) (fst e1)
            then Ok (append_cell (snd e1) "-" df)
            else
              c <- cors_getitem cors (snd e1) (snd e2) ;;
              Ok (append_cell (snd e1) (format_cell (fst c) (snd c)) df))
         (enumerate f_set) df)
    (enumerate (removelast f_set)) [].

(** [pd.DataFrame(df, index=f_set)]: every column must be as long as the
    index. *)
Definition indexed_frame (df : dict Q (list string)) (f_set : list Q)
  : result (dict Q (list string) * list Q) :=
  if forallb (fun column => Nat.eqb (length (snd column)) (length f_set)) df
  then Ok (df, f_set)
  else Raise ValueError.

(** Lines 189-225 of [plot_correlation]: from the table [conf_dc] and the
    list of the fidelities seen to the calls of [plt.scatter] and the
    frame that is written as a table. *)
Definition correlation_table (conf_dc : conf_table) (f_list : list Q)
  : result (list (list Q * list coefficient * Q)
            * (dict Q (list string) * list Q)) :=
  let f_set := iteration_order (py_set f_list) in
  let cors := correlations conf_dc f_set in
  points <- scattered f_set cors ;;
  df <- correlation_columns f_set cors ;;
  frame <- indexed_frame df f_set ;;
  Ok (points, frame).

(** The entry of [cors] for two fidelities. *)
Definition correlation_of (conf_dc : conf_table) (f1 f2 : Q)
  : coefficient * nat :=
  let ab := common conf_dc f1 f2 in
  (spearmanr (fst ab) (snd ab), length (fst ab)).
End Correlation.

(** Two configurations, the first seen on the fidelities 1 and 2, the
    second on the fidelity 2 only. *)
Definition sample_conf_dc : conf_table :=
  [("a", [(1, 1 # 2); (2, 1 # 4)]); ("b", [(2, 1 # 8)])].

(* ================================================================== *)
(** ** Vocabulary for the tables of one benchmark *)
(* ================================================================== *)

(** The rows of a result frame; the fresh [pd.DataFrame()] has none. *)
Definition result_rows (result_df : option frame) : list DF.row :=
  match result_df with
  | None => []
  | Some df => rows df
  end.

(** The runs that have a record after their header. *)
Definition evaluated_runs (trajs : list trajectory) : list trajectory :=
  filter (fun traj =>
            match slice_from_1 traj with
            | [] => false
            | _ => true
            end)
    trajs.

(** The plotting dictionary with a normalising maximum for one
    benchmark. *)
Definition sample_plot_dc : dict string (dict string Q) :=
  [("bench", [("y_max", 1)])].

(* ================================================================== *)
(** ** The translation of hyperparameters for dragonfly *)
(* ================================================================== *)

Module Hyper.
(** The exceptions raised by the handlers: those of [exn] and two more. *)
Inductive error : Set :=
| Builtin (e : exn)
| TypeError
| RuntimeError.

Definition res (A : Type) : Type := (error + A)%type.

Definition of_result {A : Type} (r : result A) : res A :=
  match r with
  | Ok a => inr a
  | Raise e => inl (Builtin e)
  end.

(** A Python number: an [int] or a [float]. *)
Inductive number : Type :=
| Int (z : Z)
| Float (q : Q).

Definition to_Q (x : number) : Q :=
  match x with
  | Int z => inject_Z z
  | Float q => q
  end.

(** [int(x)]: a float is truncated towards zero. *)
Definition int (x : number) : Z :=
  match x with
  | Int z => z
  | Float q => Z.quot (Qnum q) (Zpos (Qden q))
  end.

(** [a == b] on two lists. *)
Fixpoint list_eqb {A : Type} (eqb : A -> A -> bool) (a b : list A) : bool :=
  match a, b with
  | [], [] => true
  | x :: a', y :: b' => eqb x y && list_eqb eqb a' b'
  | _, _ => false
  end.

Section Handlers.
(** The items of categorical and ordinal hyperparameters with their [==],
    and [math.log] and [math.exp], which may raise. *)
Variable value : Type.
Variable value_eqb : value -> value -> bool.
Variable math_log : Q -> res Q.
Variable math_exp : Q -> res Q.

(** The attribute [choices] or [sequence]: a list or tuple, or an object
    of another type. *)
Inductive pyobj : Type :=
| Sequence (l : list value)
| Other.

(** The classes of hyperparameters; [Constant] has no handler. *)
Inductive hyperparameter : Type :=
| UniformFloatHyperparameter (name : string) (lower upper default_value : Q)
    (log : bool)
| UniformIntegerHyperparameter (name : string)
    (lower upper default_value : Z) (log : bool)
| CategoricalHyperparameter (name : string) (choices : pyobj)
    (probabilities : option (list Q)) (default_value : value)
| OrdinalHyperparameter (name : string) (sequence : pyobj)
    (default_value : value)
| Constant (name : string) (v : value).

Definition name_of (param : hyperparameter) : string :=
  match param with
  | UniformFloatHyperparameter name _ _ _ _ => name
  | UniformIntegerHyperparameter name _ _ _ _ => name
  | CategoricalHyperparameter name _ _ _ => name
  | OrdinalHyperparameter name _ _ => name
  | Constant name _ => name
  end.

(** The dictionary [domain]: with the keys [name], [type], [min], [max],
    or with the keys [name], [type], [items]. *)
Inductive domain : Type :=
| Bounded (name type : string) (min max : number)
| Items (name type items : string).

(** What a parser returns: a number or an item. *)
Inductive parsed : Type :=
| PNumber (x : number)
| PItem (v : value).

(** The tuple [domain, parser, cost, default] of a handler. *)
Definition handled : Type :=
  (domain * (number -> res parsed) * (number -> res Q) * number)%type.

(** [tuple.index(x)]: the first position whose item equals [x]. *)
Fixpoint tuple_index (l : list value) (x : value) : option nat :=
  match l with
  | [] => None
  | y :: l' =>
      if value_eqb y x then Some O
      else match tuple_index l' x with
           | Some i => Some (S i)
           | None => None
           end
  end.

(** The cost of the two uniform handlers, lines 158 and 182. *)
Definition uniform_cost (min max x : number) : res Q :=
  of_result (py_div (to_Q x - to_Q min) (to_Q max - to_Q min)).

(** Lines 139-160. *)
Definition _handle_uniform_float (name : string)
  (lower upper default_value : Q) (log : bool) : res handled :=
  if log
  then
    match math_log lower with
    | inl e => inl e
    | inr min =>
        match math_log upper with
        | inl e => inl e
        | inr max =>
            match math_log default_value with
            | inl e => inl e
            | inr default =>
                inr (Bounded name "float" (Float min) (Float max),
                     fun x =>
                       match math_exp (to_Q x) with
                       | inl e => inl e
                       | inr y => inr (PNumber (Float y))
                       end,
                     uniform_cost (Float min) (Float max),
                     Float default)
            end
        end
    end
  else
    inr (Bounded name "float" (Float lower) (Float upper),
         fun x => inr (PNumber (Float (to_Q x))),
         uniform_cost (Float lower) (Float upper),
         Float default_value).

(** Lines 163-184. *)
Definition _handle_uniform_int (name : string)
  (lower upper default_value : Z) (log : bool) : res handled :=
  if log
  then
    match math_log (inject_Z lower) with
    | inl e => inl e
    | inr min =>
        match math_log (inject_Z upper) with
        | inl e => inl e
        | inr max =>
            match math_log (inject_Z default_value) with
            | inl e => inl e
            | inr default =>
                inr (Bounded name "int" (Int (Qfloor min)) (Int (Qfloor max)),
                     fun x =>
                       match math_exp (to_Q x) with
                       | inl e => inl e
                       | inr y => inr (PNumber (Int (int (Float y))))
                       end,
                     uniform_cost (Int (Qfloor min)) (Int (Qfloor max)),
                     Int (Qfloor default))
            end
        end
    end
  else
    inr (Bounded name "int" (Int lower) (Int upper),
         fun x => inr (PNumber (Int (int x))),
         uniform_cost (Int lower) (Int upper),
         Int default_value).

(** Lines 241-243: [probabilities[:-1] == probabilities[1:]]. *)
Definition uniform_weights (probabilities : option (list Q)) : bool :=
  match probabilities with
  | None => true
  | Some p => list_eqb Qeq_bool (removelast p) (tl p)
  end.

(** Lines 228-257. *)
Definition _handle_categorical (name : string) (choices : pyobj)
  (probabilities : option (list Q)) (default_value : value) : res handled :=
  match choices with
  | Other => inl TypeError
  | Sequence choices =>
      if negb (uniform_weights probabilities)
      then inl (Builtin ValueError)
      else
        let n := length choices in
        match tuple_index choices default_value with
        | None => inl (Builtin ValueError)
        | Some default =>
            inr (Items name "discrete"
                   (String.concat "-" (map percent_d (seq 0 n))),
                 fun x =>
                   match py_getitem choices (int x) with
                   | Ok v => inr (PItem v)
                   | Raise e => inl (Builtin e)
                   end,
                 fun _ => of_result (py_div 1 (inject_Z (Z.of_nat n))),
                 Int (Z.of_nat default))
        end
  end.

(** Lines 260-287. *)
Definition _handle_ordinal (name : string) (sequence : pyobj)
  (default_value : value) : res handled :=
  match sequence with
  | Other => inl TypeError
  | Sequence sequence =>
      let n := (Z.of_nat (length sequence) - 1)%Z in
      match tuple_index sequence default_value with
      | None => inl (Builtin ValueError)
      | Some default =>
          inr (Bounded name "int" (Int 0) (Int n),
               fun x =>
                 match x with
                 | Int z =>
                     match py_getitem sequence z with
                     | Ok v => inr (PItem v)
                     | Raise e => inl (Builtin e)
                     end
                 | Float _ => inl TypeError
                 end,
               fun x => of_result (py_div (to_Q x) (inject_Z n)),
               Int (Z.of_nat default))
      end
  end.

(** [_handlers.get(type(param), _handler_unknown)(param)], lines 135-136
    and 290-304. *)
Definition handle (param : hyperparameter) : res handled :=
  match param with
  | UniformFloatHyperparameter name lower upper default_value log =>
      _handle_uniform_float name lower upper default_value log
  | UniformIntegerHyperparameter name lower upper default_value log =>
      _handle_uniform_int name lower upper default_value log
  | CategoricalHyperparameter name choices probabilities default_value =>
      _handle_categorical name choices probabilities default_value
  | OrdinalHyperparameter name sequence default_value =>
      _handle_ordinal name sequence default_value
  | Constant _ _ => inl RuntimeError
  end.

(** The four results of [_configspace_to_dragonfly]. *)
Record translated : Type := {
  dragonfly_dict : dict string domain;
  parsers : list (string * (number -> res parsed));
  costs : list (number -> res Q);
  defaults : list number
}.

(** Lines 298-311. *)
Fixpoint translate_from (acc : translated) (params : list hyperparameter)
  : res translated :=
  match params with
  | [] => inr acc
  | param :: rest =>
      match handle param with
      | inl e => inl e
      | inr (d, p, c, default) =>
          translate_from
            {| dragonfly_dict :=
                 dict_set String.eqb (name_of param) d (dragonfly_dict acc);
               parsers := parsers acc ++ [(name_of param, p)];
               costs := costs acc ++ [c];
               defaults := defaults acc ++ [default] |}
            rest
      end
  end.

Definition _configspace_to_dragonfly (params : list hyperparameter)
  : res translated :=
  translate_from
    {| dragonfly_dict := []; parsers := []; costs := []; defaults := [] |}
    params.
End Handlers.
End Hyper.

(** The uniform hyperparameters. *)
Definition is_uniform {value : Type} (param : Hyper.hyperparameter value)
  : bool :=
  match param with
  | Hyper.UniformFloatHyperparameter _ _ _ _ _ _ => true
  | Hyper.UniformIntegerHyperparameter _ _ _ _ _ _ => true
  | _ => false
  end.

(** A stand-in for [math.log] and [math.exp] that maps every number
    to 1. *)
Definition sample_math (q : Q) : Hyper.res Q := inr 1.

(** A configuration space with an integer on a log scale, a categorical
    and an ordinal hyperparameter. *)
Definition sample_space : list (Hyper.hyperparameter string) :=
  [Hyper.UniformIntegerHyperparameter string "depth" 3 5 4 true;
   Hyper.CategoricalHyperparameter "kernel" (Hyper.Sequence ["rbf"; "poly"])
     None "poly";
   Hyper.OrdinalHyperparameter "size" (Hyper.Sequence ["s"; "m"; "l"]) "m"].

(** The hyperparameters sampled on a log scale. *)
Definition on_log_scale {value : Type} (param : Hyper.hyperparameter value)
  : bool :=
  match param with
  | Hyper.UniformFloatHyperparameter _ _ _ _ _ log => log
  | Hyper.UniformIntegerHyperparameter _ _ _ _ _ log => log
  | _ => false
  end.

(** The components of the tuple that a handler returns. *)
Definition domain_of {value : Type} (h : Hyper.handled value)
  : Hyper.domain := fst (fst (fst h)).

Definition parser_of {value : Type} (h : Hyper.handled value)
  : Hyper.number -> Hyper.res (Hyper.parsed value) := snd (fst (fst h)).

Definition cost_of {value : Type} (h : Hyper.handled value)
  : Hyper.number -> Hyper.res Q := snd (fst h).

Definition default_of {value : Type} (h : Hyper.handled value)
  : Hyper.number := snd h.

(** A configuration space whose second hyperparameter is a constant. *)
Definition space_with_constant : list (Hyper.hyperparameter string) :=
  [Hyper.OrdinalHyperparameter "size" (Hyper.Sequence ["s"; "m"; "l"]) "m";
   Hyper.Constant "seed" "0";
   Hyper.CategoricalHyperparameter "kernel" (Hyper.Other string) None "rbf"].

(* ================================================================== *)
(** ** The command lists of [create_cmd.py] *)
(* ================================================================== *)

Module CreateCmd.
(** ["%d" % z] and [str(z)] for an integer. *)
Definition str (z : Z) : string := NilZero.string_of_int (Z.to_int z).

(** [s0 + s1 + ...] *)
Definition cat (l : list string) : string := String.concat EmptyString l.

(** Lines 18-29. *)
Definition paper_tasks : list Z :=
  [10101; 53; 146818; 146821; 9952; 146822; 31; 3917; 168912; 3; 167119;
   12; 146212; 168911; 9981; 167120; 14965; 146606; 7592; 9977]%Z.

Definition all_task_ids_by_in_mem_size : list Z := paper_tasks.

Definition ntasks_done (model : string) : nat :=
  if String.eqb model "svm" then 29
  else if String.eqb model "lr" then 29
  else if String.eqb model "rf" then 28
  else if String.eqb model "xgb" then 22
  else 8.

(** ["{}_{}".format(model, tid)] over the first [ntasks_done[model]]
    tasks, with the suffix of the raw benchmarks. *)
Definition tabular (model suffix : string) : list string :=
  map (fun tid => cat [model; "_"; str tid; suffix])
    (firstn (ntasks_done model) all_task_ids_by_in_mem_size).

(** Lines 31-108. *)
Definition expset_dc : dict string (list string) :=
  [("NAS201", ["Cifar10ValidNasBench201Benchmark";
               "Cifar100NasBench201Benchmark";
               "ImageNetNasBench201Benchmark"]);
   ("NAS101", ["NASCifar10ABenchmark"; "NASCifar10BBenchmark";
               "NASCifar10CBenchmark"]);
   ("NASTAB", ["SliceLocalizationBenchmark"; "ProteinStructureBenchmark";
               "NavalPropulsionBenchmark";
               "ParkinsonsTelemonitoringBenchmark"]);
   ("NAS1SHOT1", ["NASBench1shot1SearchSpace1Benchmark";
                  "NASBench1shot1SearchSpace2Benchmark";
                  "NASBench1shot1SearchSpace3Benchmark"]);
   ("pybnn", ["BNNOnBostonHousing"; "BNNOnProteinStructure";
              "BNNOnYearPrediction"]);
   ("rl", ["cartpolereduced"]);
   ("learna", ["metalearna"; "learna"]);
   ("paramnettime", ["ParamNetAdultOnTimeBenchmark";
                     "ParamNetHiggsOnTimeBenchmark";
                     "ParamNetLetterOnTimeBenchmark";
                     "ParamNetMnistOnTimeBenchmark";
                     "ParamNetOptdigitsOnTimeBenchmark";
                     "ParamNetPokerOnTimeBenchmark"]);
   ("paramnettimered", ["ParamNetReducedAdultOnTimeBenchmark";
                        "ParamNetReducedHiggsOnTimeBenchmark";
                        "ParamNetReducedLetterOnTimeBenchmark";
                        "ParamNetReducedMnistOnTimeBenchmark";
                        "ParamNetReducedOptdigitsOnTimeBenchmark";
                        "ParamNetReducedPokerOnTimeBenchmark"]);
   ("svmsurrogate", ["SurrogateSVMBenchmark"]);
   ("svm", ["svm"]);
   ("xgboostsub", ["xgboostsub"]);
   ("xgboostest", ["xgboostest"]);
   ("seeds", ["NASCifar10ABenchmark_fixed_seed_0";
              "NASCifar10ABenchmark_random_seed";
              "ProteinStructureBenchmark_fixed_seed_0";
              "ProteinStructureBenchmark_random_seed";
              "Cifar10ValidNasBench201Benchmark_fixed_seed_777";
              "Cifar10ValidNasBench201Benchmark_random_seed"]);
   ("tabular_svm", tabular "svm" EmptyString);
   ("tabular_lr", tabular "lr" EmptyString);
   ("tabular_nn", tabular "nn" EmptyString);
   ("tabular_xgb", tabular "xgb" EmptyString);
   ("tabular_rf", tabular "rf" EmptyString);
   ("raw_svm", tabular "svm" "_raw");
   ("raw_lr", tabular "lr" "_raw");
   ("raw_nn", tabular "nn" "_raw");
   ("raw_xgb", tabular "xgb" "_raw");
   ("raw_rf", tabular "rf" "_raw")].

(** Lines 110-124. *)
Definition opt_set : dict string (list string) :=
  [("rs", ["randomsearch"]);
   ("dehb", ["dehb"]);
   ("hpband", ["hpbandster_bohb_eta_3"; "hpbandster_hb_eta_3"]);
   ("smac", ["smac_hb_eta_3"; "smac_sf"]);
   ("dragonfly", ["dragonfly_default"]);
   ("sf", ["smac_bo"; "hpbandster_tpe"; "de"]);
   ("optuna", ["optuna_tpe_hb"; "optuna_tpe_median"]);
   ("ray", ["ray_hyperopt"; "ray_hyperopt_asha"])].

(** The exceptions of [main]: those of [exn] and two more. *)
Inductive error : Set :=
| Builtin (e : exn)
| TypeError
| OSError.

Definition res (A : Type) : Type := (error + A)%type.

Definition of_result {A : Type} (r : result A) : res A :=
  match r with
  | Ok a => inr a
  | Raise e => inl (Builtin e)
  end.

Definition bind_res {A B : Type} (m : res A) (k : A -> res B) : res B :=
  match m with
  | inl e => inl e
  | inr a => k a
  end.

Notation "x <-- m ;; k" := (bind_res m (fun x => k))
  (at level 61, m at next level, right associativity).

Fixpoint fold_res {A S : Type} (f : S -> A -> res S) (l : list A) (s : S)
  : res S :=
  match l with
  | [] => inr s
  | x :: l' => s' <-- f s x ;; fold_res f l' s'
  end.

(** The value that argparse stores for an option without [type]: the
    default if that is an [int], and otherwise the string of the command
    line. *)
Inductive int_or_str : Type :=
| Int (z : Z)
| Str (s : string).

(** The parsed command line, lines 206-217. [--nrep] has [type=int];
    [--nworker] has the default [50] and no [type]. *)
Record args : Type := {
  exp : string;
  opt : string;
  nrep : Z;
  nworker : int_or_str;
  out_run : string;
  out_eval : string;
  out_cmd : string;
  root : string
}.

(** [d[k]] *)
Definition getitem {V : Type} (d : dict string V) (k : string) : result V :=
  match dict_get String.eqb k d with
  | Some v => Ok v
  | None => Raise KeyError
  end.

(** [range(1, nrep + 1)] *)
Definition seeds (nrep : Z) : list Z :=
  map (fun i => Z.of_nat i) (seq 1 (Z.to_nat nrep)).

(** [range(n)]: a string cannot be interpreted as an integer. *)
Definition range (n : int_or_str) : res (list Z) :=
  match n with
  | Int z => inr (map (fun i => Z.of_nat i) (seq 0 (Z.to_nat z)))
  | Str _ => inl TypeError
  end.

(** [benchmark in ["svm", "xgboostsub", "xgboostest"]] *)
Definition per_task (benchmark : string) : bool :=
  existsb (String.eqb benchmark) ["svm"; "xgboostsub"; "xgboostest"].

Section Main.
(** The file system and the OpenML task ids: whether [out_cmd] is a
    folder, whether [os.mkdir] makes it (it raises an [OSError] if it does
    not), and the list that [get_openmlcc18_taskids()] returns. *)
Variable isdir : string -> bool.
Variable mkdir : string -> bool.
Variable get_openmlcc18_taskids : list Z.

Definition base (a : args) : string :=
  cat ["python "; root a; "/HPOBenchExperimentUtils"].

(** Lines 150-160: the commands of one benchmark and optimizer. *)
Definition run_cmds (a : args) (benchmark optimizer : string)
  : list string :=
  flat_map
    (fun seed =>
       if per_task benchmark
       then
         map (fun tid =>
                cat [base a; "/run_benchmark.py --output_dir "; out_run a;
                     " --optimizer "; optimizer; " --benchmark "; benchmark;
                     " --rng "; str seed; " --task_id "; str tid])
           get_openmlcc18_taskids
       else
         [cat [base a; "/run_benchmark.py --output_dir "; out_run a;
               " --optimizer "; optimizer; " --benchmark "; benchmark;
               " --rng "; str seed]])
    (seeds (nrep a)).

(** The four lists [run_cmd], [eval_cmd], [evalu_cmd] and [val_cmd]. *)
Record cmds : Type := {
  run_cmd : list string;
  eval_cmd : list string;
  evalu_cmd : list string;
  val_cmd : list string
}.

(** Lines 164-168. *)
Definition eval_all (a : args) (benchmark : string) : string :=
  cat [base a; "/evaluate_benchmark.py --output_dir "; out_eval a;
       "/ --input_dir "; out_run a; "/ --benchmark "; benchmark;
       " --agg median --what all"].

(** Lines 172-176. *)
Definition eval_rank (a : args) : string :=
  cat [base a; "/evaluate_benchmark.py --output_dir "; out_eval a;
       "/ --input_dir "; out_run a; "/ --agg median --rank "; exp a].

(** Lines 178-180. *)
Definition scheduler_cmd (a : args) (benchmark : string) : string :=
  cat [base a;
       "/validate_benchmark.py start_scheduler --interface eno1";
       " --recompute_all --benchmark "; benchmark; " --output_dir ";
       out_run a; "/"; benchmark; " --run_id "; benchmark;
       " --worker_id 0"].

(** Lines 182-185. *)
Definition worker_cmd (a : args) (benchmark : string) (i : Z) : string :=
  cat ["sleep 360; "; base a;
       "/validate_benchmark.py start_worker --interface eno1";
       " --benchmark "; benchmark; " --output_dir "; out_run a;
       "/"; benchmark; " --run_id "; benchmark; " --worker_id ";
       str (i + 1)].

(** Lines 178-185: the commands added to [val_cmd]. *)
Definition val_cmds (a : args) (benchmark : string) : res (list string) :=
  workers <-- range (nworker a) ;;
  inr (scheduler_cmd a benchmark :: map (worker_cmd a benchmark) workers).

(** Lines 148-185: one benchmark. *)
Definition benchmark_cmds (a : args) (c : cmds) (benchmark : string)
  : res cmds :=
  optimizers <-- of_result (getitem opt_set (opt a)) ;;
  let run_cmd :=
    run_cmd c ++ flat_map (run_cmds a benchmark) optimizers in
  if String.eqb (opt a) "rs"
  then
    benchmarks <-- of_result (getitem expset_dc (exp a)) ;;
    last_benchmark <-- of_result (py_getitem benchmarks (-1)) ;;
    let ranked := String.eqb benchmark last_benchmark in
    validation <-- val_cmds a benchmark ;;
    inr {| run_cmd := run_cmd;
           eval_cmd :=
             eval_cmd c ++ [eval_all a benchmark]
               ++ (if ranked then [eval_rank a] else []);
           evalu_cmd :=
             evalu_cmd c
               ++ [String.append (eval_all a benchmark) " --unvalidated"]
               ++ (if ranked
                   then [String.append (eval_rank a) " --unvalidated"]
                   else []);
           val_cmd := val_cmd c ++ validation |}
  else
    inr {| run_cmd := run_cmd; eval_cmd := eval_cmd c;
           evalu_cmd := evalu_cmd c; val_cmd := val_cmd c |}.

(** The names of the four files, lines 136-139. *)
Definition val_fl (a : args) : string :=
  cat [out_cmd a; "/val_"; exp a; "_"; opt a; "_"; str (nrep a); ".cmd"].

Definition run_fl (a : args) : string :=
  cat [out_cmd a; "/run_"; exp a; "_"; opt a; "_"; str (nrep a); ".cmd"].

Definition eval_fl (a : args) : string :=
  cat [out_cmd a; "/eval_"; exp a; ".cmd"].

Definition evalu_fl (a : args) : string :=
  cat [out_cmd a; "/evalunv_"; exp a; ".cmd"].

(** Lines 128-190 of [main]: whether [os.mkdir] is called, and either the
    exception that ends lines 128-185 or the calls of [write_cmd] that
    lines 187-190 make, in order, each with its list and its file. *)
Definition main (a : args) : bool * res (list (list string * string)) :=
  let make := negb (isdir (out_cmd a)) in
  (make,
   if make && negb (mkdir (out_cmd a)) then inl OSError
   else
     benchmarks <-- of_result (getitem expset_dc (exp a)) ;;
     c <-- fold_res (benchmark_cmds a) benchmarks
             {| run_cmd := []; eval_cmd := []; evalu_cmd := [];
                val_cmd := [] |} ;;
     inr (filter (fun cf => Nat.ltb 0 (length (fst cf)))
            [(run_cmd c, run_fl a); (eval_cmd c, eval_fl a);
             (evalu_cmd c, evalu_fl a); (val_cmd c, val_fl a)])).
End Main.
End CreateCmd.

(** The number of times a benchmark is queued per optimizer and seed. *)
Definition tasks_of (get_openmlcc18_taskids : list Z) (benchmark : string)
  : nat :=
  if CreateCmd.per_task benchmark then length get_openmlcc18_taskids
  else 1%nat.

(** A command line for the experiment set [NAS101] and the optimizers of
    [rs], with two repetitions and three workers, as [main] may be called
    with it. *)
Definition sample_args : CreateCmd.args :=
  {| CreateCmd.exp := "NAS101"; CreateCmd.opt := "rs";
     CreateCmd.nrep := 2; CreateCmd.nworker := CreateCmd.Int 3;
     CreateCmd.out_run := "./exp_outputs"; CreateCmd.out_eval := "./plots";
     CreateCmd.out_cmd := "."; CreateCmd.root := "." |}.

(** The command line [--exp NAS101 --opt rs --nworker 3] as the script
    parses it: the number of workers is the string of the command line. *)
Definition parsed_args : CreateCmd.args :=
  {| CreateCmd.exp := "NAS101"; CreateCmd.opt := "rs";
     CreateCmd.nrep := 10; CreateCmd.nworker := CreateCmd.Str "3";
     CreateCmd.out_run := "./exp_outputs"; CreateCmd.out_eval := "./plots";
     CreateCmd.out_cmd := "."; CreateCmd.root := "." |}.

(* ================================================================== *)
(** ** Line 242 and the whole of [save_median_table_tabular] *)
(* ================================================================== *)

(** Line 242, [result_df.transpose.copy()]: [transpose] is not called, and
    the bound method that the attribute lookup gives has no attribute
    [copy]; the line raises [AttributeError] whatever the table holds. *)
Definition transpose_copy (result_df : series) : result series :=
  Raise AttributeError.

(** Lines 233-268: the averaged table, line 242, and the column [value]
    with the selected optimizer in bold.  Lines 243-245 rank the copy that
    line 242 was to give. *)
Definition median_table_values (format_value : fval -> string)
  (per_dataset_df : dict string table) : result (dict string string) :=
  result_df <- averaged_medians per_dataset_df ;;
  _result_df <- transpose_copy result_df ;;
  value_column format_value result_df.

Section WholeTable.
Variable files : Type.
Variable is_dir : path -> bool.
Variable load_trajectories_as_df : path -> string -> dict string files.
Variable load_json_files : files -> list trajectory.
Variable plot_dc : dict string (dict string Q).
Variable time_limit_in_s : string -> Q.
Variable format_value : fval -> string.

(** Lines 132-268 of [save_median_table_tabular]; [benchmarks] is the list
    built by lines 134-149. *)
Definition save_median_table_tabular (orig_input_dir : string)
  (unvalidated : bool) (which : string) (opt_list : option (list string))
  (thresh : Q) (benchmarks : list string) : M (dict string string) :=
  bindM
    (per_dataset_tables is_dir load_trajectories_as_df load_json_files
       plot_dc time_limit_in_s orig_input_dir unvalidated which opt_list
       thresh benchmarks)
    (fun per_dataset_df =>
       lift (median_table_values format_value per_dataset_df)).
End WholeTable.




(** The two messages of lines 201-202. *)
Definition reports_missing_runs (e : event) : bool :=
  match e with
  | Print_unique_id _ | Print_not_enough _ _ => true
  | _ => false
  end.

(** The folder of a benchmark with the three sample runs of optimizer
    [rs]. *)
Definition sample_unique_optimizer : dict string (list trajectory) :=
  [("rs", [run_a; run_b; run_c])].

(* ================================================================== *)
(** * Properties *)
(* ================================================================== *)

Unset Implicit Arguments.

(** ** Basic facts about the result monad *)

Lemma comprehension_map {A B : Type} (f : A -> result B) (g : A -> B) :
  (forall x y, f x = Ok y -> y = g x) ->
  forall l ys, comprehension f l = Ok ys -> ys = map g l.
Proof.
  intros Hfg l. induction l as [|x xs IH]; simpl; intros ys H.
  - now inversion H.
  - destruct (f x) as [y|e] eqn:Hx; simpl in H; [|discriminate].
    destruct (comprehension f xs) as [zs|e] eqn:Hxs; simpl in H;
      [|discriminate].
    inversion H; subst. f_equal; auto.
Qed.

Lemma comprehension_total {A B : Type} (f : A -> result B) (l : list A) :
  (forall x, In x l -> exists y, f x = Ok y) ->
  exists ys, comprehension f l = Ok ys.
Proof.
  induction l as [|x xs IH]; simpl; intros H.
  - now exists [].
  - destruct (H x (or_introl eq_refl)) as [y Hy].
    destruct IH as [ys Hys]; [intros; apply H; now right|].
    exists (y :: ys). now rewrite Hy, Hys.
Qed.

Lemma py_div_ok a b y : py_div a b = Ok y -> y = a / b.
Proof. unfold py_div. destruct (Qeq_bool b 0); congruence. Qed.

Lemma py_div_nonzero a b : ~ b == 0 -> py_div a b = Ok (a / b).
Proof.
  intros H. unfold py_div. destruct (Qeq_bool b 0) eqn:E; [|reflexivity].
  apply Qeq_bool_iff in E. contradiction.
Qed.

Lemma fidelity_value_cons r k v rest :
  Traj.fidelity r = (k, v) :: rest -> fidelity_value r = Ok v.
Proof.
  intros H. unfold fidelity_value. rewrite H. simpl.
  now rewrite String.eqb_refl.
Qed.

Lemma fidelity_value_nil r :
  Traj.fidelity r = [] -> fidelity_value r = Raise IndexError.
Proof. intros H. unfold fidelity_value. now rewrite H. Qed.

Lemma fidelity_value_first r v :
  fidelity_value r = Ok v -> v = first_fidelity r.
Proof.
  unfold first_fidelity. destruct (Traj.fidelity r) as [|[k w] rest] eqn:E.
  - rewrite (fidelity_value_nil r E). discriminate.
  - rewrite (fidelity_value_cons r _ _ _ E). congruence.
Qed.

(** ** The columns stay aligned *)

Lemma combine_app_eq {A B : Type} (l1 l1' : list A) (l2 l2' : list B) :
  length l1 = length l2 ->
  combine (l1 ++ l1') (l2 ++ l2') = combine l1 l2 ++ combine l1' l2'.
Proof.
  revert l2. induction l1 as [|x l1 IH]; intros [|y l2] H; simpl in *;
    try discriminate; [reflexivity|].
  f_equal. apply IH. congruence.
Qed.

Lemma combine_map_map {A B C : Type} (f : A -> B) (g : A -> C) (l : list A) :
  combine (map f l) (map g l) = map (fun x => (f x, g x)) l.
Proof. induction l as [|x l IH]; simpl; [reflexivity|now rewrite IH]. Qed.

Lemma map_const_seq {A B : Type} (c : B) (l : list A) (k : nat) :
  map (fun _ => c) (seq k (length l)) = map (fun _ => c) l.
Proof.
  revert k. induction l as [|x l IH]; intros k; simpl; [reflexivity|].
  now rewrite IH.
Qed.

Lemma combine_length_eq {A B : Type} (l1 : list A) (l2 : list B) :
  length l1 = length l2 -> length (combine l1 l2) = length l1.
Proof. intros H. rewrite length_combine, <- H. apply Nat.min_id. Qed.

Lemma rows_range_index l : rows (range_index l) = l.
Proof.
  unfold rows, range_index. generalize 0%nat.
  induction l as [|x l IH]; intros k; simpl; [reflexivity|].
  now rewrite IH.
Qed.

Lemma index_range_index l : index (range_index l) = seq 0 (length l).
Proof.
  unfold index, range_index. generalize 0%nat.
  induction l as [|x l IH]; intros k; simpl; [reflexivity|].
  now rewrite IH.
Qed.

Lemma aligned_iff d :
  aligned d <->
  let n := length (Cols.optimizer d) in
  length (Cols.id d) = n /\ length (Cols.total_time_used d) = n
  /\ length (Cols.total_objective_costs d) = n
  /\ length (Cols.function_values d) = n
  /\ length (Cols.fidel_values d) = n /\ length (Cols.costs d) = n
  /\ length (Cols.start_time d) = n /\ length (Cols.finish_time d) = n.
Proof.
  unfold aligned, same_length. cbv zeta.
  rewrite !andb_true_iff, !Nat.eqb_eq. tauto.
Qed.

Lemma aligned_empty : aligned Cols.empty.
Proof. reflexivity. Qed.

Ltac length_combine :=
  lazymatch goal with
  | |- _ = length (combine _ _) =>
      rewrite combine_length_eq; [congruence | length_combine]
  | |- _ => congruence
  end.

Ltac combine_step := rewrite combine_app_eq; [|length_combine].

Lemma extend_with_rows key y_best y_max id traj d d' :
  aligned d ->
  extend_with key y_best y_max id traj d = Ok d' ->
  aligned d'
  /\ zip_columns d'
     = zip_columns d ++ map (row_of key y_best y_max id) (slice_from_1 traj).
Proof.
  intros Hd H. unfold extend_with in H.
  destruct (comprehension _ (slice_from_1 traj)) as [fvs|e] eqn:Hf;
    simpl in H; [|discriminate].
  destruct (comprehension fidelity_value (slice_from_1 traj)) as [fds|e] eqn:Hg;
    simpl in H; [|discriminate].
  apply (comprehension_map _
           (fun r =>
              (Traj.function_value r - y_best) / normalizer y_best y_max))
    in Hf; [|intros x y; apply py_div_ok].
  apply (comprehension_map _ first_fidelity) in Hg;
    [|apply fidelity_value_first].
  inversion H; subst d' fvs fds; clear H.
  rewrite !map_const_seq.
  apply aligned_iff in Hd. cbv zeta in Hd.
  destruct Hd as (H1 & H2 & H3 & H4 & H5 & H6 & H7 & H8).
  split.
  - apply aligned_iff. simpl. rewrite !length_app, !length_map.
    repeat split; congruence.
  - unfold zip_columns. simpl.
    repeat combine_step.
    rewrite map_app. f_equal.
    rewrite !combine_map_map, map_map. reflexivity.
Qed.

Lemma enumerate_loop_rows key y_best y_max trajs :
  forall id d d',
    aligned d ->
    enumerate_loop key y_best y_max id trajs d = Ok d' ->
    aligned d'
    /\ zip_columns d'
       = zip_columns d ++ normalised_rows key y_best y_max id trajs.
Proof.
  induction trajs as [|traj rest IH]; simpl; intros id d d' Hd H.
  - inversion H; subst. now rewrite app_nil_r.
  - destruct (extend_with key y_best y_max id traj d) as [d1|e] eqn:E;
      simpl in H; [|discriminate].
    destruct (extend_with_rows _ _ _ _ _ _ _ Hd E) as [Hd1 Hz1].
    destruct (IH _ _ _ Hd1 H) as [Hd' Hz].
    split; [assumption|]. now rewrite Hz, Hz1, app_assoc.
Qed.

(** A successful call returns the rows of all records but the headers,
    run after run, under the labels 0, 1, 2, ... *)
Lemma df_per_optimizer_rows key trajs y_best y_max df :
  df_per_optimizer key trajs y_best y_max = Ok df ->
  df = range_index (normalised_rows key y_best y_max 0 trajs).
Proof.
  unfold df_per_optimizer. intros H.
  destruct (enumerate_loop key y_best y_max 0 trajs Cols.empty) as [d|e] eqn:E;
    simpl in H; [|discriminate].
  destruct (enumerate_loop_rows _ _ _ _ _ _ _ aligned_empty E) as [Hd Hz].
  unfold DataFrame in H. unfold aligned in Hd. rewrite Hd in H.
  inversion H. now rewrite Hz.
Qed.

Lemma extend_with_returns key y_best y_max id traj d :
  ~ normalizer y_best y_max == 0 ->
  (forall r, In r (slice_from_1 traj) -> Traj.fidelity r <> []) ->
  exists d', extend_with key y_best y_max id traj d = Ok d'.
Proof.
  intros Hn Hf. unfold extend_with.
  destruct (comprehension_total
              (fun record => py_div (Traj.function_value record - y_best)
                                    (normalizer y_best y_max))
              (slice_from_1 traj)) as [fvs ->].
  { intros x _. eexists. now apply py_div_nonzero. }
  destruct (comprehension_total fidelity_value (slice_from_1 traj)) as [fds ->].
  { intros x Hx. specialize (Hf x Hx).
    destruct (Traj.fidelity x) as [|[k v] rest] eqn:E; [contradiction|].
    exists v. now apply (fidelity_value_cons x _ _ _ E). }
  simpl. eauto.
Qed.

(** The normaliser returns a table whenever the normalising range is not
    zero and every record after a header names a fidelity. *)
Lemma df_per_optimizer_returns key trajs y_best y_max :
  ~ normalizer y_best y_max == 0 ->
  fidelities_present trajs ->
  exists df, df_per_optimizer key trajs y_best y_max = Ok df.
Proof.
  intros Hn Hf. unfold df_per_optimizer.
  assert (H : forall id d, aligned d ->
            exists d', enumerate_loop key y_best y_max id trajs d = Ok d'
                       /\ aligned d').
  { unfold fidelities_present in Hf.
    induction trajs as [|traj rest IH]; simpl; intros id d Hd; [eauto|].
    destruct (extend_with_returns key y_best y_max id traj d Hn) as [d1 E].
    { intros r Hr. apply (Hf traj); simpl; auto. }
    rewrite E. simpl.
    destruct (extend_with_rows _ _ _ _ _ _ _ Hd E) as [Hd1 _].
    apply IH; [|assumption]. intros t r Ht. apply Hf. now right. }
  destruct (H 0%nat Cols.empty aligned_empty) as [d' [E Hd']].
  rewrite E. simpl. unfold DataFrame. unfold aligned in Hd'. rewrite Hd'.
  eauto.
Qed.

(** ** Selecting the rows of one seed *)

Lemma rows_filter (p : DF.row -> bool) (df : frame) :
  rows (filter (fun lr => p (snd lr)) df) = filter p (rows df).
Proof.
  unfold rows. induction df as [|[l r] df IH]; simpl; [reflexivity|].
  destruct (p r); simpl; now rewrite IH.
Qed.

Lemma filter_id_other key y_best y_max i j (l : list Traj.record) :
  i <> j ->
  filter (fun r => (DF.id r =? i)%nat) (map (row_of key y_best y_max j) l) = [].
Proof.
  intros H. induction l as [|r l IH]; simpl; [reflexivity|].
  destruct (Nat.eqb_spec j i); [congruence|assumption].
Qed.

Lemma filter_id_same key y_best y_max i (l : list Traj.record) :
  filter (fun r => (DF.id r =? i)%nat) (map (row_of key y_best y_max i) l)
  = map (row_of key y_best y_max i) l.
Proof.
  induction l as [|r l IH]; simpl; [reflexivity|].
  now rewrite Nat.eqb_refl, IH.
Qed.

Lemma filter_id_later key y_best y_max trajs :
  forall i j, (i < j)%nat ->
    filter (fun r => (DF.id r =? i)%nat)
      (normalised_rows key y_best y_max j trajs) = [].
Proof.
  induction trajs as [|traj rest IH]; simpl; intros i j H; [reflexivity|].
  rewrite filter_app, filter_id_other by lia. simpl. apply IH. lia.
Qed.

Lemma filter_id_nth key y_best y_max trajs :
  forall k j traj,
    nth_error trajs k = Some traj ->
    filter (fun r => (DF.id r =? j + k)%nat)
      (normalised_rows key y_best y_max j trajs)
    = map (row_of key y_best y_max (j + k)) (slice_from_1 traj).
Proof.
  induction trajs as [|t rest IH]; intros [|k] j traj H; simpl in H;
    try discriminate.
  - inversion H; subst. simpl. rewrite Nat.add_0_r, filter_app.
    rewrite filter_id_same, filter_id_later by lia. apply app_nil_r.
  - simpl. rewrite filter_app, filter_id_other by lia. simpl.
    replace (j + S k)%nat with (S j + k)%nat by lia. now apply IH.
Qed.

Lemma select_id_rows key trajs y_best y_max df i traj :
  df_per_optimizer key trajs y_best y_max = Ok df ->
  nth_error trajs i = Some traj ->
  rows (select_id i df) = map (row_of key y_best y_max i) (slice_from_1 traj).
Proof.
  intros H Hi. apply df_per_optimizer_rows in H. subst df.
  unfold select_id.
  rewrite (rows_filter (fun r => (DF.id r =? i)%nat)), rows_range_index.
  now apply (filter_id_nth key y_best y_max trajs i 0%nat traj).
Qed.

Lemma Forall2_map_self {A B : Type} (R : A -> B -> Prop) (f : A -> B) l :
  (forall x, R x (f x)) -> Forall2 R l (map f l).
Proof. intros H. induction l; simpl; constructor; auto. Qed.

(** ** The normaliser drops the header of every run *)

(** C1. In the table returned by [df_per_optimizer], the rows of seed [i]
    are the records of run [i] from position 1 on, in their order and with
    their raw counters: the record at position 0 is the only one left out.
    A run [header :: rest] contributes [length rest] rows, a run holding
    only its header contributes none, and the table has as many rows as
    there are records after the headers. *)
Theorem df_per_optimizer_skips_first_record key trajs y_best y_max df :
  df_per_optimizer key trajs y_best y_max = Ok df ->
  (forall i traj,
      nth_error trajs i = Some traj ->
      Forall2 (copies_record key i) (slice_from_1 traj) (rows (select_id i df))
      /\ (forall first rest,
             traj = first :: rest ->
             length (rows (select_id i df)) = length rest)
      /\ (forall first, traj = [first] -> select_id i df = []))
  /\ length df
     = list_sum (map (fun traj => length (slice_from_1 traj)) trajs).
Proof.
  intros H. split.
  - intros i traj Hi. pose proof (select_id_rows _ _ _ _ _ _ _ H Hi) as Hr.
    split; [|split].
    + rewrite Hr. apply Forall2_map_self. intros r.
      unfold copies_record. simpl. tauto.
    + intros first rest ->. rewrite Hr. now rewrite length_map.
    + intros first ->. simpl in Hr.
      unfold rows in Hr. now apply map_eq_nil in Hr.
  - apply df_per_optimizer_rows in H. subst df.
    rewrite <- (length_map snd). fold (rows (range_index
      (normalised_rows key y_best y_max 0 trajs))).
    rewrite rows_range_index. generalize 0%nat.
    induction trajs as [|t rest IH]; intros k; simpl; [reflexivity|].
    now rewrite length_app, length_map, IH.
Qed.

Lemma df_per_optimizer_skips_first_record_witness :
  exists df,
    df_per_optimizer "rs" [run_a; run_b; run_c] 0 None = Ok df
    /\ length (rows (select_id 0 df)) = 2%nat
    /\ select_id 1 df = []
    /\ length df = 3%nat.
Proof.
  eexists. split; [reflexivity|].
  pose proof (df_per_optimizer_skips_first_record
                "rs" [run_a; run_b; run_c] 0 None _ eq_refl) as [H Hlen].
  split; [|split].
  - destruct (H 0%nat run_a eq_refl) as (_ & Hn & _).
    exact (Hn _ _ eq_refl).
  - destruct (H 1%nat run_b eq_refl) as (_ & _ & Hn).
    exact (Hn _ eq_refl).
  - exact Hlen.
Defined.

(** ** Regret *)

(** C2. Every row holds [(function_value - y_best) / normalizer] of its
    record, where [normalizer] is 1 without [y_max] and [y_max - y_best]
    with it; for [y_best = 0] and no [y_max] the stored value is the raw
    objective value. *)
Theorem function_values_formula key trajs y_best y_max df :
  df_per_optimizer key trajs y_best y_max = Ok df ->
  normalizer y_best None = 1
  /\ (forall m, normalizer y_best (Some m) = m - y_best)
  /\ (forall i traj,
         nth_error trajs i = Some traj ->
         Forall2
           (fun record row =>
              DF.function_values row
              = Fin ((Traj.function_value record - y_best)
                     / normalizer y_best y_max))
           (slice_from_1 traj) (rows (select_id i df)))
  /\ (y_best == 0 -> y_max = None ->
      forall i traj,
        nth_error trajs i = Some traj ->
        Forall2
          (fun record row =>
             exists q, DF.function_values row = Fin q
                       /\ q == Traj.function_value record)
          (slice_from_1 traj) (rows (select_id i df))).
Proof.
  intros H. split; [reflexivity|]. split; [reflexivity|]. split.
  - intros i traj Hi. rewrite (select_id_rows _ _ _ _ _ _ _ H Hi).
    apply Forall2_map_self. reflexivity.
  - intros Hy Hm i traj Hi. rewrite (select_id_rows _ _ _ _ _ _ _ H Hi).
    apply Forall2_map_self. intros r. eexists. split; [reflexivity|].
    subst y_max. simpl. rewrite Hy. field.
Qed.

Lemma function_values_formula_witness :
  exists df,
    df_per_optimizer "rs" [run_a; run_c] 0 None = Ok df
    /\ Forall2
         (fun record row =>
            exists q, DF.function_values row = Fin q
                      /\ q == Traj.function_value record)
         (slice_from_1 run_a) (rows (select_id 0 df)).
Proof.
  eexists. split; [reflexivity|].
  pose proof (function_values_formula "rs" [run_a; run_c] 0 None _ eq_refl)
    as (_ & _ & _ & H).
  exact (H (Qeq_refl 0) eq_refl 0%nat run_a eq_refl).
Defined.

(** ** Fidelity extraction *)

(** C7 (as the code has it). The fidelity of a record is read from the first
    entry of its [fidelity] mapping: the extraction raises [IndexError]
    exactly when the mapping is empty, and for a mapping with one entry or
    more it returns the value of the first entry; in particular the single
    value of a one-entry mapping. *)
Theorem fidelity_value_first_entry (r : Traj.record) :
  (Traj.fidelity r = [] <-> fidelity_value r = Raise IndexError)
  /\ (forall k v rest,
         Traj.fidelity r = (k, v) :: rest -> fidelity_value r = Ok v)
  /\ (forall k v, Traj.fidelity r = [(k, v)] -> fidelity_value r = Ok v)
  /\ (Traj.fidelity r <> [] <-> exists v, fidelity_value r = Ok v).
Proof.
  split; [|split; [|split]].
  - split; [apply fidelity_value_nil|].
    destruct (Traj.fidelity r) as [|[k v] rest] eqn:E; [reflexivity|].
    rewrite (fidelity_value_cons r _ _ _ E). discriminate.
  - intros k v rest E. exact (fidelity_value_cons r _ _ _ E).
  - intros k v E. exact (fidelity_value_cons r _ _ _ E).
  - destruct (Traj.fidelity r) as [|[k v] rest] eqn:E.
    + rewrite (fidelity_value_nil r E). split; [congruence|].
      intros [v Hv]. discriminate.
    + rewrite (fidelity_value_cons r _ _ _ E). split; [eauto|discriminate].
Qed.

(** A record with two fidelity entries is accepted, and the normaliser
    builds a row from it. *)
Lemma two_fidelities_accepted :
  length (Traj.fidelity two_fidelities) = 2%nat
  /\ fidelity_value two_fidelities = Ok 3
  /\ (exists df, df_per_optimizer "rs" [[header; two_fidelities]] 0 None = Ok df
                 /\ map DF.fidel_values (rows df) = [Fin 3])
  /\ ~ (forall r, length (Traj.fidelity r) <> 1%nat ->
                  exists e, fidelity_value r = Raise e).
Proof.
  split; [reflexivity|]. split; [reflexivity|]. split.
  - eexists. split; reflexivity.
  - intros H. destruct (H two_fidelities) as [e He]; [discriminate|].
    discriminate He.
Qed.

(** ** Sorting *)

Section SortingFacts.
Variables (A : Type) (leb : A -> A -> bool).
Hypothesis leb_total : forall a b, leb a b = true \/ leb b a = true.
Hypothesis leb_trans :
  forall a b c, leb a b = true -> leb b c = true -> leb a c = true.

Let R (a b : A) : Prop := leb a b = true.

Lemma insert_sorted_perm x l : Permutation (insert_sorted leb x l) (x :: l).
Proof.
  induction l as [|y l IH]; simpl; [reflexivity|].
  destruct (leb x y); [reflexivity|].
  rewrite IH. apply perm_swap.
Qed.

Lemma sort_perm l : Permutation (sort leb l) l.
Proof.
  induction l as [|x l IH]; simpl; [reflexivity|].
  rewrite insert_sorted_perm. now constructor.
Qed.

Lemma insert_sorted_sorted x l :
  StronglySorted R l -> StronglySorted R (insert_sorted leb x l).
Proof.
  induction 1 as [|y l Hs IH Hy]; simpl.
  - repeat constructor.
  - destruct (leb x y) eqn:E.
    + constructor; [now constructor|].
      constructor; [exact E|].
      eapply Forall_impl; [|exact Hy]. intros z Hz.
      exact (leb_trans _ _ _ E Hz).
    + constructor; [exact IH|].
      apply (Permutation_Forall (Permutation_sym (insert_sorted_perm x l))).
      constructor; [|exact Hy].
      destruct (leb_total x y) as [F|F]; [congruence|exact F].
Qed.

Lemma sort_sorted l : StronglySorted R (sort leb l).
Proof.
  induction l as [|x l IH]; simpl; [constructor|].
  now apply insert_sorted_sorted.
Qed.

End SortingFacts.

(** ** Order on times *)

Lemma Qle_bool_total a b : Qle_bool a b = true \/ Qle_bool b a = true.
Proof.
  rewrite !Qle_bool_iff. destruct (Qlt_le_dec a b) as [H|H]; [left|right].
  - now apply Qlt_le_weak.
  - exact H.
Qed.

Lemma Qle_bool_trans a b c :
  Qle_bool a b = true -> Qle_bool b c = true -> Qle_bool a c = true.
Proof. rewrite !Qle_bool_iff. apply Qle_trans. Qed.

Lemma Qgt_bool_iff a b : Qgt_bool a b = true <-> b < a.
Proof.
  unfold Qgt_bool. rewrite negb_true_iff. split; intros H.
  - apply Qnot_le_lt. intros F. apply Qle_bool_iff in F. congruence.
  - destruct (Qle_bool a b) eqn:E; [|reflexivity].
    apply Qle_bool_iff in E. exfalso. exact (Qlt_not_le _ _ H E).
Qed.

Lemma Qgt_bool_negb a b : negb (Qgt_bool a b) = Qle_bool a b.
Proof. unfold Qgt_bool. apply negb_involutive. Qed.

Lemma sort_values_perm df : Permutation (sort_values df) df.
Proof. apply sort_perm. Qed.

Lemma sort_values_sorted df : StronglySorted time_le (sort_values df).
Proof.
  unfold sort_values.
  eapply StronglySorted_ind with
    (P := fun l => StronglySorted time_le l);
    [constructor| |apply (sort_sorted _ by_time)].
  - intros a l _ IH Ha. constructor; [exact IH|].
    eapply Forall_impl; [|exact Ha]. intros b Hb.
    unfold time_le. now apply Qle_bool_iff.
  - intros a b. apply Qle_bool_total.
  - intros a b c. apply Qle_bool_trans.
Qed.

(** ** Dropping by label is filtering by time *)

Lemma NoDup_fst_injective {A B : Type} (l : list (A * B)) a b b' :
  NoDup (map fst l) -> In (a, b) l -> In (a, b') l -> b = b'.
Proof.
  induction l as [|[x y] l IH]; simpl; intros Hn H1 H2; [contradiction|].
  inversion Hn as [|? ? Hx Hn']; subst.
  destruct H1 as [H1|H1], H2 as [H2|H2].
  - congruence.
  - inversion H1; subst. exfalso. apply Hx.
    apply (in_map fst) in H2. exact H2.
  - inversion H2; subst. exfalso. apply Hx.
    apply (in_map fst) in H1. exact H1.
  - now apply IH.
Qed.

Lemma drop_select_after cut (df : frame) :
  NoDup (index df) ->
  drop (index (select_after cut df)) df
  = filter (fun lr => Qle_bool (DF.total_time_used (snd lr)) cut) df.
Proof.
  intros Hn. unfold drop. apply filter_ext_in. intros [l r] Hin. simpl.
  rewrite <- Qgt_bool_negb. f_equal.
  destruct (Qgt_bool (DF.total_time_used r) cut) eqn:E.
  - apply existsb_exists. exists l. split; [|apply Nat.eqb_refl].
    unfold index, select_after. apply (in_map fst _ (l, r)).
    apply filter_In. now split.
  - destruct (existsb _ _) eqn:F; [|reflexivity].
    apply existsb_exists in F. destruct F as [l' [Hl' Heq]].
    apply Nat.eqb_eq in Heq. subst l'.
    unfold index, select_after in Hl'. apply in_map_iff in Hl'.
    destruct Hl' as [[l2 r2] [Hfst Hin2]]. simpl in Hfst. subst l2.
    apply filter_In in Hin2. destruct Hin2 as [Hin2 Hgt]. simpl in Hgt.
    rewrite (NoDup_fst_injective df l r r2 Hn Hin Hin2) in E. congruence.
Qed.

Lemma NoDup_index_sorted l : NoDup (index (sort_values (range_index l))).
Proof.
  unfold index.
  apply (Permutation_NoDup
           (Permutation_sym (Permutation_map fst (sort_values_perm _)))).
  fold (index (range_index l)). rewrite index_range_index. apply seq_NoDup.
Qed.

(** The frame of one seed after the sentinel has been appended and the
    rows have been sorted. *)
Lemma truncate_filter key unique_id cut optimizer_df :
  truncate key unique_id cut optimizer_df
  = filter (fun lr => Qle_bool (DF.total_time_used (snd lr)) cut)
      (sort_values
         (range_index
            (rows (select_id unique_id optimizer_df)
               ++ [sentinel key unique_id
                     (select_id unique_id optimizer_df)]))).
Proof.
  unfold truncate, append_ignore_index.
  rewrite drop_select_after by apply NoDup_index_sorted.
  now rewrite rows_range_index.
Qed.

Lemma filter_sorted (p : nat * DF.row -> bool) (l : frame) :
  StronglySorted time_le l -> StronglySorted time_le (filter p l).
Proof.
  induction 1 as [|a l Hs IH Ha]; simpl; [constructor|].
  destruct (p a); [|exact IH]. constructor; [exact IH|].
  apply Forall_forall. intros x Hx. apply filter_In in Hx.
  rewrite Forall_forall in Ha. now apply Ha.
Qed.

Lemma filter_time_prefix (c1 c2 : Q) (l : frame) :
  c1 <= c2 ->
  StronglySorted time_le l ->
  prefix (filter (fun lr => Qle_bool (DF.total_time_used (snd lr)) c1) l)
         (filter (fun lr => Qle_bool (DF.total_time_used (snd lr)) c2) l).
Proof.
  intros Hc. induction 1 as [|a l Hs IH Ha]; simpl.
  - now exists [].
  - destruct (Qle_bool (DF.total_time_used (snd a)) c1) eqn:E1.
    + assert (E2 : Qle_bool (DF.total_time_used (snd a)) c2 = true).
      { apply Qle_bool_iff. apply Qle_bool_iff in E1. eapply Qle_trans; eauto. }
      rewrite E2. destruct IH as [c Hc']. exists c. simpl. now rewrite Hc'.
    + replace (filter _ l) with (@nil (nat * DF.row)); [eexists; reflexivity|].
      symmetry. clear IH. induction l as [|b l IHl]; simpl; [reflexivity|].
      inversion Ha as [|? ? Hab Ha']; subst. inversion Hs; subst.
      destruct (Qle_bool (DF.total_time_used (snd b)) c1) eqn:Eb.
      * exfalso. apply Qle_bool_iff in Eb. unfold time_le in Hab.
        assert (F : Qle_bool (DF.total_time_used (snd a)) c1 = true).
        { apply Qle_bool_iff. eapply Qle_trans; eauto. }
        congruence.
      * now apply IHl.
Qed.

(** ** The column maximum *)

Lemma fle_refl a : a <> NaN -> fle a a = true.
Proof.
  destruct a; simpl; intros H; [|reflexivity|congruence].
  apply Qle_bool_iff. apply Qle_refl.
Qed.

Lemma fle_trans a b c : fle a b = true -> fle b c = true -> fle a c = true.
Proof.
  destruct a, b, c; simpl; try congruence. apply Qle_bool_trans.
Qed.

Lemma fmax_left a b : a <> NaN -> fle a (fmax a b) = true.
Proof.
  destruct a as [p| |], b as [q| |]; simpl; intros H; try congruence;
    try reflexivity.
  - destruct (Qle_bool p q) eqn:E; simpl; [exact E|].
    apply Qle_bool_iff. apply Qle_refl.
  - apply Qle_bool_iff. apply Qle_refl.
Qed.

Lemma fmax_right a b : b <> NaN -> fle b (fmax a b) = true.
Proof.
  destruct a as [p| |], b as [q| |]; simpl; intros H; try congruence;
    try reflexivity.
  - destruct (Qle_bool p q) eqn:E; simpl.
    + apply Qle_bool_iff. apply Qle_refl.
    + destruct (Qle_bool_total p q); congruence.
  - apply Qle_bool_iff. apply Qle_refl.
Qed.

Lemma fmax_choice a b : fmax a b = a \/ fmax a b = b.
Proof.
  destruct a as [p| |], b as [q| |]; simpl; auto.
  destruct (Qle_bool p q); auto.
Qed.

Lemma fmax_nan a b : fmax a b = NaN -> a = NaN /\ b = NaN.
Proof.
  destruct a as [p| |], b as [q| |]; simpl; try congruence; auto.
  destruct (Qle_bool p q); congruence.
Qed.

Lemma fold_fmax_acc l : forall acc,
  acc <> NaN -> fle acc (fold_left fmax l acc) = true.
Proof.
  induction l as [|x l IH]; simpl; intros acc H; [now apply fle_refl|].
  apply fle_trans with (fmax acc x); [now apply fmax_left|].
  apply IH. intros F. apply fmax_nan in F. tauto.
Qed.

(** [series_max] is an upper bound of the cells that are not [NaN] ... *)
Lemma series_max_upper l x :
  In x l -> x <> NaN -> fle x (series_max l) = true.
Proof.
  intros Hin Hx. unfold series_max. generalize NaN at 1. revert Hin.
  induction l as [|y l IH]; simpl; intros Hin acc; [contradiction|].
  destruct Hin as [->|Hin]; [|now apply IH].
  apply fle_trans with (fmax acc x); [now apply fmax_right|].
  apply fold_fmax_acc. intros F. apply fmax_nan in F. tauto.
Qed.

(** ... and it is one of the cells, or [NaN] if there is none. *)
Lemma series_max_attained l : series_max l = NaN \/ In (series_max l) l.
Proof.
  unfold series_max.
  assert (H : forall acc, fold_left fmax l acc = acc
                          \/ In (fold_left fmax l acc) l).
  { induction l as [|y l IH]; simpl; intros acc; [now left|].
    destruct (IH (fmax acc y)) as [E|E]; [|now right; right].
    rewrite E. destruct (fmax_choice acc y) as [-> | ->]; auto. }
  apply H.
Qed.

(** ** The last row *)

Lemma tail1_last (l : frame) x : tail1 (l ++ [x]) = [x].
Proof.
  unfold tail1. rewrite length_app. simpl.
  replace (length l + 1 - 1)%nat with (length l + 0)%nat by lia.
  rewrite skipn_app, Nat.add_0_r, skipn_all.
  now replace (length l - length l)%nat with 0%nat by lia.
Qed.

Lemma tail1_nil : tail1 [] = [].
Proof. reflexivity. Qed.

Lemma tail1_length (l : frame) : l <> [] -> length (tail1 l) = 1%nat.
Proof.
  intros H. destruct (exists_last H) as [l' [x ->]].
  now rewrite tail1_last.
Qed.

(** ** The truncated series of one seed *)

Lemma rows_sort_values_perm l :
  Permutation (rows (sort_values (range_index l))) l.
Proof.
  rewrite <- (rows_range_index l) at 2. unfold rows.
  apply Permutation_map, sort_values_perm.
Qed.

Lemma truncate_rows key unique_id cut optimizer_df :
  rows (truncate key unique_id cut optimizer_df)
  = filter (fun r => Qle_bool (DF.total_time_used r) cut)
      (rows (sort_values
               (range_index
                  (rows (select_id unique_id optimizer_df)
                     ++ [sentinel key unique_id
                           (select_id unique_id optimizer_df)])))).
Proof.
  rewrite truncate_filter.
  apply (rows_filter (fun r => Qle_bool (DF.total_time_used r) cut)).
Qed.

Lemma truncate_sorted key unique_id cut optimizer_df :
  StronglySorted time_le (truncate key unique_id cut optimizer_df).
Proof. rewrite truncate_filter. apply filter_sorted, sort_values_sorted. Qed.

Lemma truncate_In key unique_id cut optimizer_df row :
  In row (rows (truncate key unique_id cut optimizer_df))
  <-> (In row (rows (select_id unique_id optimizer_df))
       \/ row = sentinel key unique_id (select_id unique_id optimizer_df))
      /\ DF.total_time_used row <= cut.
Proof.
  rewrite truncate_rows, filter_In, Qle_bool_iff.
  split; intros [H Hc]; (split; [|exact Hc]).
  - apply (Permutation_in _ (rows_sort_values_perm _)) in H.
    apply in_app_or in H. destruct H as [H|[H|[]]]; auto.
  - apply (Permutation_in _ (Permutation_sym (rows_sort_values_perm _))).
    apply in_or_app. destruct H as [H|H]; [now left|right; now left].
Qed.

Lemma seed_step_outcome key cut optimizer_df result_df unique_id :
  outcome (seed_step key cut optimizer_df result_df unique_id)
  = Ok (frame_append result_df
          (tail1 (truncate key unique_id cut optimizer_df))).
Proof.
  unfold seed_step.
  destruct (length (tail1 (truncate key unique_id cut optimizer_df)) <? 1)%nat;
    reflexivity.
Qed.

(** C3 (as the code has it). For the series of one seed the loop appends
    exactly one sentinel row whose [total_time_used] is 0, whose
    [function_values] is infinite, whose [costs] is 0, whose [finish_time]
    is 1 and whose fidelity is the maximum fidelity observed for the seed;
    it then sorts the rows by ascending [total_time_used], removes exactly
    the rows with [total_time_used > cut_time_step], and hands the last
    remaining row to the result table. *)
Theorem truncate_appends_sentinel key unique_id cut optimizer_df :
  let df := select_id unique_id optimizer_df in
  let s := sentinel key unique_id df in
  (DF.total_time_used s = 0 /\ DF.function_values s = PInf
   /\ DF.costs s = 0 /\ DF.finish_time s = 1
   /\ (forall r, In r (rows df) -> DF.fidel_values r <> NaN ->
                 fle (DF.fidel_values r) (DF.fidel_values s) = true)
   /\ (DF.fidel_values s = NaN
       \/ In (DF.fidel_values s) (map DF.fidel_values (rows df))))
  /\ rows (append_ignore_index df (range_index [s])) = rows df ++ [s]
  /\ (exists sorted,
         Permutation (rows sorted) (rows df ++ [s])
         /\ StronglySorted time_le sorted
         /\ truncate key unique_id cut optimizer_df
            = filter (fun lr => Qle_bool (DF.total_time_used (snd lr)) cut)
                sorted)
  /\ (forall row,
         In row (rows (truncate key unique_id cut optimizer_df))
         <-> (In row (rows df) \/ row = s) /\ DF.total_time_used row <= cut)
  /\ StronglySorted time_le (truncate key unique_id cut optimizer_df)
  /\ (forall l x,
         truncate key unique_id cut optimizer_df = l ++ [x] ->
         forall result_df,
           outcome (seed_step key cut optimizer_df result_df unique_id)
           = Ok (frame_append result_df [x])).
Proof.
  cbv zeta. split; [|split; [|split; [|split; [|split]]]].
  - do 4 (split; [reflexivity|]). split.
    + intros r Hr Hn. simpl. apply series_max_upper; [|exact Hn].
      now apply in_map.
    + apply series_max_attained.
  - unfold append_ignore_index. now rewrite !rows_range_index.
  - eexists. split; [apply rows_sort_values_perm|].
    split; [apply sort_values_sorted|apply truncate_filter].
  - intros row. apply truncate_In.
  - apply truncate_sorted.
  - intros l x E result_df. rewrite seed_step_outcome, E.
    now rewrite tail1_last.
Qed.

(** The claim read literally fails on the first seed of the sample table:
    the sentinel sits at 0 seconds, not at 1, and its cost is 0; the
    infinite cell is [function_values]. Cut at 3 seconds the series keeps
    the sentinel and the evaluation made at 2 seconds. *)
Lemma sentinel_at_time_zero :
  let s := sentinel "rs" 0 (select_id 0 sample_df) in
  DF.total_time_used s = 0
  /\ ~ DF.total_time_used s == 1
  /\ DF.costs s = 0
  /\ DF.function_values s = PInf
  /\ DF.fidel_values s = Fin 9
  /\ map DF.total_time_used (rows (truncate "rs" 0 3 sample_df)) = [0; 2].
Proof.
  cbv zeta. repeat split; try reflexivity. intros H. discriminate H.
Qed.

(** C4. For a time limit that is not negative and thresholds
    [thresh1 < thresh2], the series cut at [thresh1 * time_limit_in_s] is an
    initial segment of the series cut at [thresh2 * time_limit_in_s]. *)
Theorem truncate_monotone key unique_id optimizer_df thresh1 thresh2 limit :
  0 <= limit ->
  thresh1 < thresh2 ->
  prefix (truncate key unique_id (thresh1 * limit) optimizer_df)
         (truncate key unique_id (thresh2 * limit) optimizer_df).
Proof.
  intros Hl Ht. rewrite !truncate_filter.
  apply filter_time_prefix; [|apply sort_values_sorted].
  apply Qmult_le_compat_r; [now apply Qlt_le_weak|exact Hl].
Qed.

Lemma truncate_monotone_witness :
  0 <= 6 /\ (1 # 2) < 1
  /\ prefix (truncate "rs" 0 ((1 # 2) * 6) sample_df)
            (truncate "rs" 0 (1 * 6) sample_df)
  /\ map DF.total_time_used (rows (truncate "rs" 0 ((1 # 2) * 6) sample_df))
     = [0; 2]
  /\ map DF.total_time_used (rows (truncate "rs" 0 (1 * 6) sample_df))
     = [0; 2; 5].
Proof.
  assert (H1 : 0 <= 6) by (unfold Qle; simpl; lia).
  assert (H2 : (1 # 2) < 1) by reflexivity.
  split; [exact H1|]. split; [exact H2|].
  split; [exact (truncate_monotone "rs" 0 sample_df (1 # 2) 1 6 H1 H2)|].
  split; reflexivity.
Defined.

(** ** The sentinel and the report of missing runs *)

Lemma sentinel_kept key unique_id cut optimizer_df :
  0 <= cut ->
  In (sentinel key unique_id (select_id unique_id optimizer_df))
     (rows (truncate key unique_id cut optimizer_df)).
Proof. intros H. apply truncate_In. split; [now right|exact H]. Qed.

Lemma rows_nil (df : frame) : rows df = [] -> df = [].
Proof. unfold rows. apply map_eq_nil. Qed.

(** C10. With [thresh] in (0, 1] and a positive time limit the sentinel,
    which sits at 0 seconds, is never dropped: the cut series is not empty,
    [tail(1)] has one row, and the loop body writes nothing, so the branch
    that reports fewer than one remaining row is not taken. *)
Theorem sentinel_always_survives
  key unique_id optimizer_df result_df thresh limit :
  0 < thresh -> thresh <= 1 -> 0 < limit ->
  let cut_time_step := thresh * limit in
  let df := truncate key unique_id cut_time_step optimizer_df in
  df <> []
  /\ In (sentinel key unique_id (select_id unique_id optimizer_df)) (rows df)
  /\ length (tail1 df) = 1%nat
  /\ events (seed_step key cut_time_step optimizer_df result_df unique_id) = [].
Proof.
  intros Ht _ Hl. cbv zeta.
  assert (Hc : 0 <= thresh * limit).
  { apply Qmult_le_0_compat; now apply Qlt_le_weak. }
  pose proof (sentinel_kept key unique_id _ optimizer_df Hc) as Hin.
  assert (Hne : truncate key unique_id (thresh * limit) optimizer_df <> []).
  { intros E. rewrite E in Hin. exact Hin. }
  split; [exact Hne|]. split; [exact Hin|].
  pose proof (tail1_length _ Hne) as Hlen.
  split; [exact Hlen|].
  unfold seed_step. rewrite Hlen. reflexivity.
Qed.

Lemma sentinel_always_survives_witness :
  0 < (1 # 2) /\ (1 # 2) <= 1 /\ 0 < 6
  /\ length (tail1 (truncate "rs" 2 ((1 # 2) * 6) sample_df)) = 1%nat
  /\ events (seed_step "rs" ((1 # 2) * 6) sample_df None 2) = [].
Proof.
  assert (H1 : 0 < (1 # 2)) by reflexivity.
  assert (H2 : (1 # 2) <= 1) by (unfold Qle; simpl; lia).
  assert (H3 : 0 < 6) by reflexivity.
  split; [exact H1|]. split; [exact H2|]. split; [exact H3|].
  destruct (sentinel_always_survives "rs" 2 sample_df None (1 # 2) 6 H1 H2 H3)
    as (_ & _ & Hlen & Hev).
  split; [exact Hlen|exact Hev].
Defined.

(** ** Grouping by optimizer *)

Section UniqueFacts.
Variables (A : Type) (ltb eqb : A -> A -> bool).
Hypothesis eqb_eq : forall a b, eqb a b = true -> a = b.

Lemma insert_unique_In x l z :
  In z (x :: l) -> In z (insert_unique ltb eqb x l).
Proof.
  induction l as [|y l IH]; simpl; intros H; [exact H|].
  destruct (ltb x y); [exact H|].
  destruct (eqb x y) eqn:E.
  - apply eqb_eq in E. subst y. destruct H as [H|H]; [now left|exact H].
  - simpl. destruct H as [H|[H|H]]; [right|now left|right].
    + apply IH. now left.
    + apply IH. now right.
Qed.

Lemma unique_In l z : In z l -> In z (unique ltb eqb l).
Proof.
  induction l as [|x l IH]; simpl; intros H; [exact H|].
  apply insert_unique_In. destruct H as [H|H]; [now left|right; auto].
Qed.
End UniqueFacts.

Lemma dict_get_map_keys {V : Type} (f : string -> V) ks k :
  In k ks ->
  dict_get String.eqb k (map (fun k => (k, f k)) ks) = Some (f k).
Proof.
  induction ks as [|k' ks IH]; simpl; intros H; [contradiction|].
  destruct (String.eqb_spec k k') as [->|Hne]; [reflexivity|].
  destruct H as [H|H]; [congruence|auto].
Qed.

(** Every optimizer with a row in the result table gets an aggregate, and
    its value list holds the [function_values] of all its rows. *)
Lemma groupby_agg_lst df t r :
  groupby_agg (Some df) = Ok t ->
  In r (rows df) ->
  exists agg,
    dict_get String.eqb (DF.optimizer r) t = Some agg
    /\ In (DF.function_values r) (function_values_lst agg)
    /\ value_lst_len agg = length (function_values_lst agg).
Proof.
  intros H Hr. simpl in H. inversion H; subst t; clear H.
  rewrite dict_get_map_keys.
  - eexists. split; [reflexivity|]. simpl. split; [|reflexivity].
    apply in_map, filter_In. split; [exact Hr|apply String.eqb_refl].
  - apply unique_In; [intros a b; apply String.eqb_eq|].
    now apply in_map.
Qed.

Lemma Permutation_filter_compat {A : Type} (p : A -> bool) (l l' : list A) :
  Permutation l l' -> Permutation (filter p l) (filter p l').
Proof.
  induction 1 as [|x l l' _ IH|x y l|l l' l'' _ IH1 _ IH2]; simpl.
  - constructor.
  - destruct (p x); [now constructor|exact IH].
  - destruct (p x), (p y); try reflexivity. apply perm_swap.
  - now transitivity (filter p l').
Qed.

Lemma filter_none {A : Type} (p : A -> bool) (l : list A) :
  (forall x, In x l -> p x = false) -> filter p l = [].
Proof.
  induction l as [|x l IH]; simpl; intros H; [reflexivity|].
  rewrite (H x (or_introl eq_refl)). apply IH. intros; apply H; now right.
Qed.

(** When every real record of a seed lies after a cut that is not
    negative, the cut series consists of the sentinel alone. *)
Lemma truncate_starved key unique_id cut optimizer_df :
  0 <= cut ->
  (forall r, In r (rows (select_id unique_id optimizer_df)) ->
             cut < DF.total_time_used r) ->
  rows (truncate key unique_id cut optimizer_df)
  = [sentinel key unique_id (select_id unique_id optimizer_df)].
Proof.
  intros Hc Hlate. rewrite truncate_rows.
  apply Permutation_length_1_inv. symmetry.
  rewrite (Permutation_filter_compat _ _ _ (rows_sort_values_perm _)).
  rewrite filter_app, filter_none.
  - simpl. replace (Qle_bool 0 cut) with true; [reflexivity|].
    symmetry. now apply Qle_bool_iff.
  - intros r Hr. specialize (Hlate r Hr).
    destruct (Qle_bool (DF.total_time_used r) cut) eqn:E; [|reflexivity].
    apply Qle_bool_iff in E. exfalso. exact (Qlt_not_le _ _ Hlate E).
Qed.

Lemma tail1_single_row (df : frame) s :
  rows df = [s] -> exists label, df = [(label, s)] /\ tail1 df = [(label, s)].
Proof.
  destruct df as [|[label r] [|lr df]]; try discriminate.
  intros H. inversion H; subst. exists label. split; reflexivity.
Qed.

(** The third seed of the sample table has its only evaluation at 7
    seconds. Cut at 3 seconds nothing is printed, and the seed enters the
    aggregate of its optimizer with one value, which is infinite. *)
Lemma starved_seed_is_counted :
  np_unique (map DF.id (rows sample_df)) = [0; 2]%nat
  /\ map DF.total_time_used (rows (select_id 2 sample_df)) = [7]
  /\ events (seed_step "rs" 3 sample_df None 2) = []
  /\ outcome (seed_step "rs" 3 sample_df None 2)
     = Ok (Some [(1%nat, sentinel "rs" 2 (select_id 2 sample_df))])
  /\ groupby_agg (Some [(1%nat, sentinel "rs" 2 (select_id 2 sample_df))])
     = Ok [("rs", {| function_values_median := PInf;
                     function_values_lst := [PInf];
                     value_lst_len := 1 |})].
Proof. repeat split. Qed.

(** ** The order on optimizer names *)

Lemma ascii_compare_refl a : Ascii.compare a a = Eq.
Proof. unfold Ascii.compare. apply N.compare_refl. Qed.

Lemma ascii_compare_lt_trans a b c :
  Ascii.compare a b = Lt -> Ascii.compare b c = Lt -> Ascii.compare a c = Lt.
Proof.
  unfold Ascii.compare. rewrite !N.compare_lt_iff. apply N.lt_trans.
Qed.

Lemma string_compare_refl s : String.compare s s = Eq.
Proof.
  induction s as [|a s IH]; simpl; [reflexivity|].
  now rewrite ascii_compare_refl.
Qed.

Lemma string_compare_lt_trans s1 : forall s2 s3,
  String.compare s1 s2 = Lt -> String.compare s2 s3 = Lt ->
  String.compare s1 s3 = Lt.
Proof.
  induction s1 as [|a s1 IH]; intros [|b s2] [|c s3]; simpl;
    try congruence.
  destruct (Ascii.compare a b) eqn:Eab; try congruence;
    destruct (Ascii.compare b c) eqn:Ebc; try congruence; intros H1 H2.
  - apply Ascii.compare_eq_iff in Eab, Ebc. subst.
    rewrite ascii_compare_refl. now apply (IH s2).
  - apply Ascii.compare_eq_iff in Eab. subst. now rewrite Ebc.
  - apply Ascii.compare_eq_iff in Ebc. subst. now rewrite Eab.
  - now rewrite (ascii_compare_lt_trans _ _ _ Eab Ebc).
Qed.









(** ** The first minimum *)





Lemma is_nan_false x : is_nan x = false -> x <> NaN.
Proof. destruct x; simpl; congruence. Qed.





(** ** The index of the averaged table *)

Lemma keys_map_keyed {V : Type} (f : string -> V) ks :
  keys (map (fun k => (k, f k)) ks) = ks.
Proof.
  unfold keys. rewrite map_map. simpl. apply map_id.
Qed.







Lemma dict_get_NoDup {V : Type} (d : dict string V) k v :
  NoDup (keys d) -> In (k, v) d -> dict_get String.eqb k d = Some v.
Proof.
  induction d as [|[k' v'] d IH]; simpl; intros Hn Hin; [contradiction|].
  inversion Hn as [|? ? Hk Hn']; subst.
  destruct (String.eqb_spec k k') as [->|Hne].
  - destruct Hin as [Hin|Hin]; [congruence|].
    elim Hk. apply (in_map fst) in Hin. exact Hin.
  - destruct Hin as [Hin|Hin]; [congruence|]. now apply IH.
Qed.


(** ** The best optimizer *)





(** ** Absent result folders *)

(** C8 (as the code has it). When the folder of a benchmark is absent,
    [plot_fidels] and [plot_overhead] fail their assertion after the first
    log line, the failure ends the surrounding invocation before any figure
    is saved, and the table loop prints the message about the missing
    folder and then goes on to load that same folder: the benchmark is not
    skipped. *)
Theorem absent_folder_is_not_skipped
  (files : Type) (is_dir : path -> bool)
  (load_trajectories_as_df : path -> string -> dict string files)
  (load_json_files load_trajectories : files -> list trajectory)
  (plot_dc : dict string (dict string Q)) (time_limit_in_s : string -> Q)
  (benchmark input_dir which : string) (unvalidated : bool) (thresh : Q)
  (st : option (list string) * dict string table) :
  is_dir (path_join input_dir benchmark) = false ->
  plot_fidels is_dir load_trajectories_as_df load_trajectories
    benchmark input_dir
  = ([Log_info_plotting "fidels" benchmark], Raise AssertionError)
  /\ plot_overhead is_dir load_trajectories_as_df load_trajectories plot_dc
       benchmark input_dir
     = ([Log_info_plotting "overhead" benchmark], Raise AssertionError)
  /\ outcome (evaluate_other is_dir load_trajectories_as_df load_trajectories
                plot_dc benchmark input_dir unvalidated)
     = Raise AssertionError
  /\ (forall file,
         ~ In (Savefig file)
              (events (evaluate_other is_dir load_trajectories_as_df
                         load_trajectories plot_dc benchmark input_dir
                         unvalidated)))
  /\ exists rest,
       events (benchmark_step is_dir load_trajectories_as_df load_json_files
                 plot_dc time_limit_in_s input_dir unvalidated which thresh
                 st benchmark)
       = Log_info_start benchmark
           :: Print_missing_folder (path_join input_dir benchmark)
           :: Read_dir (path_join input_dir benchmark)
                (if unvalidated then String.append "train_" which
                 else String.append "test_" which)
           :: rest.
Proof.
  intros H.
  assert (Hf : plot_fidels is_dir load_trajectories_as_df load_trajectories
                 benchmark input_dir
               = ([Log_info_plotting "fidels" benchmark],
                  Raise AssertionError)).
  { unfold plot_fidels. rewrite H. reflexivity. }
  split; [exact Hf|]. split.
  { unfold plot_overhead. rewrite H. reflexivity. }
  split; [|split].
  - unfold evaluate_other. rewrite Hf. now destruct unvalidated.
  - intros file. unfold evaluate_other. rewrite Hf.
    destruct unvalidated; simpl; intuition discriminate.
  - unfold benchmark_step. destruct st as [opt_list per_dataset_df].
    rewrite H. simpl.
    destruct (for_each _ _ None) as [out [r|e]]; simpl.
    + destruct (groupby_agg r); simpl; eexists; reflexivity.
    + eexists; reflexivity.
Qed.

Lemma absent_folder_is_not_skipped_witness :
  no_folder (path_join "results" "bench") = false
  /\ plot_fidels no_folder nothing_found (fun fs => fs) "bench" "results"
     = ([Log_info_plotting "fidels" "bench"], Raise AssertionError).
Proof.
  split; [reflexivity|].
  destruct (absent_folder_is_not_skipped (list trajectory) no_folder
              nothing_found (fun fs => fs) (fun fs => fs) [] (fun _ => 10)
              "bench" "results" "v1" true 1 (None, []) eq_refl) as [H _].
  exact H.
Defined.

(** Without the folder of the benchmark the plots stop at the assertion,
    and the table loop, after its message, loads the folder, finds no
    optimizer and fails in [groupby]; the benchmark that follows is never
    started. *)
Lemma absent_folder_aborts :
  evaluate_other no_folder nothing_found (fun fs => fs) [] "bench" "results"
    true
  = ([Log_info_plotting "fidels" "bench"], Raise AssertionError)
  /\ per_dataset_tables no_folder nothing_found (fun fs => fs) []
       (fun _ => 10) "results" true "v1" (Some ["rs"]) 1 ["bench"; "other"]
     = ([Log_info_start "bench";
         Print_missing_folder ["results"; "bench"];
         Read_dir ["results"; "bench"] "train_v1";
         Log_info_cut 1 10;
         Log_info_skip "rs"],
        Raise KeyError).
Proof. split; reflexivity. Qed.

(** ** The configuration fingerprint *)

Lemma string_leb_trans a b c :
  String.leb a b = true -> String.leb b c = true -> String.leb a c = true.
Proof.
  unfold String.leb.
  destruct (String.compare a b) eqn:E1; try discriminate; intros _;
    destruct (String.compare b c) eqn:E2; try discriminate; intros _.
  - apply String.compare_eq_iff in E1, E2. subst.
    now rewrite string_compare_refl.
  - apply String.compare_eq_iff in E1. subst. now rewrite E2.
  - apply String.compare_eq_iff in E2. subst. now rewrite E1.
  - now rewrite (string_compare_lt_trans _ _ _ E1 E2).
Qed.

Lemma sorted_items_sorted d : StronglySorted key_le (sorted_items d).
Proof.
  unfold sorted_items.
  apply (sort_sorted _ (fun a b => String.leb (fst a) (fst b))).
  - intros a b. apply String.leb_total.
  - intros a b c. apply string_leb_trans.
Qed.

Lemma sorted_items_perm d : Permutation (sorted_items d) d.
Proof. apply sort_perm. Qed.

(** Two sorted lists of items with the same content and distinct keys are
    the same list. *)
Lemma sorted_items_unique (l1 : dict string scalar) : forall l2,
  StronglySorted key_le l1 -> StronglySorted key_le l2 ->
  NoDup (keys l1) -> Permutation l1 l2 -> l1 = l2.
Proof.
  induction l1 as [|a l1 IH]; intros l2 H1 H2 Hn Hp.
  - now apply Permutation_nil in Hp.
  - destruct l2 as [|b l2].
    { apply Permutation_sym, Permutation_nil in Hp. discriminate. }
    inversion H1 as [|? ? Hs1 Ha]; subst.
    inversion H2 as [|? ? Hs2 Hb]; subst.
    inversion Hn as [|? ? Hk Hn']; subst.
    assert (E : a = b).
    { assert (Ha2 : In a (b :: l2))
        by (apply (Permutation_in _ Hp); now left).
      assert (Hb1 : In b (a :: l1))
        by (apply (Permutation_in _ (Permutation_sym Hp)); now left).
      destruct Ha2 as [Ha2|Ha2]; [now symmetry|].
      destruct Hb1 as [Hb1|Hb1]; [exact Hb1|].
      rewrite Forall_forall in Ha, Hb.
      pose proof (String.leb_antisym _ _ (Ha _ Hb1) (Hb _ Ha2)) as Ek.
      elim Hk. rewrite Ek. now apply in_map. }
    subst b. f_equal. apply IH; try assumption.
    now apply Permutation_cons_inv in Hp.
Qed.

Lemma sorted_items_permutation c1 c2 :
  NoDup (keys c1) -> Permutation c1 c2 -> sorted_items c1 = sorted_items c2.
Proof.
  intros Hn Hp. apply sorted_items_unique.
  - apply sorted_items_sorted.
  - apply sorted_items_sorted.
  - unfold keys.
    apply (Permutation_NoDup
             (Permutation_map fst (Permutation_sym (sorted_items_perm c1)))).
    exact Hn.
  - rewrite (sorted_items_perm c1), Hp. symmetry. apply sorted_items_perm.
Qed.

Lemma dict_get_set_string {V : Type} k (v : V) d :
  dict_get String.eqb k (dict_set String.eqb k v d) = Some v.
Proof.
  induction d as [|[k' v'] d IH]; simpl.
  - now rewrite String.eqb_refl.
  - destruct (String.eqb k k') eqn:E; simpl; rewrite E; [reflexivity|exact IH].
Qed.

Lemma dict_set_length_present {V : Type} k (v w : V) d :
  dict_get String.eqb k d = Some w ->
  length (dict_set String.eqb k v d) = length d.
Proof.
  induction d as [|[k' v'] d IH]; simpl; [discriminate|].
  destruct (String.eqb k k'); simpl; [reflexivity|].
  intros H. now rewrite IH.
Qed.

Lemma Qeq_bool_sym a b : Qeq_bool a b = Qeq_bool b a.
Proof.
  destruct (Qeq_bool a b) eqn:E1, (Qeq_bool b a) eqn:E2; try reflexivity.
  - apply Qeq_bool_iff in E1. symmetry in E1. apply Qeq_bool_iff in E1.
    congruence.
  - apply Qeq_bool_iff in E2. symmetry in E2. apply Qeq_bool_iff in E2.
    congruence.
Qed.

Lemma dict_get_set_Q k (v : Q) d :
  dict_get Qeq_bool k (dict_set Qeq_bool k v d) = Some v.
Proof.
  induction d as [|[k' v'] d IH]; simpl.
  - now rewrite Qeq_bool_refl.
  - destruct (Qeq_bool k k') eqn:E; simpl; rewrite E; [reflexivity|exact IH].
Qed.

Lemma dict_get_set_Q_other k k' (v : Q) d :
  ~ k == k' ->
  dict_get Qeq_bool k' (dict_set Qeq_bool k v d) = dict_get Qeq_bool k' d.
Proof.
  intros Hne.
  assert (Hf : Qeq_bool k' k = false).
  { destruct (Qeq_bool k' k) eqn:E; [|reflexivity].
    apply Qeq_bool_iff in E. elim Hne. now symmetry. }
  induction d as [|[k0 v0] d IH]; simpl.
  - now rewrite Hf.
  - destruct (Qeq_bool k k0) eqn:E; simpl.
    + destruct (Qeq_bool k' k0) eqn:E'; [|reflexivity].
      apply Qeq_bool_iff in E, E'. elim Hne. now rewrite E, E'.
    + now rewrite IH.
Qed.

(** C9. Two configurations with the same items and distinct keys have the
    same fingerprint whatever the order of insertion, and the observations
    of two such records are stored under one entry of the correlation
    table: after both records the entry of the fingerprint holds the value
    of the second record at its fidelity and, when the fidelities differ,
    the value of the first record at its fidelity, and the second record
    adds no entry. *)
Theorem fingerprint_order_independent
  (dumps_string : string -> string) (dumps_scalar : scalar -> string)
  (c1 c2 : dict string scalar) :
  NoDup (keys c1) ->
  Permutation c1 c2 ->
  json_dumps_sort_keys dumps_string dumps_scalar c1
  = json_dumps_sort_keys dumps_string dumps_scalar c2
  /\ forall r1 r2 st st1 st2,
       Traj.configuration r1 = c1 ->
       Traj.configuration r2 = c2 ->
       observe dumps_string dumps_scalar st r1 = Ok st1 ->
       observe dumps_string dumps_scalar st1 r2 = Ok st2 ->
       length (fst st2) = length (fst st1)
       /\ exists inner,
            dict_get String.eqb
              (json_dumps_sort_keys dumps_string dumps_scalar c1) (fst st2)
            = Some inner
            /\ dict_get String.eqb
                 (json_dumps_sort_keys dumps_string dumps_scalar c2) (fst st2)
               = Some inner
            /\ dict_get Qeq_bool (first_fidelity r2) inner
               = Some (Traj.function_value r2)
            /\ (~ first_fidelity r2 == first_fidelity r1 ->
                dict_get Qeq_bool (first_fidelity r1) inner
                = Some (Traj.function_value r1)).
Proof.
  intros Hn Hp.
  assert (Hfp : json_dumps_sort_keys dumps_string dumps_scalar c1
                = json_dumps_sort_keys dumps_string dumps_scalar c2).
  { unfold json_dumps_sort_keys.
    now rewrite (sorted_items_permutation c1 c2 Hn Hp). }
  split; [exact Hfp|].
  intros r1 r2 [conf_dc f_set] st1 st2 E1 E2 H1 H2.
  unfold observe in H1. rewrite E1 in H1.
  destruct (fidelity_value r1) as [f1|] eqn:F1; simpl in H1; [|discriminate].
  apply fidelity_value_first in F1. subst f1.
  inversion H1; subst st1; clear H1.
  unfold observe in H2. rewrite E2, <- Hfp in H2.
  destruct (fidelity_value r2) as [f2|] eqn:F2; simpl in H2; [|discriminate].
  apply fidelity_value_first in F2. subst f2.
  rewrite dict_get_set_string in H2.
  inversion H2; subst st2; clear H2. simpl.
  split.
  - eapply dict_set_length_present. apply dict_get_set_string.
  - eexists. rewrite <- Hfp. rewrite dict_get_set_string.
    split; [reflexivity|]. split; [reflexivity|].
    split; [apply dict_get_set_Q|].
    intros Hne. rewrite dict_get_set_Q_other by exact Hne.
    apply dict_get_set_Q.
Qed.

Lemma fingerprint_order_independent_witness :
  NoDup (keys config_xy)
  /\ Permutation config_xy config_yx
  /\ json_dumps_sort_keys sample_dumps_string sample_dumps_scalar config_xy
     = json_dumps_sort_keys sample_dumps_string sample_dumps_scalar config_yx
  /\ exists st,
       collect sample_dumps_string sample_dumps_scalar
         [[header; record_xy]; [header; record_yx]] ([], [])
       = Ok st
       /\ length (fst st) = 1%nat.
Proof.
  assert (Hn : NoDup (keys config_xy)).
  { repeat constructor; simpl; intuition discriminate. }
  assert (Hp : Permutation config_xy config_yx) by apply perm_swap.
  split; [exact Hn|]. split; [exact Hp|].
  destruct (fingerprint_order_independent sample_dumps_string
              sample_dumps_scalar config_xy config_yx Hn Hp) as [Hfp Hm].
  split; [exact Hfp|].
  eexists. split; [reflexivity|].
  destruct (Hm record_xy record_yx ([], []) _ _ eq_refl eq_refl
              eq_refl eq_refl) as [Hlen _].
  exact Hlen.
Defined.

(* ================================================================== *)
(** * Further properties of the normaliser and the table loop *)
(* ================================================================== *)

(** ** Which exception the normaliser raises *)

Lemma comprehension_raise {A B : Type} (f : A -> result B) (e : exn) l :
  (forall x, In x l -> (exists y, f x = Ok y) \/ f x = Raise e) ->
  (exists x, In x l /\ f x = Raise e) ->
  comprehension f l = Raise e.
Proof.
  induction l as [|x l IH]; simpl; intros Hall [z [Hz Hr]]; [contradiction|].
  destruct (Hall x (or_introl eq_refl)) as [[y Hy]|Hx].
  - rewrite Hy. simpl. rewrite IH; [reflexivity| |].
    + intros w Hw. apply Hall. now right.
    + destruct Hz as [->|Hz]; [congruence|]. now exists z.
  - now rewrite Hx.
Qed.

Lemma fidelity_value_cases r :
  (exists v, fidelity_value r = Ok v) \/ fidelity_value r = Raise IndexError.
Proof.
  destruct (Traj.fidelity r) as [|[k v] rest] eqn:E.
  - right. now apply fidelity_value_nil.
  - left. exists v. exact (fidelity_value_cons r _ _ _ E).
Qed.

Lemma fidelity_missing_dec (l : list Traj.record) :
  (forall r, In r l -> Traj.fidelity r <> [])
  \/ (exists r, In r l /\ Traj.fidelity r = []).
Proof.
  induction l as [|r l [IH|[z [Hz Hf]]]].
  - left. intros r [].
  - destruct (Traj.fidelity r) eqn:E.
    + right. exists r. split; [now left|exact E].
    + left. intros z [<-|Hz]; [congruence|now apply IH].
  - right. exists z. split; [now right|exact Hf].
Qed.

Lemma extend_with_zero key y_best y_max id traj d :
  normalizer y_best y_max == 0 ->
  slice_from_1 traj <> [] ->
  extend_with key y_best y_max id traj d = Raise ZeroDivisionError.
Proof.
  intros Hn Hs. unfold extend_with.
  destruct (slice_from_1 traj) as [|r rest]; [congruence|].
  simpl. unfold py_div.
  replace (Qeq_bool (normalizer y_best y_max) 0) with true; [reflexivity|].
  symmetry. now apply Qeq_bool_iff.
Qed.

Lemma extend_with_header_only key y_best y_max id traj d :
  slice_from_1 traj = [] ->
  exists d', extend_with key y_best y_max id traj d = Ok d'
             /\ zip_columns d' = zip_columns d
             /\ same_length (length (Cols.optimizer d')) d'
                = same_length (length (Cols.optimizer d)) d.
Proof.
  intros Hs. unfold extend_with. rewrite Hs. simpl.
  eexists. split; [reflexivity|].
  unfold zip_columns, same_length. simpl.
  now rewrite !app_nil_r.
Qed.

Lemma extend_with_no_fidelity key y_best y_max id traj d :
  ~ normalizer y_best y_max == 0 ->
  (exists r, In r (slice_from_1 traj) /\ Traj.fidelity r = []) ->
  extend_with key y_best y_max id traj d = Raise IndexError.
Proof.
  intros Hn [r [Hr Hf]]. unfold extend_with.
  destruct (comprehension_total
              (fun record => py_div (Traj.function_value record - y_best)
                                    (normalizer y_best y_max))
              (slice_from_1 traj)) as [fvs ->].
  { intros x _. eexists. now apply py_div_nonzero. }
  simpl. rewrite (comprehension_raise fidelity_value IndexError);
    [reflexivity| |].
  - intros x _. apply fidelity_value_cases.
  - exists r. split; [exact Hr|now apply fidelity_value_nil].
Qed.

Lemma enumerate_loop_zero key y_best y_max trajs :
  normalizer y_best y_max == 0 ->
  (exists traj, In traj trajs /\ slice_from_1 traj <> []) ->
  forall id d,
    enumerate_loop key y_best y_max id trajs d = Raise ZeroDivisionError.
Proof.
  intros Hn. induction trajs as [|traj rest IH]; intros [t [Ht Hs]] id d;
    [contradiction|]. simpl.
  destruct (slice_from_1 traj) as [|r l] eqn:E.
  - destruct (extend_with_header_only key y_best y_max id traj d E)
      as [d' [-> _]]. simpl. apply IH.
    destruct Ht as [<-|Ht]; [congruence|]. now exists t.
  - rewrite extend_with_zero; [reflexivity|exact Hn|congruence].
Qed.

Lemma enumerate_loop_header_only key y_best y_max trajs :
  (forall traj, In traj trajs -> slice_from_1 traj = []) ->
  forall id d,
    exists d', enumerate_loop key y_best y_max id trajs d = Ok d'
               /\ zip_columns d' = zip_columns d
               /\ same_length (length (Cols.optimizer d')) d'
                  = same_length (length (Cols.optimizer d)) d.
Proof.
  induction trajs as [|traj rest IH]; intros Hall id d; simpl; [eauto|].
  destruct (extend_with_header_only key y_best y_max id traj d)
    as [d1 [-> [Hz Ha]]]; [apply Hall; now left|]. simpl.
  destruct (IH (fun t Ht => Hall t (or_intror Ht)) (S id) d1)
    as [d' [-> [Hz' Ha']]].
  exists d'. split; [reflexivity|]. split; congruence.
Qed.

Lemma enumerate_loop_no_fidelity key y_best y_max trajs :
  ~ normalizer y_best y_max == 0 ->
  (exists traj r, In traj trajs /\ In r (slice_from_1 traj)
                  /\ Traj.fidelity r = []) ->
  forall id d,
    enumerate_loop key y_best y_max id trajs d = Raise IndexError.
Proof.
  intros Hn. induction trajs as [|traj rest IH];
    intros (t & r & Ht & Hr & Hf) id d; [contradiction|]. simpl.
  destruct (fidelity_missing_dec (slice_from_1 traj)) as [Hgood|Hbad].
  - destruct (extend_with_returns key y_best y_max id traj d Hn Hgood)
      as [d1 ->]. simpl. apply IH.
    destruct Ht as [<-|Ht]; [elim (Hgood r Hr Hf)|]. now exists t, r.
  - now rewrite extend_with_no_fidelity.
Qed.

(** X1. The normaliser raises [ZeroDivisionError] exactly when the
    normalising range is 0 and some run has a record after its header (a
    list of header-only runs gives the empty table); with a range that is
    not 0 it raises [IndexError] exactly when some record after a header has
    an empty fidelity mapping, and returns a table otherwise. *)
Theorem df_per_optimizer_exceptions key trajs y_best y_max :
  (normalizer y_best y_max == 0 ->
   ((exists traj, In traj trajs /\ slice_from_1 traj <> []) ->
    df_per_optimizer key trajs y_best y_max = Raise ZeroDivisionError)
   /\ ((forall traj, In traj trajs -> slice_from_1 traj = []) ->
       df_per_optimizer key trajs y_best y_max = Ok []))
  /\ (~ normalizer y_best y_max == 0 ->
      ((exists traj r, In traj trajs /\ In r (slice_from_1 traj)
                       /\ Traj.fidelity r = []) ->
       df_per_optimizer key trajs y_best y_max = Raise IndexError)
      /\ (fidelities_present trajs ->
          exists df, df_per_optimizer key trajs y_best y_max = Ok df)).
Proof.
  split; intros Hn; split.
  - intros H. unfold df_per_optimizer.
    now rewrite (enumerate_loop_zero key y_best y_max trajs Hn H).
  - intros H. unfold df_per_optimizer.
    destruct (enumerate_loop_header_only key y_best y_max trajs H 0%nat
                Cols.empty) as [d' [-> [Hz Ha]]]. simpl.
    unfold DataFrame. rewrite Ha. simpl. now rewrite Hz.
  - intros H. unfold df_per_optimizer.
    now rewrite (enumerate_loop_no_fidelity key y_best y_max trajs Hn H).
  - now apply df_per_optimizer_returns.
Qed.

(** ** A benchmark without a normalising range *)

Lemma outcome_bindM {A B : Type} (m : M A) (k : A -> M B) :
  outcome (bindM m k)
  = match outcome m with
    | Ok a => outcome (k a)
    | Raise e => Raise e
    end.
Proof.
  destruct m as [out [a|e]]; simpl; [|reflexivity].
  now destruct (k a).
Qed.

Lemma events_bindM {A B : Type} (m : M A) (k : A -> M B) :
  events (bindM m k)
  = match outcome m with
    | Ok a => events m ++ events (k a)
    | Raise e => events m
    end.
Proof.
  destruct m as [out [a|e]]; simpl; [|reflexivity].
  now destruct (k a).
Qed.

Lemma for_each_raise {A S : Type} (body : S -> A -> M S) (e : exn) l :
  (forall s x, In x l ->
     (exists s', outcome (body s x) = Ok s') \/ outcome (body s x) = Raise e) ->
  (exists x, In x l /\ forall s, outcome (body s x) = Raise e) ->
  forall s, outcome (for_each body l s) = Raise e.
Proof.
  induction l as [|x l IH]; intros Hall [z [Hz Hr]] s; [contradiction|].
  simpl. rewrite outcome_bindM.
  destruct (Hall s x (or_introl eq_refl)) as [[s' Hs]|Hs]; rewrite Hs;
    [|reflexivity].
  apply IH.
  - intros s0 w Hw. apply Hall. now right.
  - destruct Hz as [->|Hz]; [rewrite Hr in Hs; discriminate|]. now exists z.
Qed.

Lemma header_only_dec (trajs : list trajectory) :
  (forall traj, In traj trajs -> slice_from_1 traj = [])
  \/ (exists traj, In traj trajs /\ slice_from_1 traj <> []).
Proof.
  induction trajs as [|t l [IH|[z [Hz Hs]]]].
  - left. intros t [].
  - destruct (slice_from_1 t) eqn:E.
    + left. intros z [<-|Hz]; [exact E|now apply IH].
    + right. exists t. split; [now left|congruence].
  - right. exists z. split; [now right|exact Hs].
Qed.

Lemma df_per_optimizer_zero_range key trajs y_best y_max :
  normalizer y_best y_max == 0 ->
  ((exists traj, In traj trajs /\ slice_from_1 traj <> []) ->
   df_per_optimizer key trajs y_best y_max = Raise ZeroDivisionError)
  /\ ((forall traj, In traj trajs -> slice_from_1 traj = []) ->
      df_per_optimizer key trajs y_best y_max = Ok []).
Proof.
  intros Hn. split.
  - intros H. unfold df_per_optimizer.
    now rewrite (enumerate_loop_zero key y_best y_max trajs Hn H).
  - intros H. unfold df_per_optimizer.
    destruct (enumerate_loop_header_only key y_best y_max trajs H 0%nat
                Cols.empty) as [d' [-> [Hz Ha]]]. simpl.
    unfold DataFrame. rewrite Ha. simpl. now rewrite Hz.
Qed.

Lemma optimizer_step_zero_range
  (files : Type) (load_json_files : files -> list trajectory)
  (unique_optimizer : dict string files) (unvalidated : bool)
  (y_best_val y_best_test y_max cut : Q) (result_df : option frame)
  (key : string) :
  y_max == (if unvalidated then y_best_val else y_best_test) ->
  ((exists s',
       outcome (optimizer_step load_json_files unique_optimizer unvalidated
                  y_best_val y_best_test y_max cut result_df key) = Ok s')
   \/ outcome (optimizer_step load_json_files unique_optimizer unvalidated
                 y_best_val y_best_test y_max cut result_df key)
      = Raise ZeroDivisionError)
  /\ (forall fs,
         dict_get String.eqb key unique_optimizer = Some fs ->
         (exists traj, In traj (load_json_files fs)
                       /\ slice_from_1 traj <> []) ->
         outcome (optimizer_step load_json_files unique_optimizer unvalidated
                    y_best_val y_best_test y_max cut result_df key)
         = Raise ZeroDivisionError).
Proof.
  intros Hy.
  assert (Hn : normalizer (if unvalidated then y_best_val else y_best_test)
                 (Some y_max) == 0).
  { simpl. rewrite Hy. ring. }
  unfold optimizer_step.
  destruct (dict_get String.eqb key unique_optimizer) as [fs|];
    [|split; [left; eexists; reflexivity|discriminate]].
  destruct (df_per_optimizer_zero_range key (load_json_files fs)
              (if unvalidated then y_best_val else y_best_test) (Some y_max))
    as [Hz Hh]; [exact Hn|].
  split.
  - destruct (header_only_dec (load_json_files fs)) as [H|H].
    + left. rewrite (Hh H). simpl. eexists. reflexivity.
    + right. now rewrite (Hz H).
  - intros fs' E H. inversion E; subst fs'. now rewrite (Hz H).
Qed.

(** X2. When the normalising maximum of a benchmark equals its optimum, as
    it does for every benchmark that has no entry in [plot_dc] (both
    default to 0), the table loop raises [ZeroDivisionError] as soon as one
    of the optimizers to tabulate has a run with a record after its
    header. *)
Theorem benchmark_step_zero_range
  (files : Type) (is_dir : path -> bool)
  (load_trajectories_as_df : path -> string -> dict string files)
  (load_json_files : files -> list trajectory)
  (plot_dc : dict string (dict string Q)) (time_limit_in_s : string -> Q)
  (orig_input_dir which benchmark : string) (unvalidated : bool) (thresh : Q)
  (opt_list : option (list string)) (per_dataset_df : dict string table) :
  let unique_optimizer :=
    load_trajectories_as_df (path_join orig_input_dir benchmark)
      (if unvalidated then String.append "train_" which
       else String.append "test_" which) in
  benchmark_spec_get plot_dc benchmark "y_max"
  == benchmark_spec_get plot_dc benchmark
       (if unvalidated then "ystar_valid" else "ystar_test") ->
  (exists key fs traj,
      In key (match opt_list with
              | None => keys unique_optimizer
              | Some l => l
              end)
      /\ dict_get String.eqb key unique_optimizer = Some fs
      /\ In traj (load_json_files fs) /\ slice_from_1 traj <> []) ->
  outcome (benchmark_step is_dir load_trajectories_as_df load_json_files
             plot_dc time_limit_in_s orig_input_dir unvalidated which thresh
             (opt_list, per_dataset_df) benchmark)
  = Raise ZeroDivisionError.
Proof.
  cbv zeta. intros Hy (key & fs & traj & Hk & Hfs & Ht & Hs).
  assert (Hloop : forall s,
            outcome
              (for_each
                 (optimizer_step load_json_files
                    (load_trajectories_as_df
                       (path_join orig_input_dir benchmark)
                       (if unvalidated then String.append "train_" which
                        else String.append "test_" which))
                    unvalidated
                    (benchmark_spec_get plot_dc benchmark "ystar_valid")
                    (benchmark_spec_get plot_dc benchmark "ystar_test")
                    (benchmark_spec_get plot_dc benchmark "y_max")
                    (thresh * time_limit_in_s benchmark))
                 (match opt_list with
                  | None =>
                      keys (load_trajectories_as_df
                              (path_join orig_input_dir benchmark)
                              (if unvalidated
                               then String.append "train_" which
                               else String.append "test_" which))
                  | Some l => l
                  end) s)
            = Raise ZeroDivisionError).
  { assert (Hy' : benchmark_spec_get plot_dc benchmark "y_max"
                  == (if unvalidated
                      then benchmark_spec_get plot_dc benchmark "ystar_valid"
                      else benchmark_spec_get plot_dc benchmark "ystar_test"))
      by (destruct unvalidated; exact Hy).
    apply (for_each_raise _ ZeroDivisionError).
    - intros s x _.
      exact (proj1 (optimizer_step_zero_range files load_json_files _
                      unvalidated _ _ _ _ s x Hy')).
    - exists key. split; [exact Hk|]. intros s.
      apply (proj2 (optimizer_step_zero_range files load_json_files _
                      unvalidated _ _ _ _ s key Hy') fs Hfs).
      now exists traj. }
  specialize (Hloop None).
  unfold benchmark_step.
  destruct (negb (is_dir (path_join orig_input_dir benchmark))); simpl;
    destruct (for_each _ _ None) as [out [r|e]]; simpl in *;
    congruence.
Qed.

Lemma benchmark_step_zero_range_witness :
  benchmark_spec_get [] "bench" "y_max"
  == benchmark_spec_get [] "bench" "ystar_valid"
  /\ outcome (benchmark_step (fun _ => true)
               (fun _ _ => tie_unique_optimizer)
               (fun fs : list trajectory => fs) [] (fun _ => 10)
               "results" true "v1" 1 (Some tie_opt_list, []) "bench")
     = Raise ZeroDivisionError.
Proof.
  assert (H : benchmark_spec_get [] "bench" "y_max"
              == benchmark_spec_get [] "bench" "ystar_valid")
    by reflexivity.
  split; [exact H|].
  apply (benchmark_step_zero_range (list trajectory) (fun _ => true)
           (fun _ _ => tie_unique_optimizer) (fun fs => fs) []
           (fun _ => 10) "results" "v1" "bench" true 1
           (Some tie_opt_list) [] H).
  exists "randomsearch", [run_a], run_a.
  repeat split; try (now left). discriminate.
Defined.

(** ** One row per run that has an evaluation *)

Lemma insert_unique_In_inv {A : Type} (ltb eqb : A -> A -> bool) x l z :
  In z (insert_unique ltb eqb x l) -> z = x \/ In z l.
Proof.
  induction l as [|y l IH]; simpl.
  - intros [H|[]]. now left.
  - destruct (ltb x y); [intros [H|H]; auto|].
    destruct (eqb x y); [auto|].
    intros [H|H]; [auto|]. destruct (IH H); auto.
Qed.

Lemma unique_In_inv {A : Type} (ltb eqb : A -> A -> bool) l z :
  In z (unique ltb eqb l) -> In z l.
Proof.
  induction l as [|x l IH]; simpl; [auto|]. intros H.
  apply insert_unique_In_inv in H. destruct H as [->|H]; auto.
Qed.

Lemma insert_unique_nat_sorted x l :
  StronglySorted lt l ->
  StronglySorted lt (insert_unique Nat.ltb Nat.eqb x l).
Proof.
  induction 1 as [|y l Hs IH Hy]; simpl; [repeat constructor|].
  destruct (Nat.ltb_spec x y) as [Hxy|Hxy].
  - constructor; [now constructor|]. constructor; [exact Hxy|].
    eapply Forall_impl; [|exact Hy]. intros z Hz. simpl in Hz. lia.
  - destruct (Nat.eqb_spec x y) as [->|Hne]; [now constructor|].
    constructor; [exact IH|].
    apply Forall_forall. intros z Hz.
    apply insert_unique_In_inv in Hz. destruct Hz as [->|Hz]; [lia|].
    rewrite Forall_forall in Hy. now apply Hy.
Qed.

Lemma np_unique_sorted l : StronglySorted lt (np_unique l).
Proof.
  unfold np_unique. induction l as [|x l IH]; simpl; [constructor|].
  now apply insert_unique_nat_sorted.
Qed.

Lemma np_unique_In l z : In z (np_unique l) <-> In z l.
Proof.
  unfold np_unique. split; [apply unique_In_inv|].
  apply unique_In. intros a b. apply Nat.eqb_eq.
Qed.

Lemma sorted_lt_NoDup l : StronglySorted lt l -> NoDup l.
Proof.
  induction 1 as [|x l Hs IH Hx]; constructor; [|exact IH].
  intros Hin. rewrite Forall_forall in Hx. specialize (Hx x Hin). lia.
Qed.

Lemma normalised_rows_ids key y_best y_max trajs : forall j i,
  In i (map DF.id (normalised_rows key y_best y_max j trajs))
  <-> exists k traj, i = (j + k)%nat /\ nth_error trajs k = Some traj
                     /\ slice_from_1 traj <> [].
Proof.
  induction trajs as [|t rest IH]; intros j i; simpl.
  - split; [intros []|]. intros (k & traj & _ & H & _).
    destruct k; discriminate.
  - rewrite map_app, in_app_iff, map_map. simpl. split.
    + intros [H|H].
      * apply in_map_iff in H. destruct H as [r [<- Hr]].
        exists 0%nat, t. split; [lia|]. split; [reflexivity|].
        intros E. rewrite E in Hr. exact Hr.
      * apply IH in H. destruct H as (k & traj & -> & Hk & Hs).
        exists (S k), traj. split; [lia|]. now split.
    + intros ([|k] & traj & -> & Hk & Hs); simpl in Hk.
      * inversion Hk; subst traj. left.
        destruct (slice_from_1 t) as [|r l]; [congruence|].
        simpl. left. lia.
      * right. apply IH. exists k, traj. split; [lia|]. now split.
Qed.

Lemma normalised_rows_optimizer key y_best y_max trajs : forall j,
  Forall (fun r => DF.optimizer r = key)
         (normalised_rows key y_best y_max j trajs).
Proof.
  induction trajs as [|t rest IH]; intros j; simpl; [constructor|].
  apply Forall_app. split; [|apply IH].
  apply Forall_forall. intros r Hr. apply in_map_iff in Hr.
  now destruct Hr as [x [<- _]].
Qed.

Lemma seed_step_kept key cut optimizer_df result_df unique_id :
  0 <= cut ->
  exists x,
    In x (truncate key unique_id cut optimizer_df)
    /\ seed_step key cut optimizer_df result_df unique_id
       = ([], Ok (frame_append result_df [x])).
Proof.
  intros Hc.
  pose proof (sentinel_kept key unique_id cut optimizer_df Hc) as Hin.
  destruct (truncate key unique_id cut optimizer_df) as [|a l] eqn:E;
    [contradiction|].
  destruct (@exists_last _ (a :: l)) as [l' [x El]]; [discriminate|].
  exists x. split; [rewrite El; apply in_or_app; right; now left|].
  unfold seed_step. rewrite E, El, tail1_last. reflexivity.
Qed.

Lemma select_id_In unique_id (df : frame) lr :
  In lr (select_id unique_id df)
  <-> In lr df /\ DF.id (snd lr) = unique_id.
Proof.
  unfold select_id. rewrite filter_In. now rewrite Nat.eqb_eq.
Qed.

Lemma truncate_row_of_seed key unique_id cut optimizer_df x :
  Forall (fun r => DF.optimizer r = key) (rows optimizer_df) ->
  In x (truncate key unique_id cut optimizer_df) ->
  DF.id (snd x) = unique_id /\ DF.optimizer (snd x) = key.
Proof.
  intros Hk Hx. apply (in_map snd) in Hx. fold (rows
    (truncate key unique_id cut optimizer_df)) in Hx.
  apply truncate_In in Hx. destruct Hx as [[Hx| ->] _]; [|now split].
  unfold rows in Hx. apply in_map_iff in Hx.
  destruct Hx as [lr [E Hlr]]. apply select_id_In in Hlr.
  destruct Hlr as [Hlr Hid]. rewrite <- E. split; [exact Hid|].
  rewrite Forall_forall in Hk. apply Hk. now apply in_map.
Qed.

Lemma seed_loop_rows key cut optimizer_df :
  0 <= cut ->
  Forall (fun r => DF.optimizer r = key) (rows optimizer_df) ->
  forall ids result_df,
    exists new,
      map (fun lr => DF.id (snd lr)) new = ids
      /\ Forall (fun lr => DF.optimizer (snd lr) = key) new
      /\ for_each (seed_step key cut optimizer_df) ids result_df
         = ([], Ok (match new with
                    | [] => result_df
                    | _ => frame_append result_df new
                    end)).
Proof.
  intros Hc Hk. induction ids as [|uid ids IH]; intros result_df.
  - exists []. repeat split. constructor.
  - destruct (seed_step_kept key cut optimizer_df result_df uid Hc)
      as [x [Hx Hstep]].
    destruct (truncate_row_of_seed _ _ _ _ _ Hk Hx) as [Hid Hopt].
    destruct (IH (frame_append result_df [x])) as (new & Hids & Hopts & Hrun).
    exists (x :: new). split; [simpl; congruence|].
    split; [now constructor|].
    simpl. rewrite Hstep. simpl. rewrite Hrun. simpl. f_equal. f_equal.
    destruct new as [|y new]; [reflexivity|].
    destruct result_df as [old|]; simpl; [|reflexivity].
    now rewrite <- app_assoc.
Qed.

(** X3. For the table of one optimizer and a cut that is not negative, the
    seeds visited by the loop are, in ascending order and without
    repetition, the positions of the runs that have a record after their
    header. Each of them adds exactly one row of that seed and optimizer
    to the result table and nothing is printed; a run that holds only its
    header adds no row. *)
Theorem one_row_per_evaluated_run
  key trajs y_best y_max optimizer_df cut result_df :
  df_per_optimizer key trajs y_best y_max = Ok optimizer_df ->
  0 <= cut ->
  let ids := np_unique (map DF.id (rows optimizer_df)) in
  (forall i,
      In i ids <-> exists traj, nth_error trajs i = Some traj
                                /\ slice_from_1 traj <> [])
  /\ StronglySorted lt ids
  /\ NoDup ids
  /\ exists new,
       map (fun lr => DF.id (snd lr)) new = ids
       /\ Forall (fun lr => DF.optimizer (snd lr) = key) new
       /\ for_each (seed_step key cut optimizer_df) ids result_df
          = ([], Ok (match new with
                     | [] => result_df
                     | _ => frame_append result_df new
                     end)).
Proof.
  intros Hdf Hc. cbv zeta.
  apply df_per_optimizer_rows in Hdf. subst optimizer_df.
  rewrite rows_range_index.
  split; [|split; [|split]].
  - intros i. rewrite np_unique_In, normalised_rows_ids. split.
    + intros (k & traj & -> & H). now exists traj.
    + intros (traj & H). now exists i, traj.
  - apply np_unique_sorted.
  - apply sorted_lt_NoDup, np_unique_sorted.
  - apply seed_loop_rows; [exact Hc|].
    rewrite rows_range_index. apply normalised_rows_optimizer.
Qed.

Lemma one_row_per_evaluated_run_witness :
  exists optimizer_df,
    df_per_optimizer "rs" [run_a; run_b; run_c] 0 None = Ok optimizer_df
    /\ 0 <= 3
    /\ np_unique (map DF.id (rows optimizer_df)) = [0; 2]%nat
    /\ exists new,
         map (fun lr => DF.id (snd lr)) new = [0; 2]%nat
         /\ for_each (seed_step "rs" 3 optimizer_df) [0; 2]%nat None
            = ([], Ok (match new with
                       | [] => None
                       | _ => frame_append None new
                       end)).
Proof.
  assert (Hc : 0 <= 3) by (unfold Qle; simpl; lia).
  eexists. split; [reflexivity|]. split; [exact Hc|].
  split; [reflexivity|].
  destruct (one_row_per_evaluated_run "rs" [run_a; run_b; run_c] 0 None _
              3 None eq_refl Hc) as (_ & _ & _ & new & Hids & _ & Hrun).
  exists new. split; [exact Hids|exact Hrun].
Defined.

(** ** The average over benchmarks *)

Lemma dict_get_None_keys {V : Type} (d : dict string V) k :
  dict_get String.eqb k d = None <-> ~ In k (keys d).
Proof.
  induction d as [|[k' v] d IH]; simpl; [tauto|].
  destruct (String.eqb_spec k k') as [->|Hne].
  - split; [discriminate|]. intros H. elim H. now left.
  - rewrite IH. split; intros H; [intros [E|E]; [congruence|auto]|auto].
Qed.

Lemma dict_get_map_keys_absent {V : Type} (f : string -> V) ks k :
  ~ In k ks -> dict_get String.eqb k (map (fun k => (k, f k)) ks) = None.
Proof.
  intros H. apply dict_get_None_keys. now rewrite keys_map_keyed.
Qed.













(** ** Line 242 *)

Lemma median_table_values_raises format_value per_dataset_df :
  median_table_values format_value per_dataset_df
  = match per_dataset_df with
    | [] => Raise IndexError
    | _ :: _ => Raise AttributeError
    end.
Proof. now destruct per_dataset_df. Qed.

(** X5. [save_median_table_tabular] never gets to its table. It loads and
    aggregates every benchmark, writing what the table loop writes; then,
    when the loop has come through, line 237 raises [IndexError] if there
    was no benchmark and line 242 raises [AttributeError] otherwise. No
    best optimizer is selected and nothing is returned or saved, whatever
    the arguments and the files are. *)
Theorem median_table_is_never_written
  (files : Type) (is_dir : path -> bool)
  (load_trajectories_as_df : path -> string -> dict string files)
  (load_json_files : files -> list trajectory)
  (plot_dc : dict string (dict string Q)) (time_limit_in_s : string -> Q)
  (format_value : fval -> string) (orig_input_dir : string)
  (unvalidated : bool) (which : string) (opt_list : option (list string))
  (thresh : Q) (benchmarks : list string) :
  let tables :=
    per_dataset_tables is_dir load_trajectories_as_df load_json_files
      plot_dc time_limit_in_s orig_input_dir unvalidated which opt_list
      thresh benchmarks in
  let run :=
    save_median_table_tabular is_dir load_trajectories_as_df
      load_json_files plot_dc time_limit_in_s format_value orig_input_dir
      unvalidated which opt_list thresh benchmarks in
  events run = events tables
  /\ outcome run
     = match outcome tables with
       | Ok [] => Raise IndexError
       | Ok (_ :: _) => Raise AttributeError
       | Raise e => Raise e
       end
  /\ forall value, outcome run <> Ok value.
Proof.
  intros tables run.
  assert (H : events run = events tables
              /\ outcome run
                 = match outcome tables with
                   | Ok [] => Raise IndexError
                   | Ok (_ :: _) => Raise AttributeError
                   | Raise e => Raise e
                   end).
  { unfold run, save_median_table_tabular. fold tables.
    destruct tables as [out [d|e]]; unfold bindM, lift, events, outcome;
      cbn [fst snd].
    - rewrite median_table_values_raises, app_nil_r.
      now destruct d.
    - split; reflexivity. }
  destruct H as [He Ho]. split; [exact He|]. split; [exact Ho|].
  intros value. rewrite Ho.
  destruct (outcome tables) as [[|]|]; discriminate.
Qed.

(* ================================================================== *)
(** * The expanded table *)
(* ================================================================== *)

Lemma fmin_left a b : a <> NaN -> fle (fmin a b) a = true.
Proof.
  destruct a as [p| |], b as [q| |]; simpl; intros H; try congruence;
    try reflexivity; try (apply Qle_bool_iff; apply Qle_refl).
  destruct (Qle_bool p q) eqn:E; simpl.
  - apply Qle_bool_iff. apply Qle_refl.
  - destruct (Qle_bool_total p q); congruence.
Qed.

Lemma fmin_right a b : b <> NaN -> fle (fmin a b) b = true.
Proof.
  destruct a as [p| |], b as [q| |]; simpl; intros H; try congruence;
    try reflexivity; try (apply Qle_bool_iff; apply Qle_refl).
  destruct (Qle_bool p q) eqn:E; simpl; [exact E|].
  apply Qle_bool_iff. apply Qle_refl.
Qed.

Lemma fmin_choice a b : fmin a b = a \/ fmin a b = b.
Proof.
  destruct a as [p| |], b as [q| |]; simpl; auto.
  destruct (Qle_bool p q); auto.
Qed.

Lemma fmin_nan a b : fmin a b = NaN -> a = NaN /\ b = NaN.
Proof.
  destruct a as [p| |], b as [q| |]; simpl; try congruence; auto.
  destruct (Qle_bool p q); congruence.
Qed.

Lemma fold_fmin_acc l : forall acc,
  acc <> NaN -> fle (fold_left fmin l acc) acc = true.
Proof.
  induction l as [|x l IH]; simpl; intros acc H; [now apply fle_refl|].
  apply fle_trans with (fmin acc x); [|now apply fmin_left].
  apply IH. intros F. apply fmin_nan in F. tauto.
Qed.

Lemma series_min_lower l x :
  In x l -> x <> NaN -> fle (series_min l) x = true.
Proof.
  intros Hin Hx. unfold series_min. generalize NaN. revert Hin.
  induction l as [|y l IH]; simpl; intros Hin acc; [contradiction|].
  destruct Hin as [->|Hin]; [|now apply IH].
  apply fle_trans with (fmin acc x); [|now apply fmin_right].
  apply fold_fmin_acc. intros F. apply fmin_nan in F. tauto.
Qed.

Lemma series_min_attained l : series_min l = NaN \/ In (series_min l) l.
Proof.
  unfold series_min.
  assert (H : forall acc, fold_left fmin l acc = acc
                          \/ In (fold_left fmin l acc) l).
  { induction l as [|y l IH]; simpl; intros acc; [now left|].
    destruct (IH (fmin acc y)) as [E|E]; [|now right; right].
    rewrite E. destruct (fmin_choice acc y) as [-> | ->]; auto. }
  apply H.
Qed.

Lemma feq_fle a b : feq a b = true -> fle a b = true /\ a <> NaN.
Proof.
  destruct a as [p| |], b as [q| |]; simpl; try discriminate.
  - intros H. apply Qeq_bool_iff in H. split; [|discriminate].
    apply Qle_bool_iff. rewrite H. apply Qle_refl.
  - intros _. split; [reflexivity|discriminate].
Qed.

Lemma fle_antisym_feq a b :
  fle a b = true -> fle b a = true -> feq a b = true.
Proof.
  destruct a as [p| |], b as [q| |]; simpl; try discriminate; auto.
  rewrite !Qle_bool_iff. intros H1 H2. apply Qeq_bool_iff.
  now apply Qle_antisym.
Qed.

Lemma feq_fle_trans a b c : feq a b = true -> fle b c = true -> fle a c = true.
Proof.
  destruct a as [p| |], b as [q| |], c as [r| |]; simpl; try discriminate;
    auto.
  intros H. apply Qeq_bool_iff in H. rewrite !Qle_bool_iff. now rewrite H.
Qed.

Lemma series_min_nan l : series_min l = NaN -> Forall (fun v => v = NaN) l.
Proof.
  unfold series_min.
  assert (H : forall acc, fold_left fmin l acc = NaN ->
                          acc = NaN /\ Forall (fun v => v = NaN) l).
  { induction l as [|y l IH]; simpl; intros acc E; [now split|].
    destruct (IH _ E) as [Hacc Hl]. apply fmin_nan in Hacc.
    destruct Hacc as [-> ->]. split; [reflexivity|now constructor]. }
  intros E. now destruct (H NaN E).
Qed.

(** A cell equals the minimum of its row exactly when it is a number and
    no number of the row is smaller. *)
Lemma feq_series_min l v :
  In v l ->
  (feq v (series_min l) = true
   <-> v <> NaN /\ forall w, In w l -> w <> NaN -> fle v w = true).
Proof.
  intros Hin. split.
  - intros H. destruct (feq_fle _ _ H) as [Hle Hv]. split; [exact Hv|].
    intros w Hw Hn. apply (feq_fle_trans _ _ _ H).
    now apply series_min_lower.
  - intros [Hv Hall].
    assert (Hm : series_min l <> NaN).
    { intros E. apply series_min_nan in E. rewrite Forall_forall in E.
      elim Hv. now apply E. }
    apply fle_antisym_feq.
    + destruct (series_min_attained l) as [E|E]; [congruence|].
      now apply Hall.
    + now apply series_min_lower.
Qed.

Lemma best_opts_mem (result_df : series) opt v :
  NoDup (keys result_df) ->
  In (opt, v) result_df ->
  existsb (String.eqb opt) (best_opts result_df)
  = feq v (series_min (map snd result_df)).
Proof.
  intros Hn Hin. unfold best_opts.
  destruct (feq v (series_min (map snd result_df))) eqn:E.
  - apply existsb_exists. exists opt. split; [|apply String.eqb_refl].
    apply (in_map fst _ (opt, v)). apply filter_In. now split.
  - destruct (existsb _ _) eqn:F; [|reflexivity].
    apply existsb_exists in F. destruct F as [k [Hk Heq]].
    apply String.eqb_eq in Heq. subst k.
    apply in_map_iff in Hk. destruct Hk as [[k w] [Hfst Hf]].
    simpl in Hfst. subst k. apply filter_In in Hf. destruct Hf as [Hw Hfeq].
    simpl in Hfeq.
    rewrite (NoDup_fst_injective result_df opt v w Hn Hin Hw) in E.
    congruence.
Qed.

Lemma dict_set_partly_rendered G (l : series) done opt :
  NoDup (keys l) ->
  In opt (keys l) ->
  forall s,
    (forall v, In (opt, v) l -> s = G (opt, v)) ->
    dict_set String.eqb opt (Text s) (partly_rendered G l done)
    = partly_rendered G l (opt :: done).
Proof.
  induction l as [|[k v] l IH]; simpl; intros Hn Hin s Hs; [contradiction|].
  inversion Hn as [|? ? Hk Hn']; subst.
  destruct (String.eqb_spec opt k) as [->|Hne].
  - rewrite String.eqb_refl. simpl.
    rewrite <- (Hs v) by now left. f_equal.
    unfold partly_rendered. apply map_ext_in. intros [k' v'] Hin'. simpl.
    destruct (String.eqb_spec k' k) as [->|]; [|reflexivity].
    elim Hk. apply (in_map fst) in Hin'. exact Hin'.
  - replace (String.eqb k opt) with false
      by (symmetry; apply String.eqb_neq; congruence).
    simpl. f_equal. apply IH; [exact Hn'| |].
    + destruct Hin as [Hin|Hin]; [congruence|exact Hin].
    + intros w Hw. apply Hs. now right.
Qed.

Lemma render_loop format_e format_g (result_df : series) :
  NoDup (keys result_df) ->
  forall ks done,
    (forall k, In k ks -> In k (keys result_df)) ->
    fold_result (render_step format_e format_g result_df) ks
      (partly_rendered (rendered format_e format_g result_df) result_df done)
    = Ok (partly_rendered (rendered format_e format_g result_df) result_df
            (rev ks ++ done)).
Proof.
  intros Hn. induction ks as [|opt ks IH]; intros done Hks; [reflexivity|].
  simpl. unfold render_step at 1.
  assert (Hopt : In opt (keys result_df)) by (apply Hks; now left).
  replace (1 <? count_occ string_dec (keys result_df) opt)%nat with false.
  2:{ symmetry. apply Nat.ltb_ge.
      now apply (proj1 (NoDup_count_occ string_dec _)). }
  unfold keys in Hopt. apply in_map_iff in Hopt.
  destruct Hopt as [[k v] [Hk Hin]]. simpl in Hk. subst k.
  rewrite (dict_get_NoDup result_df opt v Hn Hin).
  rewrite (best_opts_mem result_df opt v Hn Hin).
  rewrite dict_set_partly_rendered.
  - simpl. rewrite IH by (intros; apply Hks; now right).
    now rewrite <- app_assoc.
  - exact Hn.
  - apply (in_map fst _ (opt, v)). exact Hin.
  - intros w Hw. unfold rendered. simpl.
    now rewrite (NoDup_fst_injective result_df opt v w Hn Hin Hw).
Qed.

(** X6. In the expanded table a row whose optimizers are distinct is
    rendered cell by cell, and a cell is wrapped in [textbf] exactly when it
    equals the minimum of the row, that is when it is a number and no
    number of the row is smaller: every optimizer that ties at the minimum
    is marked, and a cell that is [NaN] never is. *)
Theorem render_row_marks_every_minimum format_e format_g result_df :
  NoDup (keys result_df) ->
  render_row format_e format_g result_df
  = Ok (map (fun kv =>
               (fst kv,
                Text (if feq (snd kv) (series_min (map snd result_df))
                      then textbf (render format_e format_g (snd kv))
                      else render format_e format_g (snd kv))))
            result_df)
  /\ forall opt v,
       In (opt, v) result_df ->
       (feq v (series_min (map snd result_df)) = true
        <-> v <> NaN
            /\ forall w, In w (map snd result_df) -> w <> NaN ->
                         fle v w = true).
Proof.
  intros Hn. split.
  - unfold render_row.
    change (map (fun kv : string * fval => (fst kv, Number (snd kv)))
              result_df)
      with (partly_rendered (rendered format_e format_g result_df)
              result_df []).
    rewrite render_loop.
    + f_equal. unfold partly_rendered. apply map_ext_in.
      intros [k v] Hin. simpl. rewrite app_nil_r.
      replace (existsb (String.eqb k) (rev (opt_keys result_df))) with true;
        [reflexivity|].
      symmetry. apply existsb_exists. exists k.
      split; [|apply String.eqb_refl].
      apply in_rev. rewrite rev_involutive. unfold opt_keys.
      apply (Permutation_in _ (Permutation_sym (sort_perm _ _ _))).
      now apply (in_map fst _ (k, v)).
    + exact Hn.
    + intros k Hk. unfold opt_keys in Hk.
      exact (Permutation_in _ (sort_perm _ _ _) Hk).
  - intros opt v Hin. apply feq_series_min.
    now apply (in_map snd _ (opt, v)).
Qed.

Lemma render_row_marks_every_minimum_witness :
  NoDup (keys tied_row)
  /\ render_row (fun _ => "e") (fun _ => "g") tied_row
     = Ok [("randomsearch", Text "textbf{g}"); ("de", Text "textbf{g}");
           ("smac_bo", Text "g")].
Proof.
  assert (Hn : NoDup (keys tied_row)).
  { repeat constructor; simpl; intuition discriminate. }
  split; [exact Hn|].
  exact (proj1 (render_row_marks_every_minimum
                  (fun _ => "e") (fun _ => "g") tied_row Hn)).
Defined.

(* ================================================================== *)
(** * The plotted series *)
(* ================================================================== *)

(** ** The empirical distribution function *)

Lemma nth_error_seq_lt a n i :
  (i < n)%nat -> nth_error (seq a n) i = Some (a + i)%nat.
Proof.
  revert a i. induction n as [|n IH]; intros a i H; [lia|].
  destruct i as [|i]; simpl; [f_equal; lia|].
  rewrite IH by lia. f_equal. lia.
Qed.

Lemma sorted_app_before {A : Type} (R : A -> A -> Prop) (p q : list A) x :
  StronglySorted R (p ++ x :: q) -> Forall (fun a => R a x) p.
Proof.
  induction p as [|a p IH]; simpl; intros H; [constructor|].
  inversion H as [|? ? Hs Ha]; subst. constructor; [|now apply IH].
  rewrite Forall_forall in Ha. apply Ha. apply in_or_app. right. now left.
Qed.

Lemma filter_all_length {A : Type} (f : A -> bool) (l : list A) :
  Forall (fun a => f a = true) l -> length (filter f l) = length l.
Proof.
  induction 1 as [|a l Ha _ IH]; simpl; [reflexivity|].
  rewrite Ha. simpl. now rewrite IH.
Qed.

Lemma sort_Qle_sorted x : StronglySorted Qle (sort Qle_bool x).
Proof.
  assert (H : StronglySorted (fun a b => Qle_bool a b = true)
                (sort Qle_bool x)).
  { apply sort_sorted; [apply Qle_bool_total|apply Qle_bool_trans]. }
  induction H as [|a l _ IH Ha]; constructor; [exact IH|].
  eapply Forall_impl; [|exact Ha]. intros b. apply Qle_bool_iff.
Qed.

(** X7. [ecdf] returns the sample in ascending order together with as many
    heights; the height at position [i] is [(i + 1) / n], the last height
    is 1, and at least [i + 1] sample values are not above the value at
    position [i], so no height exceeds the share of the sample it stands
    for. An empty sample gives two empty series. *)
Theorem ecdf_heights (x : list Q) :
  Permutation (fst (ecdf x)) x
  /\ StronglySorted Qle (fst (ecdf x))
  /\ length (snd (ecdf x)) = length x
  /\ (forall i, (i < length x)%nat ->
        exists y, nth_error (snd (ecdf x)) i = Some y
                  /\ y == inject_Z (Z.of_nat (S i))
                          / inject_Z (Z.of_nat (length x)))
  /\ (x <> [] -> last (snd (ecdf x)) 0 == 1)
  /\ (forall i xi,
         nth_error (fst (ecdf x)) i = Some xi ->
         (S i <= length (filter (fun v => Qle_bool v xi) x))%nat)
  /\ ecdf [] = ([], []).
Proof.
  assert (Hp : Permutation (sort Qle_bool x) x) by apply sort_perm.
  assert (Hl : length (sort Qle_bool x) = length x)
    by now apply Permutation_length.
  unfold ecdf. cbv zeta. simpl fst. simpl snd. rewrite Hl.
  split; [exact Hp|]. split; [apply sort_Qle_sorted|].
  split; [now rewrite length_map, length_seq|]. split; [|split; [|split]].
  - intros i Hi. eexists. split; [|reflexivity].
    rewrite nth_error_map, nth_error_seq_lt by exact Hi. reflexivity.
  - intros Hne. destruct x as [|a x]; [congruence|]. clear Hne.
    cbn [length]. rewrite seq_S, map_app. cbn [map]. rewrite last_last.
    cbn [Nat.add]. field. intros F.
    unfold Qeq in F. simpl in F. lia.
  - intros i xi Hi.
    destruct (nth_error_split _ _ Hi) as (p & q & E & Hlen).
    pose proof (sort_Qle_sorted x) as Hs. rewrite E in Hs.
    pose proof (sorted_app_before _ _ _ _ Hs) as Hb.
    rewrite <- (Permutation_length
                  (Permutation_filter_compat
                     (fun v => Qle_bool v xi) _ _ Hp)).
    rewrite E, filter_app, length_app. simpl.
    replace (Qle_bool xi xi) with true
      by (symmetry; apply Qle_bool_iff; apply Qle_refl).
    rewrite filter_all_length.
    + simpl. lia.
    + eapply Forall_impl; [|exact Hb]. intros a. apply Qle_bool_iff.
  - reflexivity.
Qed.

(** ** Benchmark cost and overhead *)

Lemma overhead_telescopes_from (rest : list DF.row) :
  forall accb acco prevf s0,
    accb + acco == prevf - s0 ->
    forall i r,
      nth_error rest i = Some r ->
      exists b o,
        nth_error
          (cumsum_from accb
             (sub_cells (map DF.finish_time rest)
                (map Some (map DF.start_time rest)))) i
        = Some (Some b)
        /\ nth_error
             (cumsum_from acco
                (sub_cells (map DF.start_time rest)
                   (shift_from (Some prevf) (map DF.finish_time rest)))) i
           = Some (Some o)
        /\ b + o == DF.finish_time r - s0.
Proof.
  induction rest as [|r0 rest IH]; intros accb acco prevf s0 H i r Hi;
    [destruct i; discriminate|].
  destruct i as [|i]; simpl in Hi.
  - inversion Hi; subst r0. simpl. do 2 eexists.
    split; [reflexivity|]. split; [reflexivity|].
    setoid_replace (accb + (DF.finish_time r - DF.start_time r)
                    + (acco + (DF.start_time r - prevf)))
      with ((accb + acco) + (DF.finish_time r - prevf)) by ring.
    rewrite H. ring.
  - simpl. apply IH; [|exact Hi].
    setoid_replace (accb + (DF.finish_time r0 - DF.start_time r0)
                    + (acco + (DF.start_time r0 - prevf)))
      with ((accb + acco) + (DF.finish_time r0 - prevf)) by ring.
    rewrite H. ring.
Qed.

(** X8. For the rows of one seed the series of [plot_overhead] exist as
    soon as there is a row; the overhead of the first row is [NaN], and on
    every later row the cumulated benchmark cost and the cumulated overhead
    add up to the time elapsed between the first start and the finish of
    that row. Without any row the computation raises [IndexError]. *)
Theorem overhead_telescopes (first : DF.row) (rest : list DF.row) :
  exists benchmark_cost overhead overall_cost,
    overhead_series (first :: rest)
    = Ok (benchmark_cost, overhead, overall_cost)
    /\ nth_error overhead 0 = Some None
    /\ (forall i r,
           nth_error rest i = Some r ->
           exists b o,
             nth_error benchmark_cost (S i) = Some (Some b)
             /\ nth_error overhead (S i) = Some (Some o)
             /\ b + o == DF.finish_time r - DF.start_time first)
    /\ overhead_series [] = Raise IndexError.
Proof.
  do 3 eexists. split; [reflexivity|]. split; [reflexivity|].
  split; [|reflexivity].
  intros i r Hi. simpl.
  apply overhead_telescopes_from; [|exact Hi]. ring.
Qed.

(* ================================================================== *)
(** * The trajectory of a dragonfly run *)
(* ================================================================== *)

Section TrajectoryFacts.
Variables point json_point : Type.
Variable to_lists : bool -> point -> json_point.
Variables is_cp save_history : bool.

Let entry_of := Dragonfly.entry_of to_lists is_cp.
Let step := Dragonfly.step to_lists is_cp save_history.
Let cost_of (q : Dragonfly.qinfo point) := Dragonfly.neg (Dragonfly.val q).

Lemma float_lt_trans a b c :
  Dragonfly.lt a b = true -> Dragonfly.lt b c = true ->
  Dragonfly.lt a c = true.
Proof.
  destruct a as [p| | |], b as [q| | |], c as [r| | |]; simpl;
    try congruence.
  rewrite !Qgt_bool_iff. apply Qlt_trans.
Qed.

Lemma float_lt_le a b : Dragonfly.lt a b = true -> Dragonfly.le a b = true.
Proof.
  destruct a as [p| | |], b as [q| | |]; simpl; try congruence.
  rewrite Qgt_bool_iff, Qle_bool_iff. apply Qlt_le_weak.
Qed.

Lemma float_le_trans a b c :
  Dragonfly.le a b = true -> Dragonfly.le b c = true ->
  Dragonfly.le a c = true.
Proof.
  destruct a as [p| | |], b as [q| | |], c as [r| | |]; simpl;
    try congruence.
  apply Qle_bool_trans.
Qed.

Lemma float_le_refl a : a <> Dragonfly.Nan -> Dragonfly.le a a = true.
Proof.
  destruct a as [p| | |]; simpl; try congruence.
  intros _. apply Qle_bool_iff. apply Qle_refl.
Qed.

Lemma float_lt_false_le a b :
  a <> Dragonfly.Nan -> b <> Dragonfly.Nan ->
  Dragonfly.lt a b = false -> Dragonfly.le b a = true.
Proof.
  destruct a as [p| | |], b as [q| | |]; simpl; try congruence.
  unfold Qgt_bool. intros _ _ H. now apply negb_false_iff in H.
Qed.

Lemma float_lt_not_nan a b : Dragonfly.lt a b = true -> a <> Dragonfly.Nan.
Proof. destruct a; simpl; congruence. Qed.

Lemma step_later st (q : Dragonfly.qinfo point) :
  Dragonfly.update st = false ->
  Dragonfly.trajectories st <> [] ->
  step st q
  = {| Dragonfly.trajectories :=
         Dragonfly.trajectories st
           ++ (if Dragonfly.lt (cost_of q)
                    (Dragonfly.cost (Dragonfly.current st))
               then [entry_of q] else []);
       Dragonfly.current :=
         if Dragonfly.lt (cost_of q) (Dragonfly.cost (Dragonfly.current st))
         then entry_of q else Dragonfly.current st;
       Dragonfly.update := false;
       Dragonfly.recorded_history :=
         if save_history
         then Dragonfly.recorded_history st ++ [entry_of q]
         else Dragonfly.recorded_history st |}.
Proof.
  intros Hu He. unfold step, Dragonfly.step, cost_of. rewrite Hu.
  destruct (Dragonfly.trajectories st) as [|e l]; [congruence|].
  destruct (Dragonfly.lt (Dragonfly.neg (Dragonfly.val q))
              (Dragonfly.cost (Dragonfly.current st)));
    [reflexivity|]. now rewrite app_nil_r.
Qed.

Lemma fold_step_records (qinfos : list (Dragonfly.qinfo point)) :
  forall st,
    Dragonfly.update st = false ->
    Dragonfly.trajectories st <> [] ->
    Dragonfly.trajectories (fold_left step qinfos st)
    = Dragonfly.trajectories st
        ++ map entry_of
             (Dragonfly.records (Dragonfly.cost (Dragonfly.current st))
                qinfos)
    /\ Dragonfly.recorded_history (fold_left step qinfos st)
       = Dragonfly.recorded_history st
           ++ (if save_history then map entry_of qinfos else []).
Proof.
  induction qinfos as [|q rest IH]; intros st Hu He.
  - simpl. rewrite !app_nil_r. destruct save_history; now rewrite ?app_nil_r.
  - cbn [fold_left Dragonfly.records].
    rewrite (step_later st q Hu He). fold (cost_of q).
    match goal with
    | |- context [fold_left step rest ?s] =>
        destruct (IH s) as [Ht Hr]
    end.
    + reflexivity.
    + cbn [Dragonfly.trajectories]. intros F.
      apply app_eq_nil in F. now destruct F.
    + rewrite Ht, Hr.
      cbn [Dragonfly.trajectories Dragonfly.current
           Dragonfly.recorded_history].
      destruct (Dragonfly.lt (cost_of q)
                  (Dragonfly.cost (Dragonfly.current st))).
      * cbn [map Dragonfly.cost Dragonfly.entry_of entry_of]. split.
        -- now rewrite <- app_assoc.
        -- destruct save_history; [|reflexivity].
           now rewrite <- app_assoc.
      * rewrite app_nil_r. split; [reflexivity|].
        destruct save_history; [|reflexivity].
        now rewrite <- app_assoc.
Qed.

Lemma fold_step_initial (qinfos : list (Dragonfly.qinfo point)) :
  let st :=
    fold_left step qinfos
      {| Dragonfly.trajectories := [];
         Dragonfly.current := Dragonfly.initial _;
         Dragonfly.update := false; Dragonfly.recorded_history := [] |} in
  Dragonfly.trajectories st
  = Dragonfly.placeholder json_point qinfos
      ++ map entry_of (Dragonfly.records Dragonfly.PosInf qinfos)
  /\ Dragonfly.recorded_history st
     = if save_history then map entry_of qinfos else [].
Proof.
  cbv zeta. destruct qinfos as [|q rest].
  - simpl. destruct save_history; split; reflexivity.
  - cbn [fold_left Dragonfly.records Dragonfly.placeholder].
    match goal with
    | |- context [fold_left step rest ?s] =>
        destruct (fold_step_records rest s) as [Ht Hr]
    end.
    + reflexivity.
    + unfold step, Dragonfly.step. simpl. discriminate.
    + rewrite Ht, Hr. unfold step, Dragonfly.step.
      cbn [Dragonfly.trajectories Dragonfly.current Dragonfly.update
           Dragonfly.recorded_history Dragonfly.initial Dragonfly.cost app].
      destruct (Dragonfly.lt (Dragonfly.neg (Dragonfly.val q))
                  Dragonfly.PosInf).
      * split; [reflexivity|]. destruct save_history; reflexivity.
      * split; [reflexivity|]. destruct save_history; reflexivity.
Qed.

(** The cost of the last of the running minima [r], or [best] without
    any. *)
Let final_cost (best : Dragonfly.float) (r : list (Dragonfly.qinfo point))
  : Dragonfly.float :=
  fold_left (fun _ m => cost_of m) r best.

Lemma records_facts (qinfos : list (Dragonfly.qinfo point)) :
  forall best,
    best <> Dragonfly.Nan ->
    let r := Dragonfly.records best qinfos in
    Forall (fun m => Dragonfly.lt (cost_of m) best = true) r
    /\ StronglySorted
         (fun a b => Dragonfly.lt (cost_of b) (cost_of a) = true) r
    /\ Dragonfly.le (final_cost best r) best = true
    /\ forall q, In q qinfos -> Dragonfly.val q <> Dragonfly.Nan ->
                 Dragonfly.le (final_cost best r) (cost_of q) = true.
Proof.
  induction qinfos as [|q rest IH]; intros best Hb; cbv zeta;
    cbn [Dragonfly.records].
  - split; [constructor|]. split; [constructor|].
    split; [now apply float_le_refl|]. intros q [].
  - fold (cost_of q).
    destruct (Dragonfly.lt (cost_of q) best) eqn:E.
    + destruct (IH (cost_of q)) as (Hf & Hs & Hl & Hm);
        [exact (float_lt_not_nan _ _ E)|].
      change (final_cost best (q :: Dragonfly.records (cost_of q) rest))
        with (final_cost (cost_of q) (Dragonfly.records (cost_of q) rest)).
      split; [|split; [|split]].
      * constructor; [exact E|].
        eapply Forall_impl; [|exact Hf]. intros m Hm'.
        exact (float_lt_trans _ _ _ Hm' E).
      * constructor; [exact Hs|exact Hf].
      * apply float_le_trans with (cost_of q); [exact Hl|].
        now apply float_lt_le.
      * intros q' [<-|Hq] Hn; [exact Hl|now apply Hm].
    + destruct (IH best Hb) as (Hf & Hs & Hl & Hm).
      split; [exact Hf|]. split; [exact Hs|]. split; [exact Hl|].
      intros q' [<-|Hq] Hn; [|now apply Hm].
      apply float_le_trans with best; [exact Hl|].
      apply float_lt_false_le; [|exact Hb|exact E].
      unfold cost_of. destruct (Dragonfly.val q); simpl; congruence.
Qed.

Lemma records_In (qinfos : list (Dragonfly.qinfo point)) :
  forall best m, In m (Dragonfly.records best qinfos) -> In m qinfos.
Proof.
  induction qinfos as [|q rest IH]; intros best m; cbn [Dragonfly.records].
  - intros [].
  - destruct (Dragonfly.lt (Dragonfly.neg (Dragonfly.val q)) best).
    + intros [<-|H]; [now left|right; now apply (IH _ _ H)].
    + intros H. right. now apply (IH _ _ H).
Qed.

Lemma records_length (qinfos : list (Dragonfly.qinfo point)) :
  forall best, (length (Dragonfly.records best qinfos) <= length qinfos)%nat.
Proof.
  induction qinfos as [|q rest IH]; intros best;
    cbn [Dragonfly.records]; [lia|].
  destruct (Dragonfly.lt (Dragonfly.neg (Dragonfly.val q)) best);
    cbn [length].
  - specialize (IH (Dragonfly.neg (Dragonfly.val q))). lia.
  - specialize (IH best). lia.
Qed.

Lemma last_cons_default {A : Type} (l : list A) :
  forall a d, last (a :: l) d = last l a.
Proof.
  induction l as [|b l IH]; intros a d; [reflexivity|].
  change (last (a :: b :: l) d) with (last (b :: l) d).
  now rewrite !IH.
Qed.

Lemma last_cost_final (r : list (Dragonfly.qinfo point)) :
  forall d,
    Dragonfly.cost (last (map entry_of r) d)
    = final_cost (Dragonfly.cost d) r.
Proof.
  induction r as [|q r IH]; intros d; [reflexivity|].
  cbn [map]. rewrite last_cons_default, IH. reflexivity.
Qed.

Lemma last_cost_trajectory (qinfos : list (Dragonfly.qinfo point)) :
  Dragonfly.cost
    (last (Dragonfly.placeholder json_point qinfos
             ++ map entry_of (Dragonfly.records Dragonfly.PosInf qinfos))
       (Dragonfly.initial _))
  = final_cost Dragonfly.PosInf (Dragonfly.records Dragonfly.PosInf qinfos).
Proof.
  destruct qinfos as [|q rest]; [reflexivity|].
  cbn [Dragonfly.placeholder].
  destruct (Dragonfly.lt (Dragonfly.neg (Dragonfly.val q)) Dragonfly.PosInf).
  - cbn [app]. now rewrite last_cost_final.
  - cbn [app]. now rewrite last_cons_default, last_cost_final.
Qed.

Lemma sorted_map_entries (r : list (Dragonfly.qinfo point)) :
  StronglySorted
    (fun a b => Dragonfly.lt (cost_of b) (cost_of a) = true) r ->
  StronglySorted (@Dragonfly.cheaper json_point) (map entry_of r).
Proof.
  induction 1 as [|a l Hs IH Hf]; cbn [map]; constructor; [exact IH|].
  apply Forall_map. eapply Forall_impl; [|exact Hf].
  intros b Hb. exact Hb.
Qed.

Lemma trajectory_facts (qinfos : list (Dragonfly.qinfo point)) :
  let t :=
    Dragonfly.placeholder json_point qinfos
      ++ map entry_of (Dragonfly.records Dragonfly.PosInf qinfos) in
  StronglySorted (@Dragonfly.cheaper json_point) t
  /\ (length t <= length qinfos)%nat
  /\ (qinfos <> [] -> t <> [])
  /\ (forall q, In q qinfos -> Dragonfly.val q <> Dragonfly.Nan ->
        Dragonfly.le (Dragonfly.cost (last t (Dragonfly.initial _)))
          (cost_of q) = true).
Proof.
  cbv zeta.
  destruct (records_facts qinfos Dragonfly.PosInf) as (Hf & Hs & Hl & Hm);
    [discriminate|].
  cbv zeta in Hf, Hs, Hm.
  split; [|split; [|split]].
  - destruct qinfos as [|q rest]; [constructor|].
    cbn [Dragonfly.placeholder].
    destruct (Dragonfly.lt (Dragonfly.neg (Dragonfly.val q))
                Dragonfly.PosInf); cbn [app].
    + now apply sorted_map_entries.
    + constructor; [now apply sorted_map_entries|].
      apply Forall_map. exact Hf.
  - rewrite length_app, length_map.
    destruct qinfos as [|q rest]; [simpl; lia|].
    cbn [Dragonfly.placeholder Dragonfly.records].
    destruct (Dragonfly.lt (Dragonfly.neg (Dragonfly.val q))
                Dragonfly.PosInf); cbn [length].
    + pose proof (records_length rest (Dragonfly.neg (Dragonfly.val q))).
      lia.
    + pose proof (records_length rest Dragonfly.PosInf). lia.
  - destruct qinfos as [|q rest]; [congruence|]. intros _.
    cbn [Dragonfly.placeholder Dragonfly.records].
    destruct (Dragonfly.lt (Dragonfly.neg (Dragonfly.val q))
                Dragonfly.PosInf); cbn [app map]; discriminate.
  - intros q Hq Hn. rewrite last_cost_trajectory. now apply Hm.
Qed.
End TrajectoryFacts.

(** X9. The entries written to the trajectory file are, in the order of
    the queries, the entries of exactly those queries whose cost is
    strictly below the cost of every earlier query, preceded by the
    initial incumbent when the first query does not cost less than
    infinity; the history file, when one is named, receives one entry per
    query in order, and nothing is written to it otherwise. *)
Theorem generate_trajectory_running_minima
  (point json_point : Type) (to_lists : bool -> point -> json_point)
  (qinfos : list (Dragonfly.qinfo point)) (is_cp : bool)
  (history_file : option path) :
  Dragonfly.generate_trajectory to_lists qinfos is_cp history_file
  = (Dragonfly.placeholder json_point qinfos
       ++ map (Dragonfly.entry_of to_lists is_cp)
            (Dragonfly.records Dragonfly.PosInf qinfos),
     match history_file with
     | Some _ => Some (map (Dragonfly.entry_of to_lists is_cp) qinfos)
     | None => None
     end).
Proof.
  unfold Dragonfly.generate_trajectory.
  destruct history_file as [f|].
  - destruct (fold_step_initial _ _ to_lists is_cp true qinfos) as [Ht Hr].
    cbv zeta in Ht, Hr. now rewrite Ht, Hr.
  - destruct (fold_step_initial _ _ to_lists is_cp false qinfos) as [Ht Hr].
    cbv zeta in Ht, Hr. now rewrite Ht.
Qed.

Lemma generate_trajectory_fst
  (point json_point : Type) (to_lists : bool -> point -> json_point)
  (qinfos : list (Dragonfly.qinfo point)) (is_cp : bool)
  (history_file : option path) :
  fst (Dragonfly.generate_trajectory to_lists qinfos is_cp history_file)
  = Dragonfly.placeholder json_point qinfos
      ++ map (Dragonfly.entry_of to_lists is_cp)
           (Dragonfly.records Dragonfly.PosInf qinfos).
Proof.
  unfold Dragonfly.generate_trajectory. cbn [fst].
  exact (proj1 (fold_step_initial _ _ to_lists is_cp _ qinfos)).
Qed.

(** X10. The costs of the trajectory written for a history strictly
    decrease from entry to entry; the trajectory has at most one entry per
    query, and it is empty only for a history without queries. *)
Theorem generate_trajectory_strictly_improves
  (point json_point : Type) (to_lists : bool -> point -> json_point)
  (qinfos : list (Dragonfly.qinfo point)) (is_cp : bool)
  (history_file : option path) :
  let t :=
    fst (Dragonfly.generate_trajectory to_lists qinfos is_cp history_file) in
  StronglySorted (@Dragonfly.cheaper json_point) t
  /\ (length t <= length qinfos)%nat
  /\ (t = [] <-> qinfos = []).
Proof.
  cbv zeta. rewrite generate_trajectory_fst.
  destruct (trajectory_facts _ _ to_lists is_cp qinfos)
    as (Hs & Hl & He & _).
  split; [exact Hs|]. split; [exact Hl|]. split.
  - intros E. destruct qinfos as [|q rest]; [reflexivity|].
    exfalso. apply He; [discriminate|exact E].
  - intros ->. reflexivity.
Qed.

(** X11. The last entry of the trajectory costs no more than any query of
    the history whose value is a number or an infinity; queries without a
    value (NaN) are passed over. *)
Theorem generate_trajectory_ends_at_minimum
  (point json_point : Type) (to_lists : bool -> point -> json_point)
  (qinfos : list (Dragonfly.qinfo point)) (is_cp : bool)
  (history_file : option path) (q : Dragonfly.qinfo point) :
  In q qinfos ->
  Dragonfly.val q <> Dragonfly.Nan ->
  Dragonfly.le
    (Dragonfly.cost
       (last
          (fst (Dragonfly.generate_trajectory to_lists qinfos is_cp
                  history_file))
          (Dragonfly.initial json_point)))
    (Dragonfly.neg (Dragonfly.val q)) = true.
Proof.
  intros Hq Hn. rewrite generate_trajectory_fst.
  destruct (trajectory_facts _ _ to_lists is_cp qinfos)
    as (_ & _ & _ & Hm).
  now apply Hm.
Qed.

Lemma generate_trajectory_ends_at_minimum_witness :
  In (sample_query (Dragonfly.Num (-1)) 4) sample_history
  /\ Dragonfly.val (sample_query (Dragonfly.Num (-1)) 4) <> Dragonfly.Nan
  /\ Dragonfly.le
       (Dragonfly.cost
          (last
             (fst (Dragonfly.generate_trajectory (fun _ p => p)
                     sample_history false None))
             (Dragonfly.initial (list Q))))
       (Dragonfly.neg (Dragonfly.val (sample_query (Dragonfly.Num (-1)) 4)))
     = true.
Proof.
  assert (Hin : In (sample_query (Dragonfly.Num (-1)) 4) sample_history)
    by (simpl; auto).
  assert (Hn : Dragonfly.val (sample_query (Dragonfly.Num (-1)) 4)
               <> Dragonfly.Nan) by discriminate.
  split; [exact Hin|]. split; [exact Hn|].
  exact (generate_trajectory_ends_at_minimum _ _ (fun _ p => p)
           sample_history false None _ Hin Hn).
Defined.

Lemma not_below_infinity (v : Dragonfly.float) :
  Dragonfly.lt (Dragonfly.neg v) Dragonfly.PosInf = false
  <-> v = Dragonfly.NegInf \/ v = Dragonfly.Nan.
Proof.
  destruct v; simpl; split; intros H; try discriminate; auto;
    destruct H; discriminate.
Qed.

(** X12. The initial incumbent, an entry of infinite cost without a
    configuration, is written exactly when the history starts with a query
    whose value is minus infinity or NaN, and then it is the first entry;
    every other entry of the trajectory is the entry of a query of the
    history. *)
Theorem generate_trajectory_placeholder
  (point json_point : Type) (to_lists : bool -> point -> json_point)
  (qinfos : list (Dragonfly.qinfo point)) (is_cp : bool)
  (history_file : option path) :
  let t :=
    fst (Dragonfly.generate_trajectory to_lists qinfos is_cp history_file) in
  (In (Dragonfly.initial json_point) t
   <-> exists q rest,
         qinfos = q :: rest
         /\ (Dragonfly.val q = Dragonfly.NegInf
             \/ Dragonfly.val q = Dragonfly.Nan))
  /\ (In (Dragonfly.initial json_point) t ->
      hd_error t = Some (Dragonfly.initial json_point))
  /\ (forall e, In e t ->
        e = Dragonfly.initial json_point
        \/ exists q, In q qinfos /\ e = Dragonfly.entry_of to_lists is_cp q).
Proof.
  cbv zeta. rewrite generate_trajectory_fst.
  assert (Hmap : forall l,
             ~ In (Dragonfly.initial json_point)
                 (map (Dragonfly.entry_of to_lists is_cp) l)).
  { intros l F. apply in_map_iff in F. destruct F as (q & F & _).
    apply (f_equal (@Dragonfly.incumbent json_point)) in F.
    discriminate F. }
  split; [|split].
  - split.
    + intros H. apply in_app_or in H. destruct H as [H|H];
        [|now apply Hmap in H].
      destruct qinfos as [|q rest]; [destruct H|].
      exists q, rest. split; [reflexivity|].
      apply not_below_infinity.
      cbn [Dragonfly.placeholder] in H.
      destruct (Dragonfly.lt (Dragonfly.neg (Dragonfly.val q))
                  Dragonfly.PosInf); [destruct H|reflexivity].
    + intros (q & rest & -> & H). apply not_below_infinity in H.
      cbn [Dragonfly.placeholder]. rewrite H. now left.
  - intros H. apply in_app_or in H. destruct H as [H|H];
      [|now apply Hmap in H].
    destruct qinfos as [|q rest]; [destruct H|].
    cbn [Dragonfly.placeholder] in *.
    destruct (Dragonfly.lt (Dragonfly.neg (Dragonfly.val q))
                Dragonfly.PosInf); [destruct H|reflexivity].
  - intros e H. apply in_app_or in H. destruct H as [H|H].
    + left. destruct qinfos as [|q rest]; [destruct H|].
      cbn [Dragonfly.placeholder] in H.
      destruct (Dragonfly.lt (Dragonfly.neg (Dragonfly.val q))
                  Dragonfly.PosInf); [destruct H|].
      destruct H as [<-|[]]. reflexivity.
    + right. apply in_map_iff in H. destruct H as (q & <- & Hq).
      exists q. split; [|reflexivity]. now apply (records_In _ _ _ _ Hq).
Qed.

(* ================================================================== *)
(** * The command files *)
(* ================================================================== *)

Lemma chunk_limit_pos : (0 < chunk_limit)%nat.
Proof. apply Nat.ltb_lt. reflexivity. Qed.

Lemma chunks_step n :
  (chunk_limit < n)%nat ->
  ((n - 1) / chunk_limit = S ((n - chunk_limit - 1) / chunk_limit))%nat.
Proof.
  intros H. pose proof chunk_limit_pos as P.
  replace (n - 1)%nat with ((n - chunk_limit - 1) + 1 * chunk_limit)%nat
    by lia.
  rewrite Nat.div_add by lia. lia.
Qed.

Lemma chunks_none n :
  (n <= chunk_limit)%nat -> ((n - 1) / chunk_limit = 0)%nat.
Proof.
  intros H. pose proof chunk_limit_pos as P.
  apply Nat.div_small. lia.
Qed.

Lemma write_cmd_fuel_small fuel cmd_list out_fl :
  (length cmd_list <= chunk_limit)%nat ->
  write_cmd_fuel (S fuel) cmd_list out_fl
  = Some [(out_fl, String.concat newline cmd_list)].
Proof.
  intros H. cbn [write_cmd_fuel].
  destruct (Nat.ltb_spec chunk_limit (length cmd_list)); [lia|reflexivity].
Qed.

Lemma write_cmd_while_files out_fl fuel :
  forall ct cmd_list,
    (length cmd_list < fuel)%nat ->
    write_cmd_while fuel ct cmd_list out_fl
    = Some (map (fun i =>
                   (String.append out_fl
                      (String.append "_" (percent_d (ct + i))),
                    String.concat newline (chunk cmd_list i)))
              (seq 0 (chunks_before_tail cmd_list))).
Proof.
  pose proof chunk_limit_pos as P.
  induction fuel as [|fuel IH]; intros ct cmd_list H; [lia|].
  cbn [write_cmd_while]. unfold chunks_before_tail.
  destruct (Nat.ltb_spec chunk_limit (length cmd_list)) as [L|L].
  - destruct fuel as [|fuel']; [lia|].
    rewrite write_cmd_fuel_small
      by (rewrite length_firstn; lia).
    rewrite IH by (rewrite length_skipn; lia).
    rewrite (chunks_step _ L). cbn [seq map app].
    unfold chunks_before_tail. rewrite length_skipn.
    f_equal. f_equal.
    + unfold chunk. now rewrite Nat.add_0_r.
    + rewrite <- seq_shift, map_map. apply map_ext. intros i.
      unfold chunk. rewrite skipn_skipn.
      replace (ct + S i)%nat with (S ct + i)%nat by lia.
      replace (i * chunk_limit + chunk_limit)%nat
        with (S i * chunk_limit)%nat by lia.
      reflexivity.
  - now rewrite (chunks_none _ L).
Qed.

(** X13. [write_cmd] always returns.  A list of at most 10000 commands is
    written to [out_fl] as a whole.  A longer list is written to the files
    [out_fl_0], [out_fl_1], ... of 10000 commands each, as many as there
    are full chunks followed by at least one more command. *)
Theorem write_cmd_files (cmd_list : list string) (out_fl : string) :
  write_cmd cmd_list out_fl
  = Some (if Nat.leb (length cmd_list) chunk_limit
          then [(out_fl, String.concat newline cmd_list)]
          else map (fun i =>
                      (String.append out_fl
                         (String.append "_" (percent_d i)),
                       String.concat newline (chunk cmd_list i)))
                 (seq 0 (chunks_before_tail cmd_list))).
Proof.
  unfold write_cmd.
  destruct (Nat.leb_spec (length cmd_list) chunk_limit) as [L|L].
  - now apply write_cmd_fuel_small.
  - cbn [write_cmd_fuel].
    destruct (Nat.ltb_spec chunk_limit (length cmd_list)); [|lia].
    rewrite write_cmd_while_files by lia. reflexivity.
Qed.

Lemma string_length_append (a b : string) :
  String.length (String.append a b) = (String.length a + String.length b)%nat.
Proof. induction a as [|c a IH]; simpl; [reflexivity|now rewrite IH]. Qed.

Lemma firstn_add {A : Type} (a b : nat) :
  forall l : list A, firstn (a + b) l = firstn a l ++ firstn b (skipn a l).
Proof.
  induction a as [|a IH]; intros l; [reflexivity|].
  destruct l as [|x l]; simpl.
  - now rewrite firstn_nil.
  - now rewrite IH.
Qed.

Lemma concat_chunks (cmd_list : list string) (k : nat) :
  concat (map (chunk cmd_list) (seq 0 k)) = firstn (k * chunk_limit) cmd_list.
Proof.
  induction k as [|k IH]; [reflexivity|].
  rewrite seq_S, map_app, concat_app, IH. cbn [map concat plus].
  rewrite app_nil_r. unfold chunk.
  replace (S k * chunk_limit)%nat with (k * chunk_limit + chunk_limit)%nat
    by lia.
  now rewrite firstn_add.
Qed.

Lemma tail_bounds n :
  (chunk_limit < n)%nat ->
  (1 <= (n - 1) / chunk_limit
   /\ 1 <= n - (n - 1) / chunk_limit * chunk_limit <= chunk_limit)%nat.
Proof.
  intros H. pose proof chunk_limit_pos as P.
  pose proof (Nat.div_mod (n - 1) chunk_limit ltac:(lia)) as D.
  pose proof (Nat.mod_upper_bound (n - 1) chunk_limit ltac:(lia)) as U.
  rewrite (chunks_step _ H) in *.
  set (q := ((n - chunk_limit - 1) / chunk_limit)%nat) in *.
  set (r := ((n - 1) mod chunk_limit)%nat) in *.
  split; [lia|].
  replace (S q * chunk_limit)%nat with (chunk_limit * S q)%nat by lia.
  lia.
Qed.

(** X14. Of a list of more than 10000 commands [write_cmd] writes only the
    full chunks that are followed by at least one more command: the files
    [out_fl_0], ..., [out_fl_(k-1)] hold 10000 commands each, together the
    first [k * 10000] commands; the commands after them, between 1 and
    10000, reach no file, and no file is named [out_fl]. *)
Theorem write_cmd_drops_tail (cmd_list : list string) (out_fl : string) :
  (chunk_limit < length cmd_list)%nat ->
  let k := chunks_before_tail cmd_list in
  let name i := String.append out_fl (String.append "_" (percent_d i)) in
  write_cmd cmd_list out_fl
  = Some (map (fun i => (name i, String.concat newline (chunk cmd_list i)))
            (seq 0 k))
  /\ (1 <= k)%nat
  /\ (forall i, (i < k)%nat -> length (chunk cmd_list i) = chunk_limit)
  /\ concat (map (chunk cmd_list) (seq 0 k))
       ++ skipn (k * chunk_limit) cmd_list = cmd_list
  /\ (1 <= length (skipn (k * chunk_limit) cmd_list) <= chunk_limit)%nat
  /\ (forall i, name i <> out_fl).
Proof.
  intros H. cbv zeta.
  destruct (tail_bounds _ H) as [K T].
  fold (chunks_before_tail cmd_list) in K, T.
  split; [|split; [exact K|split; [|split; [|split]]]].
  - unfold write_cmd. cbn [write_cmd_fuel].
    destruct (Nat.ltb_spec chunk_limit (length cmd_list)); [|lia].
    rewrite write_cmd_while_files by lia. reflexivity.
  - intros i Hi. unfold chunk. rewrite length_firstn, length_skipn.
    assert (S i * chunk_limit <= chunks_before_tail cmd_list * chunk_limit)%nat
      by (apply Nat.mul_le_mono_r; lia).
    lia.
  - rewrite concat_chunks. apply firstn_skipn.
  - rewrite length_skipn. exact T.
  - intros i F. apply (f_equal String.length) in F.
    rewrite !string_length_append in F. simpl in F. lia.
Qed.

Lemma write_cmd_drops_tail_witness :
  (chunk_limit < length sample_cmds)%nat
  /\ (1 <= length (skipn (chunks_before_tail sample_cmds * chunk_limit)
                     sample_cmds) <= chunk_limit)%nat.
Proof.
  assert (H : (chunk_limit < length sample_cmds)%nat).
  { unfold sample_cmds. rewrite repeat_length. apply Nat.lt_succ_diag_r. }
  split; [exact H|].
  destruct (write_cmd_drops_tail sample_cmds "run.cmd" H)
    as (_ & _ & _ & _ & T & _).
  exact T.
Defined.

(* ================================================================== *)
(** * The correlation table *)
(* ================================================================== *)

Lemma comprehension_map_total {A B : Type} (f : A -> result B)
  (g : A -> B) l :
  (forall x, In x l -> f x = Ok (g x)) ->
  comprehension f l = Ok (map g l).
Proof.
  induction l as [|x l IH]; intros H; [reflexivity|].
  cbn [comprehension map]. rewrite (H x (or_introl eq_refl)).
  rewrite IH by (intros y Hy; apply H; now right). reflexivity.
Qed.

Lemma fold_result_total {A S : Type} (f : S -> A -> result S)
  (g : S -> A -> S) l :
  (forall s x, In x l -> f s x = Ok (g s x)) ->
  forall s, fold_result f l s = Ok (fold_left g l s).
Proof.
  induction l as [|x l IH]; intros H s; [reflexivity|].
  cbn [fold_result fold_left]. rewrite (H s x (or_introl eq_refl)).
  cbn [bind]. apply IH. intros s' y Hy. apply H. now right.
Qed.

Lemma fold_left_flat_map {A B C : Type} (f : C -> B -> C) (g : A -> list B)
  l :
  forall c,
    fold_left f (flat_map g l) c
    = fold_left (fun c x => fold_left f (g x) c) l c.
Proof.
  induction l as [|x l IH]; intros c; [reflexivity|].
  cbn [flat_map fold_left]. now rewrite fold_left_app, IH.
Qed.

Lemma fold_left_map {A B C : Type} (f : C -> B -> C) (h : A -> B) l :
  forall c, fold_left f (map h l) c = fold_left (fun c x => f c (h x)) l c.
Proof.
  induction l as [|x l IH]; intros c; [reflexivity|].
  cbn [map fold_left]. apply IH.
Qed.

(** ** Dictionaries whose keys are compared by an equivalence *)

Section DictEquiv.
Variables (K V : Type) (eqb : K -> K -> bool).
Hypothesis eqb_refl : forall k, eqb k k = true.
Hypothesis eqb_right :
  forall k k1 k2, eqb k1 k2 = true -> eqb k k1 = eqb k k2.
Hypothesis eqb_left :
  forall k k1 k2, eqb k1 k2 = true -> eqb k1 k = eqb k2 k.

Lemma dict_get_set_equiv k k' (v : V) d :
  dict_get eqb k (dict_set eqb k' v d)
  = if eqb k k' then Some v else dict_get eqb k d.
Proof.
  induction d as [|[k2 v2] d IH]; cbn [dict_set dict_get]; [reflexivity|].
  destruct (eqb k' k2) eqn:E; cbn [dict_get].
  - rewrite (eqb_right k _ _ E). now destruct (eqb k k2).
  - rewrite IH. destruct (eqb k k') eqn:E1; [|reflexivity].
    rewrite (eqb_left k2 _ _ E1), E. reflexivity.
Qed.

Lemma dict_get_fold_set (val : K -> V) ks :
  (forall k k', eqb k k' = true -> val k' = val k) ->
  forall k d,
    dict_get eqb k
      (fold_left (fun d k' => dict_set eqb k' (val k') d) ks d)
    = if existsb (eqb k) ks then Some (val k) else dict_get eqb k d.
Proof.
  intros Hval. induction ks as [|k1 ks IH]; intros k d; [reflexivity|].
  cbn [fold_left existsb]. rewrite IH, dict_get_set_equiv.
  destruct (existsb (eqb k) ks); [now rewrite orb_true_r|].
  rewrite orb_false_r. destruct (eqb k k1) eqn:E; [|reflexivity].
  now rewrite (Hval _ _ E).
Qed.

Lemma dict_set_absent k (v : V) d :
  dict_get eqb k d = None -> dict_set eqb k v d = d ++ [(k, v)].
Proof.
  induction d as [|[k2 v2] d IH]; cbn [dict_set dict_get app];
    [reflexivity|].
  destruct (eqb k k2); [discriminate|]. intros H. now rewrite IH.
Qed.

Lemma dict_get_app_absent k (v : V) d :
  dict_get eqb k d = None -> dict_get eqb k (d ++ [(k, v)]) = Some v.
Proof.
  induction d as [|[k2 v2] d IH]; cbn [dict_get app].
  - now rewrite eqb_refl.
  - destruct (eqb k k2); [discriminate|]. exact IH.
Qed.

Lemma dict_set_app_absent k (v w : V) d :
  dict_get eqb k d = None ->
  dict_set eqb k w (d ++ [(k, v)]) = d ++ [(k, w)].
Proof.
  induction d as [|[k2 v2] d IH]; cbn [dict_set dict_get app].
  - now rewrite eqb_refl.
  - destruct (eqb k k2); [discriminate|]. intros H. now rewrite IH.
Qed.
End DictEquiv.

Lemma Qeq_bool_right k k1 k2 :
  Qeq_bool k1 k2 = true -> Qeq_bool k k1 = Qeq_bool k k2.
Proof.
  intros H. apply Qeq_bool_iff in H. now rewrite H.
Qed.

Lemma Qeq_bool_left k k1 k2 :
  Qeq_bool k1 k2 = true -> Qeq_bool k1 k = Qeq_bool k2 k.
Proof.
  intros H. apply Qeq_bool_iff in H. now rewrite H.
Qed.

Lemma dict_get_Qeq {V : Type} f f' (d : dict Q V) :
  Qeq_bool f f' = true -> dict_get Qeq_bool f d = dict_get Qeq_bool f' d.
Proof.
  intros H. induction d as [|[k v] d IH]; cbn [dict_get]; [reflexivity|].
  now rewrite (Qeq_bool_left k _ _ H), IH.
Qed.

Lemma dict_get_None_Qred {V : Type} f (d : dict Q V) :
  ~ In (Qred f) (map Qred (keys d)) -> dict_get Qeq_bool f d = None.
Proof.
  induction d as [|[k v] d IH]; cbn [dict_get keys map]; [reflexivity|].
  intros H. destruct (Qeq_bool f k) eqn:E.
  - exfalso. apply H. left. symmetry. apply Qred_complete.
    now apply Qeq_bool_iff.
  - apply IH. intros F. apply H. now right.
Qed.

(** ** Enumerations and sets *)

Lemma In_combine_seq {A : Type} (l : list A) :
  forall a i x,
    In (i, x) (combine (seq a (length l)) l)
    <-> (a <= i)%nat /\ nth_error l (i - a) = Some x.
Proof.
  induction l as [|y l IH]; intros a i x; cbn [length seq combine In].
  - split; [intros []|]. intros [_ H]. destruct (i - a)%nat; discriminate.
  - rewrite IH. split.
    + intros [E|[H1 H2]].
      * inversion E; subst. rewrite Nat.sub_diag. split; [lia|reflexivity].
      * split; [lia|]. replace (i - a)%nat with (S (i - S a)) by lia.
        exact H2.
    + intros [H1 H2]. destruct (Nat.eq_dec a i) as [->|Hne].
      * left. rewrite Nat.sub_diag in H2. now inversion H2.
      * right. split; [lia|].
        replace (i - a)%nat with (S (i - S a)) in H2 by lia. exact H2.
Qed.

Lemma In_enumerate {A : Type} (l : list A) i x :
  In (i, x) (enumerate l) <-> nth_error l i = Some x.
Proof.
  unfold enumerate. rewrite In_combine_seq, Nat.sub_0_r.
  split; [now intros [_ H]|]. intros H. split; [lia|exact H].
Qed.

Lemma map_snd_combine_seq {A : Type} (l : list A) :
  forall a, map snd (combine (seq a (length l)) l) = l.
Proof.
  induction l as [|y l IH]; intros a; [reflexivity|].
  cbn [length seq combine map snd]. now rewrite IH.
Qed.

Lemma map_snd_enumerate {A : Type} (l : list A) :
  map snd (enumerate l) = l.
Proof. apply map_snd_combine_seq. Qed.

Lemma length_enumerate {A : Type} (l : list A) :
  length (enumerate l) = length l.
Proof.
  rewrite <- (map_snd_enumerate l) at 2. now rewrite length_map.
Qed.

Lemma nth_error_removelast {A : Type} (l : list A) i x :
  nth_error (removelast l) i = Some x -> nth_error l i = Some x.
Proof.
  rewrite removelast_firstn_len, nth_error_firstn.
  now destruct (i <? Nat.pred (length l))%nat.
Qed.

Lemma set_add_NoDup x s :
  NoDup (map Qred s) -> NoDup (map Qred (set_add x s)).
Proof.
  intros H. unfold set_add. destruct (existsb (Qeq_bool x) s) eqn:E;
    [exact H|].
  rewrite map_app. cbn [map]. apply NoDup_app; [exact H|repeat constructor;
    intros []|].
  intros a Ha [<-|[]]. apply in_map_iff in Ha. destruct Ha as (y & Hy & Hin).
  assert (F : existsb (Qeq_bool x) s = true).
  { apply existsb_exists. exists y. split; [exact Hin|].
    apply Qeq_bool_iff. symmetry. now apply Qred_eq_iff. }
  congruence.
Qed.

Lemma py_set_NoDup l : NoDup (map Qred (py_set l)).
Proof.
  unfold py_set.
  assert (H : forall s, NoDup (map Qred s) ->
                NoDup (map Qred (fold_left (fun s x => set_add x s) l s))).
  { induction l as [|x l IH]; intros s Hs; [exact Hs|].
    cbn [fold_left]. apply IH. now apply set_add_NoDup. }
  apply H. constructor.
Qed.

(** ** The entries of [cors] *)

Section CorrelationFacts.
Variable coefficient : Type.
Variable spearmanr : list Q -> list Q -> coefficient.
Variable format_cell : coefficient -> nat -> string.
Variable conf_dc : conf_table.

Let value (k : Q * Q) : coefficient * nat :=
  correlation_of spearmanr conf_dc (fst k) (snd k).

(** The keys of [cors] in the order in which the loops set them. *)
Let pairs (f_set : list Q) : list (Q * Q) :=
  flat_map (fun e => map (pair (snd e)) (skipn (fst e + 1) f_set))
    (enumerate f_set).

Lemma pair_eqb_refl k : pair_eqb k k = true.
Proof. unfold pair_eqb. now rewrite !Qeq_bool_refl. Qed.

Lemma pair_eqb_right k k1 k2 :
  pair_eqb k1 k2 = true -> pair_eqb k k1 = pair_eqb k k2.
Proof.
  unfold pair_eqb. intros H. apply andb_prop in H. destruct H as [H1 H2].
  now rewrite (Qeq_bool_right _ _ _ H1), (Qeq_bool_right _ _ _ H2).
Qed.

Lemma pair_eqb_left k k1 k2 :
  pair_eqb k1 k2 = true -> pair_eqb k1 k = pair_eqb k2 k.
Proof.
  unfold pair_eqb. intros H. apply andb_prop in H. destruct H as [H1 H2].
  now rewrite (Qeq_bool_left _ _ _ H1), (Qeq_bool_left _ _ _ H2).
Qed.

Lemma common_Qeq f1 f2 g1 g2 :
  Qeq_bool f1 g1 = true -> Qeq_bool f2 g2 = true ->
  common conf_dc f1 f2 = common conf_dc g1 g2.
Proof.
  intros H1 H2. unfold common. generalize (@nil Q, @nil Q).
  induction conf_dc as [|c l IH]; intros ab; [reflexivity|].
  cbn [fold_left].
  rewrite (dict_get_Qeq _ _ (snd c) H1), (dict_get_Qeq _ _ (snd c) H2).
  apply IH.
Qed.

Lemma value_pair_eqb k k' : pair_eqb k k' = true -> value k' = value k.
Proof.
  unfold pair_eqb. intros H. apply andb_prop in H. destruct H as [H1 H2].
  unfold value, correlation_of.
  now rewrite (common_Qeq _ _ _ _ H1 H2).
Qed.

Lemma correlations_pairs f_set :
  correlations spearmanr conf_dc f_set
  = fold_left (fun cors k => dict_set pair_eqb k (value k) cors)
      (pairs f_set) [].
Proof.
  unfold correlations, pairs. rewrite fold_left_flat_map.
  generalize (@nil (Q * Q * (coefficient * nat))).
  induction (enumerate f_set) as [|e es IH]; intros cors; [reflexivity|].
  cbn [fold_left]. rewrite fold_left_map. apply IH.
Qed.

Lemma cors_getitem_pair f_set f1 f2 :
  In (f1, f2) (pairs f_set) ->
  cors_getitem (correlations spearmanr conf_dc f_set) f1 f2
  = Ok (correlation_of spearmanr conf_dc f1 f2).
Proof.
  intros H. unfold cors_getitem. rewrite correlations_pairs.
  rewrite (dict_get_fold_set _ _ pair_eqb pair_eqb_right pair_eqb_left
             value _ value_pair_eqb).
  replace (existsb (pair_eqb (f1, f2)) (pairs f_set)) with true;
    [reflexivity|].
  symmetry. apply existsb_exists. exists (f1, f2).
  split; [exact H|apply pair_eqb_refl].
Qed.

Lemma pairs_after f_set i f1 f2 :
  nth_error f_set i = Some f1 ->
  In f2 (skipn (i + 1) f_set) ->
  In (f1, f2) (pairs f_set).
Proof.
  intros H1 H2. unfold pairs. apply in_flat_map. exists (i, f1).
  split; [now apply In_enumerate|]. cbn [fst snd]. now apply in_map.
Qed.

Lemma pairs_indices f_set i j f1 f2 :
  nth_error f_set i = Some f1 ->
  nth_error f_set j = Some f2 ->
  (i < j)%nat ->
  In (f1, f2) (pairs f_set).
Proof.
  intros H1 H2 L. apply (pairs_after _ i); [exact H1|].
  apply (nth_error_In _ (j - (i + 1))).
  rewrite nth_error_skipn. now replace (i + 1 + (j - (i + 1)))%nat with j
    by lia.
Qed.

(** ** The plotted points *)

Lemma scattered_points f_set :
  scattered f_set (correlations spearmanr conf_dc f_set)
  = Ok (map (fun e =>
               (skipn (fst e + 1) f_set,
                map (fun f1 =>
                       fst (correlation_of spearmanr conf_dc (snd e) f1))
                  (skipn (fst e + 1) f_set),
                snd e))
          (enumerate f_set)).
Proof.
  unfold scattered. apply comprehension_map_total.
  intros [i f] He. cbn [fst snd]. apply In_enumerate in He.
  rewrite (comprehension_map_total _
             (fun f1 => fst (correlation_of spearmanr conf_dc f f1))).
  - reflexivity.
  - intros f1 H1. now rewrite (cors_getitem_pair _ _ _
                                 (pairs_after _ _ _ _ He H1)).
Qed.

(** ** The columns of the table *)

Let cell (e1 e2 : nat * Q) : string :=
  if Nat.leb (fst e2) (fst e1)
  then "-"
  else
    let c := correlation_of spearmanr conf_dc (snd e1) (snd e2) in
    format_cell (fst c) (snd c).

Lemma append_cells f1 cells :
  forall column df,
    dict_get Qeq_bool f1 df = None ->
    fold_left (fun df s => append_cell f1 s df) cells
      (df ++ [(f1, column)])
    = df ++ [(f1, column ++ cells)].
Proof.
  induction cells as [|s cells IH]; intros column df H.
  - now rewrite app_nil_r.
  - cbn [fold_left]. unfold append_cell at 2.
    rewrite (dict_get_app_absent _ _ Qeq_bool Qeq_bool_refl _ _ _ H).
    rewrite (dict_set_app_absent _ _ Qeq_bool Qeq_bool_refl _ _ _ _ H).
    rewrite IH by exact H. now rewrite <- app_assoc.
Qed.

Lemma append_cells_new f1 cells df :
  dict_get Qeq_bool f1 df = None ->
  cells <> [] ->
  fold_left (fun df s => append_cell f1 s df) cells df
  = df ++ [(f1, cells)].
Proof.
  intros H Hc. destruct cells as [|s cells]; [congruence|].
  cbn [fold_left]. unfold append_cell at 2. rewrite H.
  rewrite (dict_set_absent _ _ Qeq_bool _ _ _ H).
  now rewrite append_cells.
Qed.

Lemma correlation_column f_set e1 df :
  In e1 (enumerate (removelast f_set)) ->
  dict_get Qeq_bool (snd e1) df = None ->
  fold_result
    (fun df e2 =>
       if Nat.leb (fst e2) (fst e1)
       then Ok (append_cell (snd e1) "-" df)
       else
         c <- cors_getitem (correlations spearmanr conf_dc f_set)
                (snd e1) (snd e2) ;;
         Ok (append_cell (snd e1) (format_cell (fst c) (snd c)) df))
    (enumerate f_set) df
  = Ok (df ++ [(snd e1, map (cell e1) (enumerate f_set))]).
Proof.
  intros He Hd. destruct e1 as [i f1]. cbn [fst snd] in *.
  apply In_enumerate in He. pose proof (nth_error_removelast _ _ _ He) as Hi.
  rewrite (fold_result_total _
             (fun df e2 => append_cell f1 (cell (i, f1) e2) df)).
  - rewrite <- (fold_left_map (fun df s => append_cell f1 s df)
                  (cell (i, f1))).
    rewrite append_cells_new; [reflexivity|exact Hd|].
    intros F. apply (f_equal (@length string)) in F.
    rewrite length_map, length_enumerate in F.
    apply nth_error_In in Hi. destruct f_set; [destruct Hi|discriminate].
  - intros s [j f2] H2. unfold cell. cbn [fst snd].
    destruct (Nat.leb_spec j i) as [L|L]; [reflexivity|].
    apply In_enumerate in H2.
    rewrite (cors_getitem_pair _ _ _ (pairs_indices _ _ _ _ _ Hi H2 L)).
    reflexivity.
Qed.

Lemma correlation_columns_from f_set es :
  forall df,
    (forall e, In e es -> In e (enumerate (removelast f_set))) ->
    NoDup (map Qred (keys df ++ map snd es)) ->
    fold_result
      (fun df e1 =>
         fold_result
           (fun df e2 =>
              if Nat.leb (fst e2) (fst e1)
              then Ok (append_cell (snd e1) "-" df)
              else
                c <- cors_getitem (correlations spearmanr conf_dc f_set)
                       (snd e1) (snd e2) ;;
                Ok (append_cell (snd e1) (format_cell (fst c) (snd c)) df))
           (enumerate f_set) df)
      es df
    = Ok (df ++ map (fun e1 => (snd e1, map (cell e1) (enumerate f_set)))
                  es).
Proof.
  induction es as [|e1 es IH]; intros df Hin Hn.
  - cbn [fold_result map]. now rewrite app_nil_r.
  - cbn [fold_result]. rewrite correlation_column.
    + cbn [bind]. rewrite IH.
      * cbn [map]. now rewrite <- app_assoc.
      * intros e He. apply Hin. now right.
      * unfold keys in *. rewrite !map_app in *. cbn [map fst snd] in *.
        rewrite <- app_assoc. exact Hn.
    + apply Hin. now left.
    + apply dict_get_None_Qred. rewrite map_app in Hn. cbn [map] in Hn.
      apply NoDup_remove_2 in Hn. intros F. apply Hn.
      apply in_or_app. now left.
Qed.

Lemma correlation_columns_distinct f_set :
  NoDup (map Qred f_set) ->
  correlation_columns format_cell f_set
    (correlations spearmanr conf_dc f_set)
  = Ok (map (fun e1 => (snd e1, map (cell e1) (enumerate f_set)))
          (enumerate (removelast f_set))).
Proof.
  intros Hn. unfold correlation_columns.
  rewrite correlation_columns_from; [reflexivity|auto|].
  cbn [keys map app]. rewrite map_snd_enumerate.
  destruct f_set as [|f l]; [constructor|].
  rewrite (app_removelast_last f (l := f :: l)) in Hn by discriminate.
  rewrite map_app in Hn. now apply NoDup_app_remove_r in Hn.
Qed.

Lemma indexed_frame_columns f_set (es : list (nat * Q)) :
  indexed_frame
    (map (fun e1 => (snd e1, map (cell e1) (enumerate f_set))) es) f_set
  = Ok (map (fun e1 => (snd e1, map (cell e1) (enumerate f_set))) es,
        f_set).
Proof.
  unfold indexed_frame.
  replace (forallb _ _) with true; [reflexivity|].
  symmetry. apply forallb_forall. intros c Hc.
  apply in_map_iff in Hc. destruct Hc as (e & <- & _). cbn [snd].
  rewrite length_map, length_enumerate. apply Nat.eqb_refl.
Qed.
End CorrelationFacts.

(** X15. Whatever the order in which the set of fidelities is iterated,
    the correlations are plotted and tabulated without an exception: every
    lookup [cors[(f1, f2)]] is made for a fidelity [f2] that comes after
    [f1] and finds the entry computed from the configurations seen on both,
    and every column has one cell per fidelity.  The table has a column
    for each fidelity but the last; its cell in row [j] is ["-"] up to the
    row of the fidelity itself and the formatted correlation below. *)
Theorem correlation_table_complete (coefficient : Type)
  (spearmanr : list Q -> list Q -> coefficient)
  (format_cell : coefficient -> nat -> string)
  (iteration_order : list Q -> list Q)
  (conf_dc : conf_table) (f_list : list Q) :
  let f_set := iteration_order (py_set f_list) in
  Permutation f_set (py_set f_list) ->
  correlation_table spearmanr format_cell iteration_order conf_dc f_list
  = Ok (map (fun e =>
               (skipn (fst e + 1) f_set,
                map (fun f1 =>
                       fst (correlation_of spearmanr conf_dc (snd e) f1))
                  (skipn (fst e + 1) f_set),
                snd e))
          (enumerate f_set),
        (map (fun e1 =>
                (snd e1,
                 map (fun e2 =>
                        if Nat.leb (fst e2) (fst e1)
                        then "-"
                        else
                          let c :=
                            correlation_of spearmanr conf_dc (snd e1)
                              (snd e2) in
                          format_cell (fst c) (snd c))
                   (enumerate f_set)))
           (enumerate (removelast f_set)),
         f_set)).
Proof.
  intros f_set Hp. unfold correlation_table. fold f_set.
  assert (Hn : NoDup (map Qred f_set)).
  { apply (Permutation_NoDup (l := map Qred (py_set f_list))).
    - apply Permutation_map. now apply Permutation_sym.
    - apply py_set_NoDup. }
  rewrite scattered_points. cbn [bind].
  rewrite (correlation_columns_distinct _ spearmanr format_cell conf_dc
             f_set Hn).
  cbn [bind].
  rewrite (indexed_frame_columns _ spearmanr format_cell conf_dc f_set).
  reflexivity.
Qed.

Lemma correlation_table_complete_witness :
  Permutation (py_set [2; 1; 2]) (py_set [2; 1; 2])
  /\ correlation_table (fun a _ => length a) (fun c _ => percent_d c)
       (fun s => s) sample_conf_dc [2; 1; 2]
     = Ok ([([1], [1%nat], 2); ([], [], 1)],
           ([(2, ["-"; "1"])], [2; 1])).
Proof.
  split; [apply Permutation_refl|].
  exact (correlation_table_complete nat (fun a _ => length a)
           (fun c _ => percent_d c) (fun s => s) sample_conf_dc [2; 1; 2]
           (Permutation_refl _)).
Defined.

(* ================================================================== *)
(** * The values behind the table of one benchmark *)
(* ================================================================== *)

Lemma filter_seq_nth {A : Type} (P : A -> bool) (l : list A) :
  forall a,
    length (filter (fun i => match nth_error l (i - a) with
                             | Some x => P x
                             | None => false
                             end)
              (seq a (length l)))
    = length (filter P l).
Proof.
  induction l as [|x l IH]; intros a; [reflexivity|].
  cbn [length seq filter]. rewrite Nat.sub_diag. cbn [nth_error].
  assert (E : filter (fun i => match nth_error (x :: l) (i - a) with
                               | Some y => P y
                               | None => false
                               end)
                (seq (S a) (length l))
              = filter (fun i => match nth_error l (i - S a) with
                                 | Some y => P y
                                 | None => false
                                 end)
                  (seq (S a) (length l))).
  { apply filter_ext_in. intros i Hi. apply in_seq in Hi.
    replace (i - a)%nat with (S (i - S a)) by lia. reflexivity. }
  destruct (P x); cbn [length]; now rewrite E, IH.
Qed.

Lemma NoDup_indices_length {A : Type} (P : A -> bool) (l : list A) ids :
  NoDup ids ->
  (forall i, In i ids
             <-> exists x, nth_error l i = Some x /\ P x = true) ->
  length ids = length (filter P l).
Proof.
  intros Hn Hin. rewrite <- (filter_seq_nth P l 0).
  apply Permutation_length. apply NoDup_Permutation; [exact Hn| |].
  - apply NoDup_filter, seq_NoDup.
  - intros i. rewrite Hin, filter_In, in_seq, Nat.sub_0_r. split.
    + intros (x & Hx & Hp). rewrite Hx. split; [|exact Hp].
      split; [lia|]. apply nth_error_Some. congruence.
    + intros [_ H]. destruct (nth_error l i) as [x|]; [|discriminate].
      now exists x.
Qed.

Lemma evaluated_ids_length key y_best y_max trajs :
  length (np_unique (map DF.id (normalised_rows key y_best y_max 0 trajs)))
  = length (evaluated_runs trajs).
Proof.
  apply NoDup_indices_length.
  - apply sorted_lt_NoDup, np_unique_sorted.
  - intros i. rewrite np_unique_In, normalised_rows_ids. split.
    + intros (k & traj & -> & H & Hs). exists traj. split; [exact H|].
      destruct (slice_from_1 traj); [congruence|reflexivity].
    + intros (traj & H & Hs). exists i, traj. split; [reflexivity|].
      split; [exact H|]. destruct (slice_from_1 traj); [discriminate|].
      discriminate.
Qed.

Lemma result_rows_append result_df new :
  result_rows (match new with
               | [] => result_df
               | _ => frame_append result_df new
               end)
  = result_rows result_df ++ rows new.
Proof.
  destruct new as [|x new]; [now rewrite app_nil_r|].
  destruct result_df as [df|]; cbn [frame_append result_rows];
    [|reflexivity].
  unfold rows. now rewrite map_app.
Qed.

Lemma filter_optimizer_all key opt (new : frame) :
  Forall (fun lr => DF.optimizer (snd lr) = key) new ->
  length (filter (fun r => String.eqb (DF.optimizer r) opt) (rows new))
  = if String.eqb key opt then length new else 0%nat.
Proof.
  induction 1 as [|lr new H _ IH]; [now destruct (String.eqb key opt)|].
  change (rows (lr :: new)) with (snd lr :: rows new).
  cbn [filter]. rewrite H.
  destruct (String.eqb key opt); cbn [length]; now rewrite IH.
Qed.

Lemma for_each_cons_Ok {A S : Type} (body : S -> A -> M S) x l s s' :
  outcome (for_each body (x :: l) s) = Ok s' ->
  exists s1, outcome (body s x) = Ok s1
             /\ outcome (for_each body l s1) = Ok s'.
Proof.
  cbn [for_each]. rewrite outcome_bindM.
  destruct (outcome (body s x)) as [s1|e]; [|discriminate].
  intros H. now exists s1.
Qed.

Lemma seed_loop_tails key cut optimizer_df :
  0 <= cut ->
  forall ids result_df,
    exists result_df',
      for_each (seed_step key cut optimizer_df) ids result_df
      = ([], Ok result_df')
      /\ result_rows result_df'
         = result_rows result_df
             ++ flat_map
                  (fun i => rows (tail1 (truncate key i cut optimizer_df)))
                  ids.
Proof.
  intros Hc. induction ids as [|uid ids IH]; intros result_df.
  - exists result_df. split; [reflexivity|]. simpl. now rewrite app_nil_r.
  - assert (Hstep : seed_step key cut optimizer_df result_df uid
                    = ([], Ok (frame_append result_df
                                 (tail1 (truncate key uid cut
                                           optimizer_df))))).
    { pose proof (sentinel_kept key uid cut optimizer_df Hc) as Hin.
      assert (Hne : truncate key uid cut optimizer_df <> []).
      { intros E. rewrite E in Hin. exact Hin. }
      unfold seed_step. rewrite (tail1_length _ Hne). reflexivity. }
    destruct (IH (frame_append result_df
                    (tail1 (truncate key uid cut optimizer_df))))
      as (r' & Hrun & Hrows).
    exists r'. split.
    + cbn [for_each]. rewrite Hstep. unfold bindM. now rewrite Hrun.
    + rewrite Hrows. cbn [flat_map]. rewrite app_assoc. f_equal.
      destruct result_df; cbn [frame_append result_rows]; [|reflexivity].
      unfold rows. apply map_app.
Qed.

Section BenchmarkCounts.
Variable files : Type.
Variable load_json_files : files -> list trajectory.
Variable unique_optimizer : dict string files.
Variable unvalidated : bool.
Variables y_best_val y_best_test y_max cut : Q.
Hypothesis cut_not_negative : 0 <= cut.

(** The number of evaluated runs of an optimizer of the benchmark. *)
Let runs (opt : string) : nat :=
  match dict_get String.eqb opt unique_optimizer with
  | None => 0%nat
  | Some fs => length (evaluated_runs (load_json_files fs))
  end.

Let count (opt : string) (result_df : option frame) : nat :=
  length (filter (fun r => String.eqb (DF.optimizer r) opt)
            (result_rows result_df)).

Lemma optimizer_step_count result_df key result_df' :
  outcome (optimizer_step load_json_files unique_optimizer unvalidated
             y_best_val y_best_test y_max cut result_df key)
  = Ok result_df' ->
  forall opt,
    count opt result_df'
    = (count opt result_df
       + if String.eqb key opt then runs key else 0)%nat.
Proof.
  unfold optimizer_step, runs.
  destruct (dict_get String.eqb key unique_optimizer) as [fs|].
  - rewrite outcome_bindM. cbn [lift outcome snd].
    destruct (df_per_optimizer key (load_json_files fs)
                (if unvalidated then y_best_val else y_best_test)
                (Some y_max)) as [optimizer_df|e] eqn:Hdf; [|discriminate].
    pose proof (df_per_optimizer_rows _ _ _ _ _ Hdf) as ->.
    destruct (seed_loop_rows key cut
                (range_index
                   (normalised_rows key
                      (if unvalidated then y_best_val else y_best_test)
                      (Some y_max) 0 (load_json_files fs)))
                cut_not_negative
                ltac:(rewrite rows_range_index;
                      apply normalised_rows_optimizer)
                (np_unique
                   (map DF.id
                      (rows
                         (range_index
                            (normalised_rows key
                               (if unvalidated then y_best_val
                                else y_best_test)
                               (Some y_max) 0 (load_json_files fs))))))
                result_df)
      as (new & Hids & Hkey & ->).
    cbn [outcome snd]. intros E opt. inversion E; subst result_df'.
    unfold count. rewrite result_rows_append, filter_app, length_app.
    rewrite (filter_optimizer_all _ _ _ Hkey).
    destruct (String.eqb key opt); [|reflexivity].
    f_equal. rewrite <- (length_map (fun lr => DF.id (snd lr)) new), Hids.
    rewrite rows_range_index. apply evaluated_ids_length.
  - cbn. intros E opt. inversion E; subst.
    destruct (String.eqb key opt); lia.
Qed.

Lemma optimizer_loop_count opt_list :
  forall result_df result_df',
    outcome (for_each
               (optimizer_step load_json_files unique_optimizer unvalidated
                  y_best_val y_best_test y_max cut)
               opt_list result_df)
    = Ok result_df' ->
    forall opt,
      count opt result_df'
      = (count opt result_df
         + count_occ string_dec opt_list opt * runs opt)%nat.
Proof.
  induction opt_list as [|key l IH]; intros result_df result_df' H opt.
  - cbn in H. inversion H; subst. cbn [count_occ]. lia.
  - apply for_each_cons_Ok in H. destruct H as (s1 & H1 & H2).
    rewrite (IH _ _ H2 opt), (optimizer_step_count _ _ _ H1 opt).
    cbn [count_occ]. destruct (string_dec key opt) as [->|Hne].
    + rewrite String.eqb_refl. lia.
    + destruct (String.eqb_spec key opt); [congruence|lia].
Qed.

Lemma groupby_agg_count result_df t :
  groupby_agg result_df = Ok t ->
  forall opt,
    match dict_get String.eqb opt t with
    | Some a =>
        value_lst_len a = count opt result_df
        /\ length (function_values_lst a) = value_lst_len a
        /\ (0 < value_lst_len a)%nat
    | None => count opt result_df = 0%nat
    end.
Proof.
  unfold groupby_agg. destruct result_df as [df|]; [|discriminate].
  intros E opt. inversion E; subst t; clear E.
  unfold count. cbn [result_rows].
  set (f := fun opt =>
              {| function_values_median :=
                   median
                     (map DF.function_values
                        (filter (fun r => String.eqb (DF.optimizer r) opt)
                           (rows df)));
                 function_values_lst :=
                   map DF.function_values
                     (filter (fun r => String.eqb (DF.optimizer r) opt)
                        (rows df));
                 value_lst_len :=
                   length
                     (map DF.function_values
                        (filter (fun r => String.eqb (DF.optimizer r) opt)
                           (rows df))) |}).
  change (match dict_get String.eqb opt
                  (map (fun opt => (opt, f opt))
                     (unique String.ltb String.eqb
                        (map DF.optimizer (rows df)))) with
          | Some a =>
              value_lst_len a
              = length (filter (fun r => String.eqb (DF.optimizer r) opt)
                          (rows df))
              /\ length (function_values_lst a) = value_lst_len a
              /\ (0 < value_lst_len a)%nat
          | None =>
              length (filter (fun r => String.eqb (DF.optimizer r) opt)
                        (rows df)) = 0%nat
          end).
  destruct (in_dec string_dec opt (map DF.optimizer (rows df))) as [Hin|Hn].
  - rewrite dict_get_map_keys
      by (apply unique_In; [apply String.eqb_eq|exact Hin]).
    unfold f. cbn [value_lst_len function_values_lst].
    rewrite length_map. split; [reflexivity|]. split; [reflexivity|].
    apply in_map_iff in Hin. destruct Hin as (r & Hr & Hin).
    assert (F : In r (filter (fun r => String.eqb (DF.optimizer r) opt)
                        (rows df))).
    { apply filter_In. split; [exact Hin|]. rewrite Hr.
      apply String.eqb_refl. }
    destruct (filter _ (rows df)); [destruct F|cbn; lia].
  - rewrite dict_get_map_keys_absent
      by (intros F; apply Hn; now apply unique_In_inv in F).
    destruct (filter (fun r => String.eqb (DF.optimizer r) opt) (rows df))
      as [|r l] eqn:F; [reflexivity|].
    exfalso. apply Hn.
    assert (Hr : In r (filter (fun r => String.eqb (DF.optimizer r) opt)
                         (rows df))) by (rewrite F; now left).
    apply filter_In in Hr. destruct Hr as [Hr He].
    apply String.eqb_eq in He. subst opt. now apply in_map.
Qed.

Lemma optimizer_step_rows result_df key result_df' fs :
  dict_get String.eqb key unique_optimizer = Some fs ->
  outcome (optimizer_step load_json_files unique_optimizer unvalidated
             y_best_val y_best_test y_max cut result_df key)
  = Ok result_df' ->
  exists optimizer_df,
    df_per_optimizer key (load_json_files fs)
      (if unvalidated then y_best_val else y_best_test) (Some y_max)
    = Ok optimizer_df
    /\ result_rows result_df'
       = result_rows result_df
           ++ flat_map
                (fun i => rows (tail1 (truncate key i cut optimizer_df)))
                (np_unique (map DF.id (rows optimizer_df))).
Proof.
  intros Hfs. unfold optimizer_step. rewrite Hfs.
  rewrite outcome_bindM. cbn [lift outcome snd].
  destruct (df_per_optimizer key (load_json_files fs)
              (if unvalidated then y_best_val else y_best_test)
              (Some y_max)) as [optimizer_df|e]; [|discriminate].
  destruct (seed_loop_tails key cut optimizer_df cut_not_negative
              (np_unique (map DF.id (rows optimizer_df))) result_df)
    as (r' & Hrun & Hrows).
  rewrite Hrun. cbn [outcome snd]. intros E. inversion E; subst.
  exists optimizer_df. split; [reflexivity|exact Hrows].
Qed.

Lemma optimizer_step_quiet result_df key :
  Forall (fun e => reports_missing_runs e = false)
    (events (optimizer_step load_json_files unique_optimizer unvalidated
               y_best_val y_best_test y_max cut result_df key)).
Proof.
  unfold optimizer_step.
  destruct (dict_get String.eqb key unique_optimizer) as [fs|].
  - rewrite events_bindM. cbn [lift outcome events fst snd].
    destruct (df_per_optimizer key (load_json_files fs)
                (if unvalidated then y_best_val else y_best_test)
                (Some y_max)) as [optimizer_df|e]; [|constructor].
    destruct (seed_loop_tails key cut optimizer_df cut_not_negative
                (np_unique (map DF.id (rows optimizer_df))) result_df)
      as (r' & Hrun & _).
    rewrite Hrun. constructor.
  - cbn. repeat constructor.
Qed.

Lemma optimizer_step_mono result_df key result_df' :
  outcome (optimizer_step load_json_files unique_optimizer unvalidated
             y_best_val y_best_test y_max cut result_df key)
  = Ok result_df' ->
  incl (result_rows result_df) (result_rows result_df').
Proof.
  destruct (dict_get String.eqb key unique_optimizer) as [fs|] eqn:Hfs.
  - intros H.
    destruct (optimizer_step_rows _ _ _ _ Hfs H) as (odf & _ & ->).
    apply incl_appl, incl_refl.
  - unfold optimizer_step. rewrite Hfs. cbn. intros E.
    inversion E; subst. apply incl_refl.
Qed.

Lemma optimizer_loop_mono opt_list :
  forall result_df result_df',
    outcome (for_each
               (optimizer_step load_json_files unique_optimizer unvalidated
                  y_best_val y_best_test y_max cut)
               opt_list result_df)
    = Ok result_df' ->
    incl (result_rows result_df) (result_rows result_df').
Proof.
  induction opt_list as [|key l IH]; intros result_df result_df' H.
  - cbn in H. inversion H; subst. apply incl_refl.
  - apply for_each_cons_Ok in H. destruct H as (s1 & H1 & H2).
    eapply incl_tran; [exact (optimizer_step_mono _ _ _ H1)|].
    exact (IH _ _ H2).
Qed.

Lemma optimizer_loop_visits opt_list key :
  In key opt_list ->
  forall result_df result_df',
    outcome (for_each
               (optimizer_step load_json_files unique_optimizer unvalidated
                  y_best_val y_best_test y_max cut)
               opt_list result_df)
    = Ok result_df' ->
    exists s s',
      outcome (optimizer_step load_json_files unique_optimizer unvalidated
                 y_best_val y_best_test y_max cut s key)
      = Ok s'
      /\ incl (result_rows s') (result_rows result_df').
Proof.
  induction opt_list as [|k l IH]; intros Hin result_df result_df' H;
    [contradiction|].
  apply for_each_cons_Ok in H. destruct H as (s1 & H1 & H2).
  destruct Hin as [->|Hin].
  - exists result_df, s1. split; [exact H1|].
    exact (optimizer_loop_mono _ _ _ H2).
  - exact (IH Hin _ _ H2).
Qed.

Lemma optimizer_loop_quiet opt_list :
  forall result_df,
    Forall (fun e => reports_missing_runs e = false)
      (events (for_each
                 (optimizer_step load_json_files unique_optimizer
                    unvalidated y_best_val y_best_test y_max cut)
                 opt_list result_df)).
Proof.
  induction opt_list as [|key l IH]; intros result_df; cbn [for_each].
  - constructor.
  - rewrite events_bindM.
    destruct (outcome (optimizer_step load_json_files unique_optimizer
                         unvalidated y_best_val y_best_test y_max cut
                         result_df key)).
    + apply Forall_app. split; [apply optimizer_step_quiet|apply IH].
    + apply optimizer_step_quiet.
Qed.
End BenchmarkCounts.

(** X16. When the table loop completes a benchmark for a cut that is not
    negative, the table of that benchmark holds, for every optimizer, one
    function value per run with a record after its header, as often as the
    optimizer is listed in [opt_list]; an optimizer that is not listed, has
    no files in the folder of the benchmark or has header-only runs only
    gets no row.  Without an [opt_list] the optimizers of this benchmark
    become the list of the benchmarks that follow. *)
Theorem benchmark_step_counts
  (files : Type) (is_dir : path -> bool)
  (load_trajectories_as_df : path -> string -> dict string files)
  (load_json_files : files -> list trajectory)
  (plot_dc : dict string (dict string Q)) (time_limit_in_s : string -> Q)
  (orig_input_dir which benchmark : string) (unvalidated : bool) (thresh : Q)
  (opt_list : option (list string)) (per_dataset_df : dict string table)
  (st' : option (list string) * dict string table) :
  let unique_optimizer :=
    load_trajectories_as_df (path_join orig_input_dir benchmark)
      (if unvalidated then String.append "train_" which
       else String.append "test_" which) in
  let listed :=
    match opt_list with
    | None => keys unique_optimizer
    | Some l => l
    end in
  let runs opt :=
    match dict_get String.eqb opt unique_optimizer with
    | None => 0%nat
    | Some fs => length (evaluated_runs (load_json_files fs))
    end in
  0 <= thresh * time_limit_in_s benchmark ->
  outcome (benchmark_step is_dir load_trajectories_as_df load_json_files
             plot_dc time_limit_in_s orig_input_dir unvalidated which thresh
             (opt_list, per_dataset_df) benchmark)
  = Ok st' ->
  fst st' = Some listed
  /\ exists t,
       dict_get String.eqb benchmark (snd st') = Some t
       /\ forall opt,
            match dict_get String.eqb opt t with
            | Some a =>
                value_lst_len a
                = (count_occ string_dec listed opt * runs opt)%nat
                /\ length (function_values_lst a) = value_lst_len a
                /\ (0 < value_lst_len a)%nat
            | None => (count_occ string_dec listed opt * runs opt = 0)%nat
            end.
Proof.
  cbv zeta. intros Hc. unfold benchmark_step.
  destruct (negb (is_dir (path_join orig_input_dir benchmark))); simpl;
    destruct (for_each _ _ None) as [out [result_df|e]] eqn:Hloop; simpl;
    try discriminate;
    destruct (groupby_agg result_df) as [t|e] eqn:Hg; simpl;
    try discriminate;
    intros E; inversion E; subst st'; clear E; cbn [fst snd];
    (split; [reflexivity|]);
    exists t; (split; [apply dict_get_set_string|]);
    intros opt;
    pose proof (groupby_agg_count result_df t Hg opt) as G;
    pose proof (optimizer_loop_count files load_json_files _ unvalidated
                  _ _ _ _ Hc _ None result_df
                  (f_equal snd Hloop) opt) as L;
    cbv beta zeta in L, G; cbn [result_rows filter length plus] in L;
    rewrite L in G; exact G.
Qed.

Lemma benchmark_step_counts_witness :
  0 <= 1 * 10
  /\ exists st',
       outcome (benchmark_step (fun _ => true)
                  (fun _ _ => tie_unique_optimizer)
                  (fun fs : list trajectory => fs) sample_plot_dc
                  (fun _ => 10) "results" true "v1" 1 (None, []) "bench")
       = Ok st'
       /\ fst st' = Some ["randomsearch"; "de"].
Proof.
  assert (Hc : 0 <= 1 * 10) by (unfold Qle; simpl; lia).
  split; [exact Hc|].
  eexists. split; [reflexivity|].
  exact (proj1 (benchmark_step_counts (list trajectory) (fun _ => true)
                  (fun _ _ => tie_unique_optimizer) (fun fs => fs)
                  sample_plot_dc (fun _ => 10) "results" "v1" "bench" true 1
                  None [] _ Hc eq_refl)).
Defined.

(** ** A seed without a record within the budget *)

(** C6 (as the code has it). Take a benchmark that the table loop
    completes for a cut that is not negative, an optimizer of the list with
    files in the folder, and one of its runs that has a record after its
    header, every such record lying after the cut. The seed of the run is
    visited by the loop; its cut series is the sentinel alone; the loop
    body prints nothing and appends the sentinel, and no message about
    missing runs is written for the whole benchmark. The sentinel is a row
    of the result table that is aggregated: the value list of the optimizer
    in the table of the benchmark holds its infinite [function_values], and
    it has one value per run with a record after its header, as often as
    the optimizer is listed. *)
Theorem starved_seed_contributes_sentinel
  (files : Type) (is_dir : path -> bool)
  (load_trajectories_as_df : path -> string -> dict string files)
  (load_json_files : files -> list trajectory)
  (plot_dc : dict string (dict string Q)) (time_limit_in_s : string -> Q)
  (orig_input_dir which benchmark : string) (unvalidated : bool) (thresh : Q)
  (opt_list : option (list string)) (per_dataset_df : dict string table)
  (st' : option (list string) * dict string table)
  (key : string) (fs : files) (unique_id : nat) (traj : trajectory) :
  let unique_optimizer :=
    load_trajectories_as_df (path_join orig_input_dir benchmark)
      (if unvalidated then String.append "train_" which
       else String.append "test_" which) in
  let listed :=
    match opt_list with
    | None => keys unique_optimizer
    | Some l => l
    end in
  let y_best :=
    if unvalidated then benchmark_spec_get plot_dc benchmark "ystar_valid"
    else benchmark_spec_get plot_dc benchmark "ystar_test" in
  let y_max := benchmark_spec_get plot_dc benchmark "y_max" in
  let cut_time_step := thresh * time_limit_in_s benchmark in
  let run :=
    benchmark_step is_dir load_trajectories_as_df load_json_files plot_dc
      time_limit_in_s orig_input_dir unvalidated which thresh
      (opt_list, per_dataset_df) benchmark in
  0 <= cut_time_step ->
  outcome run = Ok st' ->
  In key listed ->
  dict_get String.eqb key unique_optimizer = Some fs ->
  nth_error (load_json_files fs) unique_id = Some traj ->
  slice_from_1 traj <> [] ->
  (forall r, In r (slice_from_1 traj) ->
             cut_time_step < Traj.total_time_used r) ->
  exists optimizer_df,
    df_per_optimizer key (load_json_files fs) y_best (Some y_max)
    = Ok optimizer_df
    /\ In unique_id (np_unique (map DF.id (rows optimizer_df)))
    /\ let s := sentinel key unique_id (select_id unique_id optimizer_df) in
       rows (truncate key unique_id cut_time_step optimizer_df) = [s]
       /\ (forall result_df,
              events (seed_step key cut_time_step optimizer_df result_df
                        unique_id) = []
              /\ exists label,
                   outcome (seed_step key cut_time_step optimizer_df
                              result_df unique_id)
                   = Ok (frame_append result_df [(label, s)]))
       /\ Forall (fun e => reports_missing_runs e = false) (events run)
       /\ exists result_df t agg,
            outcome (for_each
                       (optimizer_step load_json_files unique_optimizer
                          unvalidated
                          (benchmark_spec_get plot_dc benchmark "ystar_valid")
                          (benchmark_spec_get plot_dc benchmark "ystar_test")
                          y_max cut_time_step)
                       listed None)
            = Ok result_df
            /\ In s (result_rows result_df)
            /\ groupby_agg result_df = Ok t
            /\ dict_get String.eqb benchmark (snd st') = Some t
            /\ dict_get String.eqb key t = Some agg
            /\ In PInf (function_values_lst agg)
            /\ value_lst_len agg
               = (count_occ string_dec listed key
                  * length (evaluated_runs (load_json_files fs)))%nat.
Proof.
  cbv zeta. intros Hc Hrun Hkey Hfs Htraj Hne Hlate.
  set (uo := load_trajectories_as_df (path_join orig_input_dir benchmark)
               (if unvalidated then String.append "train_" which
                else String.append "test_" which)) in *.
  set (listed := match opt_list with
                 | None => keys uo
                 | Some l => l
                 end) in *.
  set (cut := thresh * time_limit_in_s benchmark) in *.
  set (yv := benchmark_spec_get plot_dc benchmark "ystar_valid") in *.
  set (yt := benchmark_spec_get plot_dc benchmark "ystar_test") in *.
  set (ym := benchmark_spec_get plot_dc benchmark "y_max") in *.
  set (loop := for_each
                 (optimizer_step load_json_files uo unvalidated yv yt ym cut)
                 listed None).
  (* the shape of the benchmark step *)
  assert (Hshape :
    Forall (fun e => reports_missing_runs e = false)
      (events (benchmark_step is_dir load_trajectories_as_df
                 load_json_files plot_dc time_limit_in_s orig_input_dir
                 unvalidated which thresh (opt_list, per_dataset_df)
                 benchmark))
    /\ exists result_df t,
         outcome loop = Ok result_df
         /\ groupby_agg result_df = Ok t
         /\ dict_get String.eqb benchmark (snd st') = Some t).
  { pose proof (optimizer_loop_quiet files load_json_files uo unvalidated
                  yv yt ym cut Hc listed None) as Hq.
    fold loop in Hq. revert Hrun. unfold benchmark_step.
    fold uo. fold listed. fold cut. fold yv. fold yt. fold ym. fold loop.
    destruct loop as [out [result_df|e]]; cbn [events fst] in Hq.
    - destruct (negb (is_dir (path_join orig_input_dir benchmark)));
        cbn -[groupby_agg];
        (destruct (groupby_agg result_df) as [t|e] eqn:Hg;
         cbn; [|discriminate]);
        intros E; inversion E; subst st'; clear E;
        (split;
         [repeat (constructor; [reflexivity|]);
          rewrite app_nil_r; exact Hq
         |exists result_df, t; split; [reflexivity|];
          split; [exact Hg|apply dict_get_set_string]]).
    - destruct (negb (is_dir (path_join orig_input_dir benchmark)));
        cbn; discriminate. }
  destruct Hshape as (Hquiet & result_df & t & Hloop & Hg & Ht).
  (* the step of the optimizer *)
  destruct (optimizer_loop_visits files load_json_files uo unvalidated
              yv yt ym cut Hc listed key Hkey None result_df Hloop)
    as (s0 & s1 & Hstep & Hincl).
  destruct (optimizer_step_rows files load_json_files uo unvalidated
              yv yt ym cut Hc s0 key s1 fs Hfs Hstep)
    as (optimizer_df & Hdf & Hrows).
  exists optimizer_df. split; [exact Hdf|].
  assert (Hid : In unique_id (np_unique (map DF.id (rows optimizer_df)))).
  { rewrite (df_per_optimizer_rows _ _ _ _ _ Hdf), rows_range_index.
    apply np_unique_In, normalised_rows_ids.
    exists unique_id, traj. split; [reflexivity|]. now split. }
  split; [exact Hid|].
  assert (Hcut : rows (truncate key unique_id cut optimizer_df)
                 = [sentinel key unique_id
                      (select_id unique_id optimizer_df)]).
  { apply truncate_starved; [exact Hc|].
    rewrite (select_id_rows _ _ _ _ _ _ _ Hdf Htraj).
    intros r Hr. apply in_map_iff in Hr. destruct Hr as (rec & <- & Hrec).
    exact (Hlate rec Hrec). }
  destruct (tail1_single_row _ _ Hcut) as (label & Etr & Etail).
  split; [exact Hcut|]. split; [|split; [exact Hquiet|]].
  - intros rdf. split.
    + unfold seed_step. rewrite Etail. reflexivity.
    + exists label. now rewrite seed_step_outcome, Etail.
  - assert (Hin : In (sentinel key unique_id
                        (select_id unique_id optimizer_df))
                     (result_rows result_df)).
    { apply Hincl. rewrite Hrows. apply in_or_app. right.
      apply in_flat_map. exists unique_id. split; [exact Hid|].
      rewrite Etail. now left. }
    destruct result_df as [df|]; [|destruct Hin].
    destruct (groupby_agg_lst _ _ _ Hg Hin) as (agg & Hagg & Hinf & _).
    cbn [DF.optimizer DF.function_values sentinel] in Hagg, Hinf.
    exists (Some df), t, agg.
    split; [exact Hloop|]. split; [exact Hin|]. split; [exact Hg|].
    split; [exact Ht|]. split; [exact Hagg|]. split; [exact Hinf|].
    pose proof (groupby_agg_count (Some df) t Hg key) as G.
    pose proof (optimizer_loop_count files load_json_files uo unvalidated
                  yv yt ym cut Hc listed None (Some df) Hloop key) as L.
    cbv beta zeta in L, G. cbn [result_rows filter length plus] in L.
    rewrite Hagg in G. rewrite Hfs in L. destruct G as (G & _).
    rewrite G. exact L.
Qed.

Lemma starved_seed_contributes_sentinel_witness :
  0 <= (3 # 10) * 10
  /\ slice_from_1 run_c <> []
  /\ (forall r, In r (slice_from_1 run_c) ->
                (3 # 10) * 10 < Traj.total_time_used r)
  /\ exists st' optimizer_df,
       outcome (benchmark_step (fun _ => true)
                  (fun _ _ => sample_unique_optimizer)
                  (fun fs : list trajectory => fs) sample_plot_dc
                  (fun _ => 10) "results" true "v1" (3 # 10) (None, [])
                  "bench")
       = Ok st'
       /\ df_per_optimizer "rs" [run_a; run_b; run_c] 0 (Some 1)
          = Ok optimizer_df
       /\ In 2%nat (np_unique (map DF.id (rows optimizer_df)))
       /\ rows (truncate "rs" 2 ((3 # 10) * 10) optimizer_df)
          = [sentinel "rs" 2 (select_id 2 optimizer_df)].
Proof.
  assert (Hc : 0 <= (3 # 10) * 10) by (unfold Qle; simpl; lia).
  assert (Hne : slice_from_1 run_c <> []) by discriminate.
  assert (Hlate : forall r, In r (slice_from_1 run_c) ->
                            (3 # 10) * 10 < Traj.total_time_used r).
  { intros r [<-|[]]. reflexivity. }
  split; [exact Hc|]. split; [exact Hne|]. split; [exact Hlate|].
  eexists.
  destruct (starved_seed_contributes_sentinel (list trajectory)
              (fun _ => true) (fun _ _ => sample_unique_optimizer)
              (fun fs => fs) sample_plot_dc (fun _ => 10) "results" "v1"
              "bench" true (3 # 10) None [] _ "rs" [run_a; run_b; run_c]
              2%nat run_c Hc eq_refl (or_introl eq_refl) eq_refl eq_refl
              Hne Hlate)
    as (optimizer_df & Hdf & Hid & Hcut & _).
  exists optimizer_df. split; [reflexivity|]. split; [exact Hdf|].
  split; [exact Hid|exact Hcut].
Defined.

(* ================================================================== *)
(** * The translation of hyperparameters *)
(* ================================================================== *)

Section HandlerFacts.
Variable value : Type.
Variable value_eqb : value -> value -> bool.
Variable math_log : Q -> Hyper.res Q.
Variable math_exp : Q -> Hyper.res Q.

Lemma tuple_index_Some l x i :
  Hyper.tuple_index value_eqb l x = Some i ->
  exists v,
    nth_error l i = Some v
    /\ value_eqb v x = true
    /\ forall j w, (j < i)%nat -> nth_error l j = Some w ->
                   value_eqb w x = false.
Proof.
  revert i. induction l as [|y l IH]; intros i; cbn [Hyper.tuple_index];
    [discriminate|].
  destruct (value_eqb y x) eqn:E.
  - intros H. inversion H; subst. exists y. split; [reflexivity|].
    split; [exact E|]. intros j w Hj. lia.
  - destruct (Hyper.tuple_index value_eqb l x) as [k|]; [|discriminate].
    intros H. inversion H; subst.
    destruct (IH k eq_refl) as (v & Hv & Hx & Hfirst).
    exists v. split; [exact Hv|]. split; [exact Hx|].
    intros [|j] w Hj Hw.
    + inversion Hw; subst. exact E.
    + apply (Hfirst j w); [lia|exact Hw].
Qed.

Lemma tuple_index_None l x :
  Hyper.tuple_index value_eqb l x = None
  <-> forall v, In v l -> value_eqb v x = false.
Proof.
  induction l as [|y l IH]; cbn [Hyper.tuple_index].
  - split; [intros _ v []|reflexivity].
  - destruct (value_eqb y x) eqn:E.
    + split; [discriminate|]. intros H.
      rewrite (H y (or_introl eq_refl)) in E. discriminate.
    + destruct (Hyper.tuple_index value_eqb l x) as [k|].
      * split; [discriminate|]. intros H.
        assert (F : @None nat = None) by reflexivity.
        destruct IH as [_ IH]. discriminate IH.
        intros v Hv. apply H. now right.
      * split; [|reflexivity]. intros _ v [<-|Hv]; [exact E|].
        now apply (proj1 IH).
Qed.

Lemma py_getitem_nat {A : Type} (l : list A) i v :
  nth_error l i = Some v -> py_getitem l (Z.of_nat i) = Ok v.
Proof.
  intros H. unfold py_getitem.
  assert (E : (Z.of_nat i <? 0)%Z = false) by (apply Z.ltb_ge; lia).
  rewrite E. cbv iota. rewrite E. now rewrite Nat2Z.id, H.
Qed.

Lemma uniform_weights_iff probabilities :
  Hyper.uniform_weights probabilities = true
  <-> forall p, probabilities = Some p ->
                forall x y, In x p -> In y p -> x == y.
Proof.
  destruct probabilities as [p|]; cbn [Hyper.uniform_weights];
    [|split; [discriminate|reflexivity]].
  assert (H : Hyper.list_eqb Qeq_bool (removelast p) (tl p) = true
              <-> forall x y, In x p -> In y p -> x == y).
  { induction p as [|a [|b r] IH].
    - split; [intros _ x y []|reflexivity].
    - split; [|reflexivity]. intros _ x y [<-|[]] [<-|[]]. reflexivity.
    - change (removelast (a :: b :: r)) with (a :: removelast (b :: r)).
      cbn [tl Hyper.list_eqb] in *. rewrite andb_true_iff, IH, Qeq_bool_iff.
      split.
      + intros [Hab Hr] x y [<-|Hx] [<-|Hy].
        * reflexivity.
        * rewrite Hab. apply Hr; [now left|exact Hy].
        * rewrite Hab. apply Hr; [exact Hx|now left].
        * now apply Hr.
      + intros H. split.
        * apply H; [now left|right; now left].
        * intros x y Hx Hy. apply H; now right. }
  rewrite H. split.
  - intros Ha q E. inversion E; subst. exact Ha.
  - intros Ha. now apply Ha.
Qed.
End HandlerFacts.

(** X17. When the handler of a categorical hyperparameter returns, the
    default it hands to dragonfly is the first position of the choices
    whose item equals the default value, and the parser maps it back to
    that item; the parser decodes every position of the choices, the cost
    of every sample is one over the number of choices, and the items
    offered to dragonfly are the positions joined by ["-"]. *)
Theorem handle_categorical_round_trip (value : Type)
  (value_eqb : value -> value -> bool) (name : string)
  (choices : Hyper.pyobj value) (probabilities : option (list Q))
  (default_value : value) (d : Hyper.domain)
  (parser : Hyper.number -> Hyper.res (Hyper.parsed value))
  (cost : Hyper.number -> Hyper.res Q) (default : Hyper.number) :
  Hyper._handle_categorical value_eqb name choices probabilities
    default_value
  = inr (d, parser, cost, default) ->
  exists l i v,
    choices = Hyper.Sequence l
    /\ default = Hyper.Int (Z.of_nat i)
    /\ nth_error l i = Some v
    /\ value_eqb v default_value = true
    /\ (forall j w, (j < i)%nat -> nth_error l j = Some w ->
                    value_eqb w default_value = false)
    /\ parser default = inr (Hyper.PItem v)
    /\ (forall j w, nth_error l j = Some w ->
                    parser (Hyper.Int (Z.of_nat j)) = inr (Hyper.PItem w))
    /\ (forall x, exists c,
           cost x = inr c /\ c * inject_Z (Z.of_nat (length l)) == 1)
    /\ d = Hyper.Items name "discrete"
             (String.concat "-" (map percent_d (seq 0 (length l)))).
Proof.
  unfold Hyper._handle_categorical.
  destruct choices as [l|]; [|discriminate].
  destruct (negb (Hyper.uniform_weights probabilities)); [discriminate|].
  destruct (Hyper.tuple_index value_eqb l default_value) as [i|] eqn:Hi;
    [|discriminate].
  intros E. inversion E; subst; clear E.
  destruct (tuple_index_Some _ _ _ _ _ Hi) as (v & Hv & Hx & Hfirst).
  exists l, i, v. split; [reflexivity|]. split; [reflexivity|].
  split; [exact Hv|]. split; [exact Hx|]. split; [exact Hfirst|].
  split; [cbn [Hyper.int]; now rewrite (py_getitem_nat _ _ _ Hv)|].
  split; [intros j w Hw; cbn [Hyper.int];
          now rewrite (py_getitem_nat _ _ _ Hw)|].
  split; [|reflexivity].
  intros x. unfold py_div.
  assert (Hn : ~ inject_Z (Z.of_nat (length l)) == 0).
  { assert (Hl : (i < length l)%nat) by (apply nth_error_Some; congruence).
    unfold Qeq. simpl. lia. }
  destruct (Qeq_bool (inject_Z (Z.of_nat (length l))) 0) eqn:Q0.
  - apply Qeq_bool_iff in Q0. contradiction.
  - eexists. split; [reflexivity|]. field. exact Hn.
Qed.

Lemma handle_categorical_round_trip_witness :
  exists d parser cost default v,
    Hyper._handle_categorical String.eqb "kernel"
      (Hyper.Sequence ["rbf"; "poly"]) None "poly"
    = inr (d, parser, cost, default)
    /\ parser default = inr (Hyper.PItem v)
    /\ String.eqb v "poly" = true.
Proof.
  do 4 eexists.
  destruct (handle_categorical_round_trip string String.eqb "kernel"
              (Hyper.Sequence ["rbf"; "poly"]) None "poly" _ _ _ _ eq_refl)
    as (l & i & v & _ & _ & _ & Hx & _ & Hp & _).
  exists v. split; [reflexivity|]. split; [exact Hp|exact Hx].
Defined.

(** X18. The handler of a categorical hyperparameter raises [TypeError]
    when the choices are neither a list nor a tuple.  For a list or tuple
    it raises [ValueError] exactly when two of the given probabilities
    differ or no choice equals the default value, and returns
    otherwise. *)
Theorem handle_categorical_errors (value : Type)
  (value_eqb : value -> value -> bool) (name : string)
  (probabilities : option (list Q)) (default_value : value) :
  Hyper._handle_categorical value_eqb name (Hyper.Other value)
    probabilities default_value
  = inl Hyper.TypeError
  /\ forall l,
       let uniform :=
         forall p, probabilities = Some p ->
                   forall x y, In x p -> In y p -> x == y in
       let absent := forall v, In v l -> value_eqb v default_value = false in
       (Hyper._handle_categorical value_eqb name (Hyper.Sequence l)
          probabilities default_value
        = inl (Hyper.Builtin ValueError)
        <-> ~ uniform \/ absent)
       /\ ((exists h,
              Hyper._handle_categorical value_eqb name (Hyper.Sequence l)
                probabilities default_value
              = inr h)
           <-> uniform /\ ~ absent).
Proof.
  split; [reflexivity|]. intros l. cbv zeta.
  unfold Hyper._handle_categorical.
  pose proof (uniform_weights_iff probabilities) as U.
  pose proof (tuple_index_None _ value_eqb l default_value) as A.
  destruct (Hyper.uniform_weights probabilities);
    destruct (Hyper.tuple_index value_eqb l default_value) as [i|];
    cbn [negb].
  - split.
    + split; [discriminate|]. intros [H|H].
      * exfalso. apply H. now apply U.
      * apply A in H. discriminate.
    + split; [|intros _; eexists; reflexivity].
      intros _. split; [now apply U|]. intros H. apply A in H.
      discriminate.
  - split.
    + split; [|reflexivity]. intros _. right. now apply A.
    + split; [intros [h H]; discriminate|].
      intros [_ H]. exfalso. apply H. now apply A.
  - split.
    + split; [|reflexivity]. intros _. left. intros H. apply U in H.
      discriminate.
    + split; [intros [h H]; discriminate|].
      intros [H _]. apply U in H. discriminate.
  - split.
    + split; [|reflexivity]. intros _. right. now apply A.
    + split; [intros [h H]; discriminate|].
      intros [H _]. apply U in H. discriminate.
Qed.



Lemma uniform_cost_range (min max : Hyper.number) :
  (Hyper.to_Q min == Hyper.to_Q max ->
   forall x,
     Hyper.uniform_cost min max x = inl (Hyper.Builtin ZeroDivisionError))
  /\ (~ Hyper.to_Q min == Hyper.to_Q max ->
      exists c0 c1,
        Hyper.uniform_cost min max min = inr c0 /\ c0 == 0
        /\ Hyper.uniform_cost min max max = inr c1 /\ c1 == 1).
Proof.
  unfold Hyper.uniform_cost, py_div. split.
  - intros E x.
    assert (Z0 : Hyper.to_Q max - Hyper.to_Q min == 0) by (rewrite E; ring).
    apply Qeq_bool_iff in Z0. now rewrite Z0.
  - intros N.
    assert (Z0 : ~ Hyper.to_Q max - Hyper.to_Q min == 0).
    { intros F. apply N. symmetry.
      rewrite <- (Qplus_0_l (Hyper.to_Q min)), <- F. ring. }
    destruct (Qeq_bool (Hyper.to_Q max - Hyper.to_Q min) 0) eqn:Q0;
      [apply Qeq_bool_iff in Q0; contradiction|].
    do 2 eexists. cbn [Hyper.of_result].
    split; [reflexivity|]. split; [field; exact Z0|].
    split; [reflexivity|]. field. exact Z0.
Qed.

(** X20. When the handler of a uniform float or integer hyperparameter
    returns, its domain is a range and its cost is 0 at the lower end and 1
    at the upper end of that range; when the two ends coincide, as they do
    for an integer on a log scale whose bounds have logarithms with the
    same floor, every cost raises [ZeroDivisionError].  Off the log scale
    the parser maps the default back to itself. *)
Theorem uniform_handler_cost (value : Type)
  (value_eqb : value -> value -> bool) (math_log math_exp : Q -> Hyper.res Q)
  (param : Hyper.hyperparameter value) (d : Hyper.domain)
  (parser : Hyper.number -> Hyper.res (Hyper.parsed value))
  (cost : Hyper.number -> Hyper.res Q) (default : Hyper.number) :
  is_uniform param = true ->
  Hyper.handle value_eqb math_log math_exp param
  = inr (d, parser, cost, default) ->
  exists type min max,
    d = Hyper.Bounded (Hyper.name_of param) type min max
    /\ (Hyper.to_Q min == Hyper.to_Q max ->
        forall x, cost x = inl (Hyper.Builtin ZeroDivisionError))
    /\ (~ Hyper.to_Q min == Hyper.to_Q max ->
        exists c0 c1,
          cost min = inr c0 /\ c0 == 0 /\ cost max = inr c1 /\ c1 == 1)
    /\ (on_log_scale param = false ->
        parser default = inr (Hyper.PNumber value default))
    /\ (forall name lower upper default_value a b,
          param = Hyper.UniformIntegerHyperparameter value name lower upper
                    default_value true ->
          math_log (inject_Z lower) = inr a ->
          math_log (inject_Z upper) = inr b ->
          min = Hyper.Int (Qfloor a) /\ max = Hyper.Int (Qfloor b)).
Proof.
  intros Hu.
  destruct param as [name lower upper dv log|name lower upper dv log| | |];
    try discriminate Hu; cbn [Hyper.handle Hyper.name_of on_log_scale].
  - unfold Hyper._handle_uniform_float. destruct log.
    + destruct (math_log lower) as [e|min]; [discriminate|].
      destruct (math_log upper) as [e|max]; [discriminate|].
      destruct (math_log dv) as [e|dflt]; [discriminate|].
      intros E. inversion E; subst; clear E.
      exists "float", (Hyper.Float min), (Hyper.Float max).
      split; [reflexivity|].
      split; [apply uniform_cost_range|].
      split; [apply uniform_cost_range|].
      split; [discriminate|]. intros; discriminate.
    + intros E. inversion E; subst; clear E.
      exists "float", (Hyper.Float lower), (Hyper.Float upper).
      split; [reflexivity|].
      split; [apply uniform_cost_range|].
      split; [apply uniform_cost_range|].
      split; [reflexivity|]. intros; discriminate.
  - unfold Hyper._handle_uniform_int. destruct log.
    + destruct (math_log (inject_Z lower)) as [e|min] eqn:E1;
        [discriminate|].
      destruct (math_log (inject_Z upper)) as [e|max] eqn:E2;
        [discriminate|].
      destruct (math_log (inject_Z dv)) as [e|dflt]; [discriminate|].
      intros E. inversion E; subst; clear E.
      exists "int", (Hyper.Int (Qfloor min)), (Hyper.Int (Qfloor max)).
      split; [reflexivity|].
      split; [apply uniform_cost_range|].
      split; [apply uniform_cost_range|].
      split; [discriminate|].
      intros n l u v a b P Ha Hb. inversion P; subst.
      rewrite E1 in Ha. rewrite E2 in Hb. inversion Ha. inversion Hb.
      now subst.
    + intros E. inversion E; subst; clear E.
      exists "int", (Hyper.Int lower), (Hyper.Int upper).
      split; [reflexivity|].
      split; [apply uniform_cost_range|].
      split; [apply uniform_cost_range|].
      split; [reflexivity|]. intros; discriminate.
Qed.

Lemma uniform_handler_cost_witness :
  exists d parser cost default,
    is_uniform (Hyper.UniformIntegerHyperparameter string "depth" 3 5 4 true)
    = true
    /\ Hyper.handle String.eqb sample_math sample_math
         (Hyper.UniformIntegerHyperparameter string "depth" 3 5 4 true)
       = inr (d, parser, cost, default)
    /\ exists type min max,
         d = Hyper.Bounded "depth" type min max
         /\ (Hyper.to_Q min == Hyper.to_Q max ->
             forall x, cost x = inl (Hyper.Builtin ZeroDivisionError)).
Proof.
  do 4 eexists. split; [reflexivity|]. split; [reflexivity|].
  destruct (uniform_handler_cost string String.eqb sample_math sample_math
              (Hyper.UniformIntegerHyperparameter string "depth" 3 5 4 true)
              _ _ _ _ eq_refl eq_refl)
    as (type & min & max & Hd & Hz & _).
  exists type, min, max. split; [exact Hd|exact Hz].
Defined.

Lemma string_eqb_right k k1 k2 :
  String.eqb k1 k2 = true -> String.eqb k k1 = String.eqb k k2.
Proof. intros H. apply String.eqb_eq in H. now subst. Qed.

Lemma string_eqb_left k k1 k2 :
  String.eqb k1 k2 = true -> String.eqb k1 k = String.eqb k2 k.
Proof. intros H. apply String.eqb_eq in H. now subst. Qed.

Section TranslationFacts.
Variable value : Type.
Variable value_eqb : value -> value -> bool.
Variable math_log : Q -> Hyper.res Q.
Variable math_exp : Q -> Hyper.res Q.

Let handle := Hyper.handle value_eqb math_log math_exp.
Let translate_from := Hyper.translate_from value_eqb math_log math_exp.

(** The dictionary after the domains of [params] have been stored. *)
Let stored (dc : dict string Hyper.domain)
  (phs : list (Hyper.hyperparameter value * Hyper.handled value))
  : dict string Hyper.domain :=
  fold_left
    (fun dc ph => dict_set String.eqb (Hyper.name_of (fst ph))
                    (domain_of (snd ph)) dc)
    phs dc.

Lemma translate_from_returns params :
  forall acc t,
    translate_from acc params = inr t ->
    exists hs,
      Forall2 (fun param h => handle param = inr h) params hs
      /\ Hyper.parsers t
         = Hyper.parsers acc
             ++ map (fun ph => (Hyper.name_of (fst ph), parser_of (snd ph)))
                  (combine params hs)
      /\ Hyper.costs t = Hyper.costs acc ++ map cost_of hs
      /\ Hyper.defaults t = Hyper.defaults acc ++ map default_of hs
      /\ Hyper.dragonfly_dict t
         = stored (Hyper.dragonfly_dict acc) (combine params hs).
Proof.
  induction params as [|param rest IH]; intros acc t;
    cbn [translate_from Hyper.translate_from].
  - intros E. inversion E; subst. exists []. split; [constructor|].
    cbn [combine map stored fold_left]. now rewrite !app_nil_r.
  - unfold translate_from. cbn [Hyper.translate_from].
    destruct (Hyper.handle value_eqb math_log math_exp param)
      as [e|[[[d p] c] default]] eqn:Hh; [discriminate|].
    intros E. apply IH in E.
    destruct E as (hs & Hf & Hp & Hc & Hd & Hdc).
    exists ((d, p, c, default) :: hs).
    split; [constructor; [exact Hh|exact Hf]|].
    cbn [Hyper.parsers Hyper.costs Hyper.defaults Hyper.dragonfly_dict]
      in Hp, Hc, Hd, Hdc.
    cbn [combine map fst snd stored fold_left].
    rewrite Hp, Hc, Hd, Hdc, <- !app_assoc. repeat split.
Qed.

Lemma translate_from_raises pre :
  forall acc param post e,
    Forall (fun q => exists h, handle q = inr h) pre ->
    handle param = inl e ->
    translate_from acc (pre ++ param :: post) = inl e.
Proof.
  induction pre as [|q pre IH]; intros acc param post e Hpre He;
    unfold translate_from; cbn [app Hyper.translate_from].
  - unfold handle in He. now rewrite He.
  - inversion Hpre as [|? ? [[[[d p] c] default] Hq] Hrest]; subst.
    unfold handle in Hq. rewrite Hq. now apply IH.
Qed.

Lemma stored_other phs :
  forall dc name,
    (forall ph, In ph phs -> Hyper.name_of (fst ph) <> name) ->
    dict_get String.eqb name (stored dc phs) = dict_get String.eqb name dc.
Proof.
  induction phs as [|ph phs IH]; intros dc name Hn; cbn [stored fold_left];
    [reflexivity|].
  fold (stored (dict_set String.eqb (Hyper.name_of (fst ph))
                  (domain_of (snd ph)) dc) phs).
  rewrite IH by (intros q Hq; apply Hn; now right).
  rewrite (dict_get_set_equiv _ _ String.eqb string_eqb_right
             string_eqb_left).
  destruct (String.eqb_spec name (Hyper.name_of (fst ph))) as [E|E];
    [|reflexivity].
  exfalso. apply (Hn ph); [now left|now symmetry].
Qed.

Lemma stored_keys phs :
  forall dc name,
    In name (keys (stored dc phs))
    <-> In name (keys dc)
        \/ In name (map (fun ph => Hyper.name_of (fst ph)) phs).
Proof.
  assert (K : forall k (v : Hyper.domain) dc name,
             In name (keys (dict_set String.eqb k v dc))
             <-> name = k \/ In name (keys dc)).
  { intros k v dc name. induction dc as [|[k' v'] dc IH];
      cbn [dict_set keys map fst In].
    - intuition.
    - destruct (String.eqb_spec k k') as [->|Hne]; cbn [keys map fst In].
      + intuition.
      + unfold keys in IH. rewrite IH. intuition. }
  induction phs as [|ph phs IH]; intros dc name; cbn [stored fold_left map In].
  - intuition.
  - fold (stored (dict_set String.eqb (Hyper.name_of (fst ph))
                    (domain_of (snd ph)) dc) phs).
    rewrite IH, K. intuition.
Qed.

Lemma translated_dict_last params hs pre param post h :
  Forall2 (fun param h => handle param = inr h) params hs ->
  params = pre ++ param :: post ->
  handle param = inr h ->
  (forall q, In q post -> Hyper.name_of q <> Hyper.name_of param) ->
  dict_get String.eqb (Hyper.name_of param) (stored [] (combine params hs))
  = Some (domain_of h).
Proof.
  intros Hf -> Hh Hpost.
  apply Forall2_app_inv_l in Hf.
  destruct Hf as (hs1 & hs' & H1 & H2 & ->).
  inversion H2 as [|? h' ? hs2 Hh' H3]; subst.
  assert (h' = h) by congruence. subst h'.
  assert (L : length pre = length hs1) by (eapply Forall2_length; eauto).
  rewrite combine_app_eq by exact L.
  unfold stored. rewrite fold_left_app. cbn [combine fold_left fst snd].
  fold (stored (dict_set String.eqb (Hyper.name_of param) (domain_of h)
                  (fold_left
                     (fun dc ph =>
                        dict_set String.eqb (Hyper.name_of (fst ph))
                          (domain_of (snd ph)) dc)
                     (combine pre hs1) []))
          (combine post hs2)).
  rewrite stored_other.
  - apply dict_get_set_string.
  - intros [q hq] Hq. apply in_combine_l in Hq. cbn [fst].
    now apply Hpost.
Qed.
End TranslationFacts.

(** X21. When [_configspace_to_dragonfly] returns, every hyperparameter
    was handled, and the parsers, costs and defaults are those of the
    hyperparameters, one each and in their order, the parsers with the
    names.  The dictionary has the names as keys and holds, for a name that
    occurs more than once, the domain of the last hyperparameter of that
    name. *)
Theorem configspace_to_dragonfly_aligned (value : Type)
  (value_eqb : value -> value -> bool) (math_log math_exp : Q -> Hyper.res Q)
  (params : list (Hyper.hyperparameter value))
  (t : Hyper.translated value) :
  Hyper._configspace_to_dragonfly value_eqb math_log math_exp params
  = inr t ->
  exists hs,
    Forall2
      (fun param h =>
         Hyper.handle value_eqb math_log math_exp param = inr h)
      params hs
    /\ Hyper.parsers t
       = map (fun ph => (Hyper.name_of (fst ph), parser_of (snd ph)))
           (combine params hs)
    /\ Hyper.costs t = map cost_of hs
    /\ Hyper.defaults t = map default_of hs
    /\ (forall name,
          In name (keys (Hyper.dragonfly_dict t))
          <-> In name (map (@Hyper.name_of value) params))
    /\ (forall pre param post h,
          params = pre ++ param :: post ->
          Hyper.handle value_eqb math_log math_exp param = inr h ->
          (forall q, In q post ->
                     Hyper.name_of q <> Hyper.name_of param) ->
          dict_get String.eqb (Hyper.name_of param) (Hyper.dragonfly_dict t)
          = Some (domain_of h)).
Proof.
  unfold Hyper._configspace_to_dragonfly. intros E.
  apply translate_from_returns in E.
  destruct E as (hs & Hf & Hp & Hc & Hd & Hdc).
  cbn [Hyper.parsers Hyper.costs Hyper.defaults Hyper.dragonfly_dict app]
    in Hp, Hc, Hd, Hdc.
  exists hs. split; [exact Hf|]. split; [exact Hp|]. split; [exact Hc|].
  split; [exact Hd|]. rewrite Hdc. split.
  - intros name.
    rewrite (stored_keys value value_eqb math_log math_exp).
    cbn [keys map In].
    assert (M : map (fun ph : Hyper.hyperparameter value
                                * Hyper.handled value =>
                       Hyper.name_of (fst ph)) (combine params hs)
                = map (@Hyper.name_of value) params).
    { clear -Hf. induction Hf as [|param h params hs _ _ IH];
        [reflexivity|]. cbn [combine map fst]. now rewrite IH. }
    rewrite M. intuition.
  - intros pre param post h Hs Hh Hpost.
    now apply (translated_dict_last _ value_eqb math_log math_exp params hs
                 pre param post h).
Qed.

Lemma configspace_to_dragonfly_aligned_witness :
  exists t (hs : list (Hyper.handled string)),
    Hyper._configspace_to_dragonfly String.eqb sample_math sample_math
      sample_space
    = inr t
    /\ Hyper.costs t = map cost_of hs
    /\ Hyper.defaults t = map default_of hs.
Proof.
  eexists.
  destruct (configspace_to_dragonfly_aligned string String.eqb sample_math
              sample_math sample_space _ eq_refl)
    as (hs & _ & _ & Hc & Hd & _).
  exists hs. split; [reflexivity|]. split; [exact Hc|exact Hd].
Defined.

(** X22. [_configspace_to_dragonfly] raises the exception of the first
    hyperparameter whose handler raises, whatever follows it; a constant,
    for which there is no handler, gives [RuntimeError]. *)
Theorem configspace_to_dragonfly_first_failure (value : Type)
  (value_eqb : value -> value -> bool) (math_log math_exp : Q -> Hyper.res Q)
  (pre post : list (Hyper.hyperparameter value))
  (param : Hyper.hyperparameter value) (e : Hyper.error) :
  Forall
    (fun q => exists h, Hyper.handle value_eqb math_log math_exp q = inr h)
    pre ->
  Hyper.handle value_eqb math_log math_exp param = inl e ->
  Hyper._configspace_to_dragonfly value_eqb math_log math_exp
    (pre ++ param :: post)
  = inl e
  /\ (forall name v, param = Hyper.Constant name v -> e = Hyper.RuntimeError).
Proof.
  intros Hpre He. split.
  - unfold Hyper._configspace_to_dragonfly.
    now apply (translate_from_raises _ value_eqb math_log math_exp).
  - intros name v ->. cbn in He. congruence.
Qed.

Lemma configspace_to_dragonfly_first_failure_witness :
  Hyper._configspace_to_dragonfly String.eqb sample_math sample_math
    space_with_constant
  = inl Hyper.RuntimeError.
Proof.
  refine (proj1 (configspace_to_dragonfly_first_failure string String.eqb
                   sample_math sample_math
                   [Hyper.OrdinalHyperparameter "size"
                      (Hyper.Sequence ["s"; "m"; "l"]) "m"]
                   [Hyper.CategoricalHyperparameter "kernel"
                      (Hyper.Other string) None "rbf"]
                   (Hyper.Constant "seed" "0") Hyper.RuntimeError _ _)).
  - constructor; [|constructor]. eexists. reflexivity.
  - reflexivity.
Defined.

(* ================================================================== *)
(** * The command lists *)
(* ================================================================== *)

Lemma expset_dc_nonempty exp benchmarks :
  dict_get String.eqb exp CreateCmd.expset_dc = Some benchmarks ->
  exists last_benchmark, py_getitem benchmarks (-1) = Ok last_benchmark.
Proof.
  assert (H : forallb
                (fun kv =>
                   match py_getitem (snd kv) (-1) with
                   | Ok _ => true
                   | Raise _ => false
                   end)
                CreateCmd.expset_dc = true) by (vm_compute; reflexivity).
  rewrite forallb_forall in H.
  intros E.
  assert (Hin : exists k, In (k, benchmarks) CreateCmd.expset_dc).
  { revert E. generalize CreateCmd.expset_dc as d.
    induction d as [|[k v] d IH]; cbn [dict_get]; [discriminate|].
    destruct (String.eqb exp k).
    - intros E. inversion E; subst. exists k. now left.
    - intros E. destruct (IH E) as [k' Hk]. exists k'. now right. }
  destruct Hin as [k Hk]. specialize (H _ Hk). cbn [snd] in H.
  destruct (py_getitem benchmarks (-1)) as [b|e]; [|discriminate].
  now exists b.
Qed.

Lemma dict_get_keys {V : Type} (d : dict string V) k :
  In k (keys d) <-> exists v, dict_get String.eqb k d = Some v.
Proof.
  induction d as [|[k' v'] d IH]; cbn [keys map fst In dict_get].
  - split; [intros []|intros [v H]; discriminate].
  - destruct (String.eqb_spec k k') as [->|Hne].
    + split; [intros _; now exists v'|intros _; now left].
    + unfold keys in IH. rewrite <- IH. split; [|now right].
      intros [E|H]; [congruence|exact H].
Qed.

Section MainFacts.
Variable get_openmlcc18_taskids : list Z.
Variable a : CreateCmd.args.

Let is_rs := String.eqb (CreateCmd.opt a) "rs".

(** The lists after the benchmarks [bs] of an experiment set whose last
    benchmark is [last_benchmark], for the worker numbers [workers]. *)
Let after (optimizers : list string) (last_benchmark : string)
  (workers : list Z) (c : CreateCmd.cmds) (bs : list string)
  : CreateCmd.cmds :=
  {| CreateCmd.run_cmd :=
       CreateCmd.run_cmd c
         ++ flat_map
              (fun b =>
                 flat_map (CreateCmd.run_cmds get_openmlcc18_taskids a b)
                   optimizers)
              bs;
     CreateCmd.eval_cmd :=
       CreateCmd.eval_cmd c
         ++ (if is_rs
             then
               flat_map
                 (fun b =>
                    CreateCmd.eval_all a b
                    :: (if String.eqb b last_benchmark
                        then [CreateCmd.eval_rank a] else []))
                 bs
             else []);
     CreateCmd.evalu_cmd :=
       CreateCmd.evalu_cmd c
         ++ (if is_rs
             then
               flat_map
                 (fun b =>
                    String.append (CreateCmd.eval_all a b) " --unvalidated"
                    :: (if String.eqb b last_benchmark
                        then [String.append (CreateCmd.eval_rank a)
                                " --unvalidated"]
                        else []))
                 bs
             else []);
     CreateCmd.val_cmd :=
       CreateCmd.val_cmd c
         ++ (if is_rs
             then
               flat_map
                 (fun b =>
                    CreateCmd.scheduler_cmd a b
                    :: map (CreateCmd.worker_cmd a b) workers)
                 bs
             else []) |}.

Lemma benchmark_loop optimizers benchmarks last_benchmark workers bs :
  dict_get String.eqb (CreateCmd.opt a) CreateCmd.opt_set = Some optimizers ->
  dict_get String.eqb (CreateCmd.exp a) CreateCmd.expset_dc
  = Some benchmarks ->
  py_getitem benchmarks (-1) = Ok last_benchmark ->
  (CreateCmd.opt a = "rs" ->
   CreateCmd.range (CreateCmd.nworker a) = inr workers) ->
  forall c,
    CreateCmd.fold_res (CreateCmd.benchmark_cmds get_openmlcc18_taskids a)
      bs c
    = inr (after optimizers last_benchmark workers c bs).
Proof.
  intros Ho He Hl Hw. unfold after, is_rs.
  induction bs as [|b bs IH]; intros c; cbn [CreateCmd.fold_res].
  - cbn [flat_map]. destruct (String.eqb (CreateCmd.opt a) "rs");
      rewrite !app_nil_r; now destruct c.
  - unfold CreateCmd.benchmark_cmds at 1. unfold CreateCmd.getitem.
    rewrite Ho. cbn [CreateCmd.of_result CreateCmd.bind_res].
    destruct (String.eqb (CreateCmd.opt a) "rs") eqn:R.
    + rewrite He. cbn [CreateCmd.of_result CreateCmd.bind_res].
      rewrite Hl. cbn [CreateCmd.of_result CreateCmd.bind_res].
      unfold CreateCmd.val_cmds.
      rewrite (Hw (proj1 (String.eqb_eq _ _) R)).
      cbn [CreateCmd.bind_res]. rewrite IH.
      cbn [CreateCmd.run_cmd CreateCmd.eval_cmd CreateCmd.evalu_cmd
           CreateCmd.val_cmd flat_map].
      rewrite <- !app_assoc. cbn [app]. reflexivity.
    + cbn [CreateCmd.bind_res]. rewrite IH.
      cbn [CreateCmd.run_cmd CreateCmd.eval_cmd CreateCmd.evalu_cmd
           CreateCmd.val_cmd flat_map].
      rewrite <- !app_assoc, !app_nil_r. reflexivity.
Qed.

Lemma benchmark_loop_unknown_optimizers b bs c :
  dict_get String.eqb (CreateCmd.opt a) CreateCmd.opt_set = None ->
  CreateCmd.fold_res (CreateCmd.benchmark_cmds get_openmlcc18_taskids a)
    (b :: bs) c
  = inl (CreateCmd.Builtin KeyError).
Proof.
  intros Ho. cbn [CreateCmd.fold_res]. unfold CreateCmd.benchmark_cmds.
  unfold CreateCmd.getitem at 1. now rewrite Ho.
Qed.

Lemma benchmark_loop_workers_str benchmarks last_benchmark s b bs c :
  CreateCmd.opt a = "rs" ->
  dict_get String.eqb (CreateCmd.exp a) CreateCmd.expset_dc
  = Some benchmarks ->
  py_getitem benchmarks (-1) = Ok last_benchmark ->
  CreateCmd.nworker a = CreateCmd.Str s ->
  CreateCmd.fold_res (CreateCmd.benchmark_cmds get_openmlcc18_taskids a)
    (b :: bs) c
  = inl CreateCmd.TypeError.
Proof.
  intros Hrs He Hl Hs. cbn [CreateCmd.fold_res].
  unfold CreateCmd.benchmark_cmds, CreateCmd.getitem. rewrite Hrs.
  change (dict_get String.eqb "rs" CreateCmd.opt_set)
    with (Some ["randomsearch"]).
  cbn [CreateCmd.of_result CreateCmd.bind_res].
  change (String.eqb "rs" "rs") with true. cbv iota.
  rewrite He. cbn [CreateCmd.of_result CreateCmd.bind_res].
  rewrite Hl. cbn [CreateCmd.of_result CreateCmd.bind_res].
  unfold CreateCmd.val_cmds. rewrite Hs. reflexivity.
Qed.

Lemma run_cmds_length benchmark optimizer :
  length (CreateCmd.run_cmds get_openmlcc18_taskids a benchmark optimizer)
  = (Z.to_nat (CreateCmd.nrep a)
     * tasks_of get_openmlcc18_taskids benchmark)%nat.
Proof.
  unfold CreateCmd.run_cmds, tasks_of.
  rewrite (flat_map_constant_length
             (c := if CreateCmd.per_task benchmark
                   then length get_openmlcc18_taskids else 1%nat)).
  - unfold CreateCmd.seeds. now rewrite length_map, length_seq.
  - intros seed _. destruct (CreateCmd.per_task benchmark);
      [now rewrite length_map|reflexivity].
Qed.

Lemma run_cmd_length optimizers bs :
  length (flat_map
            (fun b =>
               flat_map (CreateCmd.run_cmds get_openmlcc18_taskids a b)
                 optimizers)
            bs)
  = (length optimizers * Z.to_nat (CreateCmd.nrep a)
     * list_sum (map (tasks_of get_openmlcc18_taskids) bs))%nat.
Proof.
  induction bs as [|b bs IH];
    cbn [flat_map map list_sum fold_right length]; [lia|].
  change (fold_right plus 0%nat (map (tasks_of get_openmlcc18_taskids) bs))
    with (list_sum (map (tasks_of get_openmlcc18_taskids) bs)).
  rewrite length_app, IH.
  rewrite (flat_map_constant_length
             (c := (Z.to_nat (CreateCmd.nrep a)
                    * tasks_of get_openmlcc18_taskids b)%nat))
    by (intros o _; apply run_cmds_length).
  lia.
Qed.
End MainFacts.

Lemma ranked_length {A : Type} (f g : string -> A) last_benchmark bs :
  length (flat_map
            (fun b =>
               f b :: (if String.eqb b last_benchmark then [g b] else []))
            bs)
  = (length bs + count_occ string_dec bs last_benchmark)%nat.
Proof.
  induction bs as [|b bs IH]; [reflexivity|].
  cbn [flat_map length count_occ]. rewrite length_app, IH.
  destruct (String.eqb_spec b last_benchmark) as [->|Hne].
  - destruct (string_dec last_benchmark last_benchmark); [|congruence].
    cbn [length]. lia.
  - destruct (string_dec b last_benchmark); [congruence|].
    cbn [length]. lia.
Qed.

Lemma main_outcome (isdir mkdir : string -> bool)
  (get_openmlcc18_taskids : list Z) (a : CreateCmd.args) :
  snd (CreateCmd.main isdir mkdir get_openmlcc18_taskids a)
  = if negb (isdir (CreateCmd.out_cmd a))
       && negb (mkdir (CreateCmd.out_cmd a))
    then inl CreateCmd.OSError
    else
      match dict_get String.eqb (CreateCmd.exp a) CreateCmd.expset_dc with
      | None => inl (CreateCmd.Builtin KeyError)
      | Some benchmarks =>
          CreateCmd.bind_res
            (CreateCmd.fold_res
               (CreateCmd.benchmark_cmds get_openmlcc18_taskids a)
               benchmarks
               {| CreateCmd.run_cmd := []; CreateCmd.eval_cmd := [];
                  CreateCmd.evalu_cmd := []; CreateCmd.val_cmd := [] |})
            (fun c =>
               inr (filter (fun cf => Nat.ltb 0 (length (fst cf)))
                      [(CreateCmd.run_cmd c, CreateCmd.run_fl a);
                       (CreateCmd.eval_cmd c, CreateCmd.eval_fl a);
                       (CreateCmd.evalu_cmd c, CreateCmd.evalu_fl a);
                       (CreateCmd.val_cmd c, CreateCmd.val_fl a)]))
      end.
Proof.
  unfold CreateCmd.main, CreateCmd.getitem. cbn [snd].
  destruct (negb (isdir (CreateCmd.out_cmd a))
            && negb (mkdir (CreateCmd.out_cmd a))); [reflexivity|].
  now destruct (dict_get String.eqb (CreateCmd.exp a) CreateCmd.expset_dc).
Qed.

Lemma folder_ready (isdir mkdir : string -> bool) (f : string) :
  negb (isdir f) && negb (mkdir f) = false
  <-> isdir f = true \/ mkdir f = true.
Proof.
  destruct (isdir f), (mkdir f); cbn; split; auto;
    intros [H|H]; discriminate H.
Qed.

(** X23. Lines 128-186 of [main] end in one of four ways. [OSError]:
    [out_cmd] is not a folder and [os.mkdir] does not make it.
    [KeyError]: the folder is there and [exp] is not a key of [expset_dc]
    or [opt] is not a key of [opt_set]. [TypeError]: the folder is there,
    [exp] is known, [opt] is ["rs"] and [nworker] is a string, which is
    what argparse stores for [--nworker] given on the command line. In
    every other case, and in no other, [main] gets to its calls of
    [write_cmd]. With the default ["def"] of [--opt] it never does. *)
Theorem main_errors (isdir mkdir : string -> bool)
  (get_openmlcc18_taskids : list Z) (a : CreateCmd.args) :
  let ready :=
    isdir (CreateCmd.out_cmd a) = true
    \/ mkdir (CreateCmd.out_cmd a) = true in
  let known_exp := In (CreateCmd.exp a) (keys CreateCmd.expset_dc) in
  let known_opt := In (CreateCmd.opt a) (keys CreateCmd.opt_set) in
  let outcome :=
    snd (CreateCmd.main isdir mkdir get_openmlcc18_taskids a) in
  (outcome = inl CreateCmd.OSError <-> ~ ready)
  /\ (outcome = inl (CreateCmd.Builtin KeyError)
      <-> ready /\ ~ (known_exp /\ known_opt))
  /\ (outcome = inl CreateCmd.TypeError
      <-> ready /\ known_exp /\ CreateCmd.opt a = "rs"
          /\ exists s, CreateCmd.nworker a = CreateCmd.Str s)
  /\ ((exists calls, outcome = inr calls)
      <-> ready /\ known_exp /\ known_opt
          /\ (CreateCmd.opt a = "rs" ->
              exists n, CreateCmd.nworker a = CreateCmd.Int n))
  /\ (CreateCmd.opt a = "def" ->
      outcome = inl CreateCmd.OSError
      \/ outcome = inl (CreateCmd.Builtin KeyError)).
Proof.
  cbv zeta. rewrite main_outcome, !dict_get_keys.
  rewrite <- (folder_ready isdir mkdir (CreateCmd.out_cmd a)).
  destruct (negb (isdir (CreateCmd.out_cmd a))
            && negb (mkdir (CreateCmd.out_cmd a))).
  { split; [split; [intros _ H; discriminate H|reflexivity]|].
    split; [split; [discriminate|intros [H _]; discriminate H]|].
    split; [split; [discriminate|intros [H _]; discriminate H]|].
    split; [split; [intros [calls H]; discriminate H
                   |intros [H _]; discriminate H]|].
    intros _. now left. }
  destruct (dict_get String.eqb (CreateCmd.exp a) CreateCmd.expset_dc)
    as [benchmarks|] eqn:He.
  2:{ split; [split; [discriminate|intros H; now elim H]|].
      split; [split; [intros _; split; [reflexivity|];
                      intros [[v H] _]; discriminate H
                     |reflexivity]|].
      split; [split; [discriminate
                     |intros (_ & [v H] & _); discriminate H]|].
      split; [split; [intros [calls H]; discriminate H
                     |intros (_ & [v H] & _); discriminate H]|].
      intros _. now right. }
  destruct (expset_dc_nonempty _ _ He) as [last_benchmark Hl].
  destruct (dict_get String.eqb (CreateCmd.opt a) CreateCmd.opt_set)
    as [optimizers|] eqn:Ho.
  2:{ assert (R : CreateCmd.fold_res
                    (CreateCmd.benchmark_cmds get_openmlcc18_taskids a)
                    benchmarks
                    {| CreateCmd.run_cmd := []; CreateCmd.eval_cmd := [];
                       CreateCmd.evalu_cmd := []; CreateCmd.val_cmd := [] |}
                  = inl (CreateCmd.Builtin KeyError)).
      { destruct benchmarks as [|b bs]; [discriminate Hl|].
        now apply benchmark_loop_unknown_optimizers. }
      rewrite R. cbn [CreateCmd.bind_res].
      split; [split; [discriminate|intros H; now elim H]|].
      split; [split; [intros _; split; [reflexivity|];
                      intros [_ [v H]]; discriminate H
                     |reflexivity]|].
      split; [split; [discriminate|]|].
      { intros (_ & _ & Hrs & _). rewrite Hrs in Ho. discriminate Ho. }
      split; [split; [intros [calls H]; discriminate H
                     |intros (_ & _ & [v H] & _); discriminate H]|].
      intros _. now right. }
  assert (Hdef : CreateCmd.opt a <> "def").
  { intros D. rewrite D in Ho. discriminate Ho. }
  assert (Hknown : (exists v, Some benchmarks = Some v)
                   /\ (exists v, Some optimizers = Some v)).
  { split; eexists; reflexivity. }
  destruct (String.eqb_spec (CreateCmd.opt a) "rs") as [Hrs|Hrs].
  - destruct (CreateCmd.nworker a) as [n|s] eqn:Hn.
    + rewrite (benchmark_loop get_openmlcc18_taskids a optimizers
                 benchmarks last_benchmark
                 (map (fun i => Z.of_nat i) (seq 0 (Z.to_nat n)))
                 benchmarks Ho He Hl)
        by (intros _; rewrite Hn; reflexivity).
      cbn [CreateCmd.bind_res].
      split; [split; [discriminate|intros H; now elim H]|].
      split; [split; [discriminate|intros [_ H]; now elim H]|].
      split; [split; [discriminate
                     |intros (_ & _ & _ & [s H]); discriminate H]|].
      split; [|intros D; contradiction].
      split; [|intros _; eexists; reflexivity].
      intros _. split; [reflexivity|].
      split; [apply Hknown|]. split; [apply Hknown|].
      intros _. now exists n.
    + destruct benchmarks as [|b bs]; [discriminate Hl|].
      rewrite (benchmark_loop_workers_str get_openmlcc18_taskids a
                 (b :: bs) last_benchmark s b bs _ Hrs He Hl Hn).
      cbn [CreateCmd.bind_res].
      split; [split; [discriminate|intros H; now elim H]|].
      split; [split; [discriminate|intros [_ H]; now elim H]|].
      split; [split; [|reflexivity]|].
      { intros _. split; [reflexivity|]. split; [apply Hknown|].
        split; [exact Hrs|]. now exists s. }
      split; [|intros D; contradiction].
      split; [intros [calls H]; discriminate H|].
      intros (_ & _ & _ & H). destruct (H Hrs) as [n Hn']. discriminate Hn'.
  - rewrite (benchmark_loop get_openmlcc18_taskids a optimizers
               benchmarks last_benchmark [] benchmarks Ho He Hl)
      by (intros D; contradiction).
    cbn [CreateCmd.bind_res].
    split; [split; [discriminate|intros H; now elim H]|].
    split; [split; [discriminate|intros [_ H]; now elim H]|].
    split; [split; [discriminate|intros (_ & _ & D & _); contradiction]|].
    split; [|intros D; contradiction].
    split; [|intros _; eexists; reflexivity].
    intros _. split; [reflexivity|].
    split; [apply Hknown|]. split; [apply Hknown|].
    intros D. contradiction.
Qed.

Lemma main_errors_witness :
  snd (CreateCmd.main (fun _ => true) (fun _ => false) [] parsed_args)
  = inl CreateCmd.TypeError.
Proof.
  apply (proj2 (proj1 (proj2 (proj2
           (main_errors (fun _ => true) (fun _ => false) []
              parsed_args))))).
  split; [now left|]. split; [right; left; reflexivity|].
  split; [reflexivity|]. now exists "3".
Defined.

(** X24. When the folder [out_cmd] is there or is made, [exp] and [opt]
    are known and, for the optimizer set ["rs"], [nworker] is the integer
    [n], [main] queues one run command for every benchmark, optimizer,
    seed and, for the three benchmarks that run per task, task id.  The
    commands for evaluation and validation are queued for the optimizer
    set ["rs"] only: one evaluation per benchmark and one more for the
    ranking with the last benchmark, and one scheduler and [n] workers per
    benchmark (none for a negative [n]).  [write_cmd] is called for the
    lists that are not empty. *)
Theorem main_command_counts (isdir mkdir : string -> bool)
  (get_openmlcc18_taskids : list Z) (a : CreateCmd.args)
  (benchmarks optimizers : list string) (n : Z) :
  isdir (CreateCmd.out_cmd a) = true \/ mkdir (CreateCmd.out_cmd a) = true ->
  dict_get String.eqb (CreateCmd.exp a) CreateCmd.expset_dc
  = Some benchmarks ->
  dict_get String.eqb (CreateCmd.opt a) CreateCmd.opt_set = Some optimizers ->
  (CreateCmd.opt a = "rs" -> CreateCmd.nworker a = CreateCmd.Int n) ->
  exists c last_benchmark,
    py_getitem benchmarks (-1) = Ok last_benchmark
    /\ snd (CreateCmd.main isdir mkdir get_openmlcc18_taskids a)
       = inr (filter (fun cf => Nat.ltb 0 (length (fst cf)))
                [(CreateCmd.run_cmd c, CreateCmd.run_fl a);
                 (CreateCmd.eval_cmd c, CreateCmd.eval_fl a);
                 (CreateCmd.evalu_cmd c, CreateCmd.evalu_fl a);
                 (CreateCmd.val_cmd c, CreateCmd.val_fl a)])
    /\ length (CreateCmd.run_cmd c)
       = (length optimizers * Z.to_nat (CreateCmd.nrep a)
          * list_sum (map (tasks_of get_openmlcc18_taskids) benchmarks))%nat
    /\ (CreateCmd.opt a <> "rs" ->
        CreateCmd.eval_cmd c = [] /\ CreateCmd.evalu_cmd c = []
        /\ CreateCmd.val_cmd c = [])
    /\ (CreateCmd.opt a = "rs" ->
        length (CreateCmd.eval_cmd c)
        = (length benchmarks
           + count_occ string_dec benchmarks last_benchmark)%nat
        /\ length (CreateCmd.evalu_cmd c) = length (CreateCmd.eval_cmd c)
        /\ length (CreateCmd.val_cmd c)
           = (length benchmarks * (1 + Z.to_nat n))%nat).
Proof.
  intros Hready He Ho Hn.
  destruct (expset_dc_nonempty _ _ He) as [last_benchmark Hl].
  eexists. exists last_benchmark. split; [exact Hl|].
  rewrite main_outcome, He.
  rewrite (proj2 (folder_ready isdir mkdir (CreateCmd.out_cmd a)) Hready).
  rewrite (benchmark_loop get_openmlcc18_taskids a optimizers benchmarks
             last_benchmark
             (map (fun i => Z.of_nat i) (seq 0 (Z.to_nat n)))
             benchmarks Ho He Hl)
    by (intros Hrs; rewrite (Hn Hrs); reflexivity).
  cbn [CreateCmd.bind_res]. split; [reflexivity|].
  cbn [CreateCmd.run_cmd CreateCmd.eval_cmd CreateCmd.evalu_cmd
       CreateCmd.val_cmd app].
  split; [apply run_cmd_length|]. split.
  - intros Hrs. destruct (String.eqb_spec (CreateCmd.opt a) "rs");
      [contradiction|]. repeat split.
  - intros Hrs. rewrite Hrs. cbn [String.eqb Ascii.eqb Bool.eqb andb].
    rewrite !ranked_length. split; [reflexivity|]. split; [reflexivity|].
    rewrite (flat_map_constant_length (c := (1 + Z.to_nat n)%nat)).
    + reflexivity.
    + intros b _. cbn [length].
      now rewrite !length_map, length_seq.
Qed.

Lemma main_command_counts_witness :
  exists c,
    snd (CreateCmd.main (fun _ => true) (fun _ => false) [] sample_args)
    = inr [(CreateCmd.run_cmd c, CreateCmd.run_fl sample_args);
           (CreateCmd.eval_cmd c, CreateCmd.eval_fl sample_args);
           (CreateCmd.evalu_cmd c, CreateCmd.evalu_fl sample_args);
           (CreateCmd.val_cmd c, CreateCmd.val_fl sample_args)]
    /\ length (CreateCmd.run_cmd c) = 6%nat
    /\ length (CreateCmd.eval_cmd c) = 4%nat
    /\ length (CreateCmd.evalu_cmd c) = 4%nat
    /\ length (CreateCmd.val_cmd c) = 12%nat.
Proof.
  destruct (main_command_counts (fun _ => true) (fun _ => false) []
              sample_args
              ["NASCifar10ABenchmark"; "NASCifar10BBenchmark";
               "NASCifar10CBenchmark"]
              ["randomsearch"] 3 (or_introl eq_refl) eq_refl eq_refl
              (fun _ => eq_refl))
    as (c & last_benchmark & Hl & Hm & Hr & _ & Hrs).
  injection Hl as <-.
  destruct (Hrs eq_refl) as (He & Hu & Hv).
  exists c. rewrite He in Hu.
  change (length (CreateCmd.run_cmd c) = 6%nat) in Hr.
  change (length (CreateCmd.eval_cmd c) = 4%nat) in He.
  change (length (CreateCmd.val_cmd c) = 12%nat) in Hv.
  split; [|repeat split; assumption].
  rewrite Hm. cbn [filter fst]. now rewrite Hr, He, Hu, Hv.
Defined.
